(** * CareerNav: job ingestion and skill analytics, a shallow embedding

    The development follows the Python sources of the backend:
    - [app/services/skill_extractor.py]       (module [SkillExtractor])
    - [app/models/job_posting.py]             (module [JobPosting])
    - [app/services/theirstack_client.py]     (module [TheirStackClient])
    - [app/services/job_collection_service.py](modules [JobCollectionService]
                                               and [JobMaintenance])
    - [app/services/gap_service.py]           (module [GapService])
    - [app/services/user_job_collection_service.py]
                                              (module [UserJobCollectionService])

    Part I holds the definitions, Part II the lemmas and theorems about
    the specification, Part III further properties of the code.

    Conventions.  Python [str] values are modelled as byte strings and the
    string methods ([lower], [strip], [replace], [in]) by their behaviour on
    ASCII text.  Dictionaries built by the code are [gmap string value];
    JSON objects received from upstream keep their keys in an association
    list.  A [datetime] is a number of microseconds since 1970; the
    document store keeps dates in milliseconds, in the documents it is
    handed and in the queries it is asked, and a date outside the years 1
    to 9999 does not exist: the subtraction that would give one raises
    [OverflowError].  Effects (the HTTP transport, the clock, the document
    store, the TTL cache) are threaded through a state-and-exception
    monad.

    What is left outside the model.  The document store keeps documents in
    a list and answers [find_one], [count] and the aggregation pipeline by
    scanning it; the unique indexes the collection declares are enforced by
    the database, not by this code, and are not modelled.  Validation by
    pydantic accepts keyword arguments as they are or rejects them: the
    conversions it makes between types are not modelled.  Logging, the
    creation of the HTTP client and the interleaving of concurrent tasks
    are left out; one task runs at a time.  The TTL cache holds the live
    entries only: expiry and eviction are the cache library's.  JSON
    numbers that reach the pipeline are integers. *)

From Stdlib Require Import ZArith Ascii String List Bool Lia Floats.
From stdpp Require Import base decidable option list sorting strings pretty gmap.

Open Scope Z_scope.
Open Scope string_scope.

Set Warnings "-register-all".

(* ===================================================================== *)
(** * Part I: the embedding                                               *)
(* ===================================================================== *)

(** ** Python strings *)
Module Py.

(** [c.lower()] on one ASCII character. *)
Definition lower_ascii (c : ascii) : ascii :=
  let n := nat_of_ascii c in
  if ((65 <=? n) && (n <=? 90))%nat then ascii_of_nat (n + 32) else c.

(** [s.lower()] *)
Fixpoint lower (s : string) : string :=
  match s with
  | EmptyString => EmptyString
  | String c r => String (lower_ascii c) (lower r)
  end.

(** The ASCII characters [str.strip()] removes: TAB, LF, VT, FF, CR, the
    four separators FS, GS, RS, US, and the space. *)
Definition is_space (c : ascii) : bool :=
  let n := nat_of_ascii c in
  (((9 <=? n) && (n <=? 13)) || ((28 <=? n) && (n <=? 32)))%nat.

Fixpoint lstrip (s : string) : string :=
  match s with
  | EmptyString => EmptyString
  | String c r => if is_space c then lstrip r else s
  end.

Fixpoint rstrip (s : string) : string :=
  match s with
  | EmptyString => EmptyString
  | String c r =>
      match rstrip r with
      | EmptyString => if is_space c then EmptyString else String c EmptyString
      | r' => String c r'
      end
  end.

(** [s.strip()] *)
Definition strip (s : string) : string := rstrip (lstrip s).

(** [s.replace(a, b)] for one-character [a]; [b] is any string. *)
Fixpoint replace (a : ascii) (b : string) (s : string) : string :=
  match s with
  | EmptyString => EmptyString
  | String c r =>
      if Ascii.eqb c a then b ++ replace a b r else String c (replace a b r)
  end.

Fixpoint starts_with (p s : string) : bool :=
  match p, s with
  | EmptyString, _ => true
  | String a p', String b s' => Ascii.eqb a b && starts_with p' s'
  | String _ _, EmptyString => false
  end.

(** [sub in s] *)
Fixpoint contains (sub s : string) : bool :=
  starts_with sub s ||
  match s with
  | EmptyString => false
  | String _ r => contains sub r
  end.

(** [sep.join(items)] *)
Fixpoint join (sep : string) (items : list string) : string :=
  match items with
  | [] => EmptyString
  | [x] => x
  | x :: rest => x ++ sep ++ join sep rest
  end.

(** [not s] for a string. *)
Definition blank (s : string) : bool :=
  match s with EmptyString => true | _ => false end.

(** The order [sorted] uses on strings: lexicographic on code points. *)
Definition str_le (a b : string) : Prop := String.leb a b = true.

#[global] Instance str_le_dec (a b : string) : Decision (str_le a b).
Proof. unfold str_le. apply _. Defined.

(** [sorted(xs)] for a set of strings. *)
Definition sorted (xs : gset string) : list string :=
  merge_sort str_le (elements xs).

(** A dict literal: a later binding of a key replaces an earlier one. *)
Definition dict_literal {V} (kvs : list (string * V)) : gmap string V :=
  foldl (fun m kv => <[kv.1 := kv.2]> m) ∅ kvs.

(** ** Python and JSON values *)

(** The values that travel through the pipeline: JSON data received from
    upstream, and the [datetime] stamps the code adds.  JSON objects keep
    their fields in an association list, first binding of a key first. *)
Inductive value : Type :=
  | VNone
  | VBool (b : bool)
  | VInt (n : Z)
  | VStr (s : string)
  | VTime (t : Z)
  | VList (items : list value)
  | VDict (fields : list (string * value)).

Fixpoint value_eqb (a b : value) : bool :=
  match a, b with
  | VNone, VNone => true
  | VBool x, VBool y => Bool.eqb x y
  | VInt x, VInt y => Z.eqb x y
  | VStr x, VStr y => String.eqb x y
  | VTime x, VTime y => Z.eqb x y
  | VList xs, VList ys =>
      (fix go (xs ys : list value) : bool :=
         match xs, ys with
         | [], [] => true
         | x :: xs', y :: ys' => value_eqb x y && go xs' ys'
         | _, _ => false
         end) xs ys
  | VDict xs, VDict ys =>
      (fix go (xs ys : list (string * value)) : bool :=
         match xs, ys with
         | [], [] => true
         | (k, x) :: xs', (l, y) :: ys' =>
             String.eqb k l && value_eqb x y && go xs' ys'
         | _, _ => false
         end) xs ys
  | _, _ => false
  end.

(** [bool(v)]: what [if v], [not v] and [a or b] test. *)
Definition truthy (v : value) : bool :=
  match v with
  | VNone => false
  | VBool b => b
  | VInt n => negb (Z.eqb n 0)
  | VStr s => negb (blank s)
  | VTime _ => true
  | VList l => match l with [] => false | _ => true end
  | VDict d => match d with [] => false | _ => true end
  end.

(** [a or b] *)
Definition or_else (a b : value) : value := if truthy a then a else b.

Definition is_none (v : value) : bool :=
  match v with VNone => true | _ => false end.

(** Lookup in the fields of a JSON object. *)
Fixpoint assoc (k : string) (d : list (string * value)) : option value :=
  match d with
  | [] => None
  | (k', v) :: rest => if String.eqb k k' then Some v else assoc k rest
  end.

(** [d.get(k)] and [d.get(k, dflt)] on a JSON object *)
Definition get (d : list (string * value)) (k : string) : value :=
  default VNone (assoc k d).

Definition get_or (d : list (string * value)) (k : string) (dflt : value) : value :=
  default dflt (assoc k d).

(** [d.get(k)] on a dict built by the code *)
Definition mget (d : gmap string value) (k : string) : value :=
  default VNone (d !! k).

(** ** Values as the document store keeps them *)

(** A BSON date counts milliseconds: of a [datetime] (here in
    microseconds since 1970) the driver keeps
    [timegm(...) * 1000 + microsecond // 1000], the microseconds below
    the millisecond are dropped. *)
Definition bson_datetime (t : Z) : Z := t / 1000 * 1000.

(** A value as the driver encodes it, in a document to store and in a
    query alike: the dates in it lose their microseconds, everything
    else is kept. *)
Fixpoint bson (v : value) : value :=
  match v with
  | VTime t => VTime (bson_datetime t)
  | VList items => VList (map bson items)
  | VDict fields =>
      VDict ((fix go (fields : list (string * value)) : list (string * value) :=
                match fields with
                | [] => []
                | (k, x) :: rest => (k, bson x) :: go rest
                end) fields)
  | _ => v
  end.

(** The document the store holds for a document handed to it. *)
Definition bson_doc (d : gmap string value) : gmap string value := bson <$> d.

(** [d.setdefault(k, v)] *)
Definition setdefault (k : string) (v : value) (d : gmap string value)
  : gmap string value :=
  match d !! k with Some _ => d | None => <[k := v]> d end.

(** [str(v)].  The text of a list, a dict or a datetime is left to [repr]. *)
Definition str (repr : value -> string) (v : value) : string :=
  match v with
  | VNone => "None"
  | VBool true => "True"
  | VBool false => "False"
  | VInt n => pretty n
  | VStr s => s
  | _ => repr v
  end.


(** [for x in v]: the items a [for] loop visits, [None] when [v] is not
    iterable (a [TypeError]). *)
Definition iter (v : value) : option (list value) :=
  match v with
  | VList l => Some l
  | VStr s => Some ((fun c => VStr (String c EmptyString)) <$> list_ascii_of_string s)
  | VDict d => Some ((fun kv => VStr kv.1) <$> d)
  | _ => None
  end.

(** The exceptions the pipeline raises and catches. *)
Inductive exn : Type :=
  | ValueError (msg : string)
  | TypeError
  | AttributeError
  | ValidationError
  | TheirStackClientError (msg : string)
  | TheirStackAuthenticationError (msg : string)
  | TheirStackRetryableError (msg : string)
  | OverflowError.

End Py.

(** ** skill_extractor.py: [SkillExtractor.map_technology_slugs] *)
Module SkillExtractor.
Import Py.

Definition SKILL_CANONICAL_MAP : gmap string string := dict_literal [
  ("cpp", "c++"); ("csharp", "c#"); ("dotnet", ".net"); ("aspnet", "asp.net");
    ("sqlserver", "sql server"); ("node-js", "nodejs"); ("js", "javascript");
    ("ts", "typescript")
].

Definition TECHNOLOGY_SLUG_MAP : gmap string string := dict_literal [
  ("react", "react"); ("reactjs", "react"); ("react-js", "react"); ("vue-js", "vue");
    ("vuejs", "vue"); ("angular", "angular"); ("angularjs", "angular");
    ("nextjs", "next.js"); ("next-js", "next.js"); ("nuxtjs", "nuxt.js");
    ("nuxt-js", "nuxt.js"); ("nodejs", "nodejs"); ("node-js", "nodejs");
    ("expressjs", "express"); ("express-js", "express"); ("nestjs", "nestjs");
    ("django", "django"); ("flask", "flask"); ("fastapi", "fastapi"); ("spring", "spring");
    ("spring-boot", "spring boot"); ("laravel", "laravel"); ("rails", "rails");
    ("dotnet", ".net"); ("csharp", "c#"); ("cpp", "c++"); ("cplusplus", "c++");
    ("java", "java"); ("python", "python"); ("go", "go"); ("golang", "go");
    ("rust", "rust"); ("kotlin", "kotlin"); ("swift", "swift"); ("sql", "sql");
    ("mysql", "mysql"); ("postgresql", "postgresql"); ("postgres", "postgresql");
    ("mongodb", "mongodb"); ("dynamodb", "dynamodb"); ("redis", "redis");
    ("elasticsearch", "elasticsearch"); ("snowflake", "snowflake");
    ("bigquery", "bigquery"); ("redshift", "redshift"); ("aws", "aws");
    ("amazon-web-services", "aws"); ("aws-lambda", "aws lambda");
    ("aws-step-functions", "aws step functions"); ("amazon-api-gateway", "api gateway");
    ("amazon-ecs", "aws ecs"); ("amazon-s3", "aws s3"); ("azure", "azure");
    ("microsoft-azure", "azure"); ("gcp", "gcp"); ("google-cloud-platform", "gcp");
    ("kubernetes", "kubernetes"); ("docker", "docker"); ("terraform", "terraform");
    ("ansible", "ansible"); ("jenkins", "jenkins"); ("github-actions", "github actions");
    ("github", "github"); ("gitlab", "gitlab"); ("gitlab-ci", "gitlab ci");
    ("ci-cd", "ci/cd"); ("celery", "celery"); ("rabbitmq", "rabbitmq"); ("kafka", "kafka");
    ("tensorflow", "tensorflow"); ("pytorch", "pytorch"); ("scikit-learn", "scikit-learn");
    ("nlp", "natural language processing"); ("ml", "machine learning");
    ("ai", "artificial intelligence"); ("power-bi", "power bi"); ("tableau", "tableau");
    ("looker", "looker"); ("cypress", "cypress"); ("selenium", "selenium");
    ("postman", "postman"); ("jest", "jest"); ("pytest", "pytest"); ("junit", "junit");
    ("gradle", "gradle"); ("maven", "maven"); ("unity-3d", "unity");
    ("databricks", "databricks"); ("delta-lake", "delta lake");
    ("apache-spark-sql", "spark"); ("spark", "spark"); ("sidekiq", "sidekiq");
    ("netsuite", "netsuite"); ("phrase", "phrase"); ("greenhouse", "greenhouse");
    ("workday", "workday"); ("confluence", "confluence"); ("jira", "jira");
    ("lever", "lever"); ("xml-format", "xml"); ("json", "json"); ("axios", "axios");
    ("enzyme", "enzyme"); ("jasmine", "jasmine"); ("karma-runner", "karma");
    ("casperjs", "casperjs"); ("versionone", "versionone"); ("bootstrap", "bootstrap");
    ("sass", "sass"); ("serverless", "serverless"); ("php", "php"); ("perl", "perl");
    ("ruby", "ruby"); ("javascript", "javascript"); ("typescript", "typescript");
    ("microsoft-typescript", "typescript"); ("mariadb", "mariadb");
    ("cassandra", "cassandra"); ("apache-cassandra", "cassandra");
    ("clickhouse", "clickhouse"); ("grafana", "grafana"); ("kibana", "kibana");
    ("superset", "superset"); ("d3", "d3"); ("mabl", "mabl"); ("playwright", "playwright");
    ("ios", "ios"); ("swift", "swift"); ("turning", "swift"); ("kotlin", "kotlin");
    ("solidworks", "solidworks"); ("sap", "sap"); ("forge", "forge");
    ("vast-data", "vast"); ("component", "react"); ("event-hub", "event hubs");
    ("azure-service-bus", "azure service bus"); ("azure-storage", "azure storage");
    ("azure-sql-database", "azure sql"); ("azure-synapse", "azure synapse");
    ("azure-synapse-analytics", "azure synapse");
    ("microsoft-azure-storage", "azure storage"); ("microsoft-power-apps", "power apps");
    ("power-bi", "power bi"); ("microsoft-dynamics-365-business-central", "dynamics 365");
    ("microsoft-power-platform", "power platform"); ("microsoft-azure", "azure");
    ("microsoft-azure-logic-apps", "azure logic apps"); ("azure-devops", "azure devops");
    ("dynamics-crm", "dynamics crm"); ("terraform", "terraform");
    ("powershell", "powershell"); ("aws-data-lake-storage", "aws data lake");
    ("google-cloud-storage", "google cloud storage");
    ("aws-codepipeline", "aws codepipeline"); ("spring-data", "spring data");
    ("spring-security", "spring security"); ("spring-cloud", "spring cloud");
    ("hibernate", "hibernate")
].

(** [slug_normalized.replace('-', ' ').replace('_', ' ')] *)
Definition fallback (slug_normalized : string) : string :=
  replace "_" " " (replace "-" " " slug_normalized).

(** The body of the loop [for slug in slugs] up to [mapped.add]: the name
    it computes for a string [slug], [None] where it says [continue]. *)
Definition canonical_of (slug : string) : option string :=
  if blank slug then None
  else
    let slug_normalized := lower (strip slug) in
    if blank slug_normalized then None
    else
      let canonical :=
        match TECHNOLOGY_SLUG_MAP !! slug_normalized with
        | Some c => if blank c then fallback slug_normalized else c
        | None => fallback slug_normalized
        end in
      Some (default canonical (SKILL_CANONICAL_MAP !! canonical)).

(** The whole body: [mapped.add(canonical)] unless the slug is skipped. *)
Definition map_slug (mapped : gset string) (slug : string) : gset string :=
  match canonical_of slug with
  | Some canonical => {[canonical]} ∪ mapped
  | None => mapped
  end.

(** The characters the fallback turns into spaces. *)
Definition separator (c : ascii) : bool :=
  Ascii.eqb c "-" || Ascii.eqb c "_".

Definition first_char (s : string) : option ascii :=
  match s with
  | EmptyString => None
  | String c _ => Some c
  end.

Fixpoint last_char (s : string) : option ascii :=
  match s with
  | EmptyString => None
  | String c EmptyString => Some c
  | String _ r => last_char r
  end.

(** The character at one end of a string, if any, does not satisfy [p]. *)
Definition clean (p : ascii -> bool) (c : option ascii) : bool :=
  negb (from_option p false c).

(** The normalised slug neither starts nor ends with a separator. *)
Definition separator_free_ends (slug : string) : bool :=
  let slug_normalized := lower (strip slug) in
  clean separator (first_char slug_normalized) &&
  clean separator (last_char slug_normalized).

(** What the fallback does to one character. *)
Definition fallback_char (c : ascii) : ascii :=
  if separator c then " "%char else c.

(** A second pass of the loop body maps the name [s] to itself. *)
Definition stable (s : string) : bool :=
  bool_decide (canonical_of s = Some s).

(** [map_technology_slugs(slugs)] at its declared type
    [Optional[List[str]]]. *)
Definition map_technology_slugs (slugs : option (list string)) : list string :=
  match slugs with
  | None => []
  | Some [] => []
  | Some l => sorted (foldl map_slug ∅ l)
  end.

(** The same loop on an untyped value, as [_map_job] calls it with what
    upstream sent: a falsy item is skipped, a truthy item that is not a
    string has no [strip] ([AttributeError]), a truthy value that cannot
    be iterated is a [TypeError]. *)
Fixpoint map_items (mapped : gset string) (items : list value)
  : exn + gset string :=
  match items with
  | [] => inr mapped
  | item :: rest =>
      if negb (truthy item) then map_items mapped rest
      else match item with
           | VStr slug => map_items (map_slug mapped slug) rest
           | _ => inl AttributeError
           end
  end.

Definition map_technology_slugs_dyn (slugs : value) : exn + list string :=
  if negb (truthy slugs) then inr []
  else match iter slugs with
       | None => inl TypeError
       | Some items =>
           match map_items ∅ items with
           | inl e => inl e
           | inr mapped => inr (sorted mapped)
           end
       end.


(** *** The predefined skills and [get_skill_categories] *)

Definition PROGRAMMING_LANGUAGES : gset string := list_to_set [
  "python"; "java"; "javascript"; "typescript"; "c++"; "cpp"; "c#"; "csharp"; "php";
  "ruby"; "go"; "rust"; "swift"; "kotlin"; "scala"; "r"; "matlab"; "sql"; "html";
  "css"; "bash"; "powershell"; "perl"; "lua"; "dart"; "objective-c"; "assembly";
  "cobol"; "fortran"; "haskell"; "clojure"; "erlang"; "elixir"; "f#"; "groovy";
  "julia"; "racket"; "scheme"
].

Definition FRAMEWORKS_LIBRARIES : gset string := list_to_set [
  "react"; "angular"; "vue"; "django"; "flask"; "fastapi"; "express"; "nodejs";
  "spring"; "laravel"; "rails"; "asp.net"; "aspnet"; ".net"; "dotnet"; "jquery";
  "bootstrap"; "tailwind"; "redux"; "vuex"; "rxjs"; "lodash"; "pandas"; "numpy";
  "tensorflow"; "pytorch"; "scikit-learn"; "keras"; "opencv"; "matplotlib";
  "seaborn"; "plotly"; "streamlit"; "gradio"; "hibernate"; "mybatis"; "spring boot";
  "next.js"; "nuxt.js"; "gatsby"; "svelte"; "ember"; "backbone"; "meteor";
  "electron"; "react native"; "flutter"; "xamarin"; "ionic"; "cordova"; "phonegap";
  "nestjs"; "axios"; "enzyme"; "jest"; "jasmine"; "karma"; "casperjs"; "cypress";
  "selenium"; "playwright"; "postman"; "pytest"; "junit"; "gradle"; "maven"; "sass";
  "serverless"; "celery"; "sidekiq"; "rabbitmq"; "kafka"; "phrase"; "greenhouse";
  "lever"; "confluence"; "jira"; "workday"; "versionone"; "solidworks"; "sap";
  "unity"; "databricks"; "delta lake"; "spark"; "superset"; "grafana"; "kibana";
  "d3"; "mabl"; "netsuite"; "forge"; "vast"
].

Definition DATABASES : gset string := list_to_set [
  "mysql"; "postgresql"; "mongodb"; "redis"; "elasticsearch"; "sqlite"; "oracle";
  "sql server"; "sqlserver"; "cassandra"; "dynamodb"; "firebase"; "couchdb";
  "neo4j"; "influxdb"; "clickhouse"; "snowflake"; "bigquery"; "redshift"; "hbase";
  "couchbase"; "riak"; "memcached"; "etcd"; "consul"; "vault"
].

Definition CLOUD_PLATFORMS : gset string := list_to_set [
  "aws"; "azure"; "gcp"; "google cloud"; "amazon web services"; "microsoft azure";
  "digitalocean"; "heroku"; "vercel"; "netlify"; "cloudflare"; "linode"; "vultr";
  "oracle cloud"; "ibm cloud"; "alibaba cloud"; "kubernetes"; "docker"; "openshift";
  "cloud foundry"; "serverless"; "lambda"; "cloud functions"; "azure functions";
  "api gateway"; "aws lambda"; "aws step functions"; "aws ecs"; "aws s3";
  "azure storage"; "azure sql"; "azure synapse"; "azure logic apps"; "azure devops";
  "azure service bus"; "event hubs"; "google cloud storage"; "aws data lake";
  "aws codepipeline"; "terraform"; "ansible"; "jenkins"; "github actions"; "gitlab ci"
].

Definition TOOLS_TECHNOLOGIES : gset string := list_to_set [
  "git"; "github"; "gitlab"; "bitbucket"; "jenkins"; "travis ci"; "circleci";
  "github actions"; "docker"; "kubernetes"; "terraform"; "ansible"; "puppet";
  "chef"; "vagrant"; "nginx"; "apache"; "tomcat"; "iis"; "load balancer"; "cdn";
  "api gateway"; "microservices"; "rest api"; "graphql"; "grpc"; "soap";
  "websockets"; "oauth"; "jwt"; "saml"; "ldap"; "active directory"; "ssl"; "tls";
  "vpn"; "firewall"; "load testing"; "performance testing"; "unit testing";
  "integration testing"; "e2e testing"; "selenium"; "cypress"; "jest"; "mocha";
  "jasmine"; "pytest"; "junit"; "testng"; "postman"; "insomnia"; "swagger";
  "openapi"; "jira"; "confluence"; "slack"; "teams"; "zoom"; "notion"; "trello";
  "asana"; "monday"; "linear"; "figma"; "sketch"; "adobe xd"; "invision"; "zeplin";
  "power bi"; "tableau"; "looker"; "grafana"; "kibana"; "superset"; "d3"; "mabl";
  "playwright"; "celery"; "sidekiq"; "rabbitmq"; "kafka"; "phrase"; "greenhouse";
  "lever"; "workday"; "versionone"; "solidworks"; "sap"; "unity"; "databricks";
  "delta lake"; "spark"; "netsuite"; "forge"; "vast"; "xml"; "json"; "sass";
  "bootstrap"; "serverless"; "ci/cd"; "gitlab ci"; "maven"; "gradle"; "npm"; "yarn";
  "webpack"; "babel"; "eslint"; "prettier"; "typescript"; "powershell"; "bash"
].

Definition SOFT_SKILLS : gset string := list_to_set [
  "leadership"; "communication"; "teamwork"; "problem solving"; "critical thinking";
  "creativity"; "adaptability"; "time management"; "project management"; "agile";
  "scrum"; "kanban"; "waterfall"; "devops"; "ci/cd"; "mentoring"; "coaching";
  "presentation"; "public speaking"; "writing"; "documentation"; "research";
  "analysis"; "strategy"; "planning"; "organization"; "collaboration";
  "negotiation"; "customer service"; "sales"; "marketing"; "business development";
  "product management"; "product owner"; "business analyst"; "data analysis";
  "data science"; "machine learning"; "artificial intelligence"; "deep learning";
  "natural language processing"; "computer vision"; "blockchain"; "cryptocurrency";
  "cybersecurity"; "information security"; "penetration testing"; "ethical hacking";
  "compliance"; "gdpr"; "hipaa"; "sox"; "pci dss"
].

Definition exclude_words : gset string := list_to_set [
  "experience"; "knowledge"; "skills"; "ability"; "strong"; "good"; "excellent";
  "years"; "year"; "work"; "working"; "team"; "development"; "software";
  "application"; "applications"; "system"; "systems"; "technology"; "technologies";
  "tool"; "tools"; "platform"; "platforms"; "service"; "services"; "solution";
  "solutions"; "product"; "products"; "project"; "projects"; "business"; "company";
  "client"; "customer"; "user"; "users"; "data"; "information"; "management";
  "manager"; "lead"; "senior"; "junior"; "entry"; "level"; "position"; "role";
  "job"; "career"; "opportunity"; "requirements"; "qualifications";
  "responsibilities"; "duties"; "tasks"; "environment"; "culture"; "benefits";
  "salary"; "compensation"; "location"; "remote"; "office"; "onsite"; "hybrid";
  "full"; "part"; "time"; "contract"; "permanent"; "temporary"; "internship";
  "graduate"; "degree"; "bachelor"; "master"; "phd"; "certification"; "certified";
  "preferred"; "required"; "must"; "should"; "will"; "can"; "able"; "plus"; "bonus";
  "nice"; "have"; "having"; "include"; "including"; "such"; "like"; "similar";
  "related"; "relevant"; "applicable"; "appropriate"; "suitable"; "ideal";
  "perfect"; "great"; "amazing"; "awesome"; "fantastic"; "wonderful"
].

(** [s in xs] for a set of strings *)
Definition member (s : string) (xs : gset string) : bool := bool_decide (s ∈ xs).

(** The keys of the dictionary [get_skill_categories] returns. *)
Inductive category : Type :=
  | ProgrammingLanguages
  | FrameworksLibraries
  | Databases
  | CloudPlatforms
  | ToolsTechnologies
  | SoftSkills
  | Other.

#[global] Instance category_eq_dec : EqDecision category.
Proof. solve_decision. Defined.

(** The dictionary itself: a list of skills under each key. *)
Record categories := mk_categories {
  programming_languages : list string;
  frameworks_libraries : list string;
  databases : list string;
  cloud_platforms : list string;
  tools_technologies : list string;
  soft_skills : list string;
  other : list string;
}.

(** [categories[key]] *)
Definition skills_under (key : category) (c : categories) : list string :=
  match key with
  | ProgrammingLanguages => programming_languages c
  | FrameworksLibraries => frameworks_libraries c
  | Databases => databases c
  | CloudPlatforms => cloud_platforms c
  | ToolsTechnologies => tools_technologies c
  | SoftSkills => soft_skills c
  | Other => other c
  end.

(** [categories[key].append(skill)] *)
Definition append_under (key : category) (skill : string) (c : categories)
  : categories :=
  let add := fun l : list string => (l ++ [skill])%list in
  match key with
  | ProgrammingLanguages =>
      mk_categories (add (programming_languages c)) (frameworks_libraries c)
        (databases c) (cloud_platforms c) (tools_technologies c) (soft_skills c) (other c)
  | FrameworksLibraries =>
      mk_categories (programming_languages c) (add (frameworks_libraries c))
        (databases c) (cloud_platforms c) (tools_technologies c) (soft_skills c) (other c)
  | Databases =>
      mk_categories (programming_languages c) (frameworks_libraries c)
        (add (databases c)) (cloud_platforms c) (tools_technologies c) (soft_skills c) (other c)
  | CloudPlatforms =>
      mk_categories (programming_languages c) (frameworks_libraries c)
        (databases c) (add (cloud_platforms c)) (tools_technologies c) (soft_skills c) (other c)
  | ToolsTechnologies =>
      mk_categories (programming_languages c) (frameworks_libraries c)
        (databases c) (cloud_platforms c) (add (tools_technologies c)) (soft_skills c) (other c)
  | SoftSkills =>
      mk_categories (programming_languages c) (frameworks_libraries c)
        (databases c) (cloud_platforms c) (tools_technologies c) (add (soft_skills c)) (other c)
  | Other =>
      mk_categories (programming_languages c) (frameworks_libraries c)
        (databases c) (cloud_platforms c) (tools_technologies c) (soft_skills c) (add (other c))
  end.

(** The chain of [if]/[elif] tests on the lower-cased skill: the first
    set that holds it names the key. *)
Definition category_of (skill : string) : category :=
  let skill_lower := lower skill in
  if member skill_lower PROGRAMMING_LANGUAGES then ProgrammingLanguages
  else if member skill_lower FRAMEWORKS_LIBRARIES then FrameworksLibraries
  else if member skill_lower DATABASES then Databases
  else if member skill_lower CLOUD_PLATFORMS then CloudPlatforms
  else if member skill_lower TOOLS_TECHNOLOGIES then ToolsTechnologies
  else if member skill_lower SOFT_SKILLS then SoftSkills
  else Other.

(** [get_skill_categories(skills)] *)
Definition get_skill_categories (skills : list string) : categories :=
  foldl (fun c skill => append_under (category_of skill) skill c)
    (mk_categories [] [] [] [] [] [] []) skills.

(** All the lists of the dictionary, one after the other. *)
Definition all_skills (c : categories) : list string :=
  (programming_languages c ++ frameworks_libraries c ++ databases c ++
   cloud_platforms c ++ tools_technologies c ++ soft_skills c ++ other c)%list.

(** In the words of the function: the tables in the order the chain of
    tests consults them, and the key of the first table that holds a
    name, [other] when none does. *)
Definition tables : list (category * gset string) :=
  [(ProgrammingLanguages, PROGRAMMING_LANGUAGES);
   (FrameworksLibraries, FRAMEWORKS_LIBRARIES);
   (Databases, DATABASES);
   (CloudPlatforms, CLOUD_PLATFORMS);
   (ToolsTechnologies, TOOLS_TECHNOLOGIES);
   (SoftSkills, SOFT_SKILLS)].

Definition first_table (name : string) : category :=
  match list_find (fun table => member name table.2 = true) tables with
  | Some (_, (key, _)) => key
  | None => Other
  end.

(** *** [_filter_skills] *)

(** [re.search(r'[a-zA-Z]', skill)] *)
Definition is_letter (c : ascii) : bool :=
  let n := nat_of_ascii c in
  (((65 <=? n) && (n <=? 90)) || ((97 <=? n) && (n <=? 122)))%nat.

Fixpoint has_letter (s : string) : bool :=
  match s with
  | EmptyString => false
  | String c r => is_letter c || has_letter r
  end.

(** [s.count(c)] for a character [c] *)
Fixpoint count_char (c : ascii) (s : string) : nat :=
  match s with
  | EmptyString => 0%nat
  | String c' r => ((if Ascii.eqb c' c then 1 else 0) + count_char c r)%nat
  end.

(** The body of the loop [for skill in skills]: the name appended to
    [filtered_skills], [None] where the loop says [continue]. *)
Definition filter_skill (skill : string) : option string :=
  let skill := strip skill in
  if blank skill || (String.length skill <? 2)%nat
     || member skill exclude_words then None
  else if negb (has_letter skill) then None
  else if (50 <? String.length skill)%nat then None
  else if (3 <? count_char " " skill)%nat then None
  else Some (default skill (SKILL_CANONICAL_MAP !! skill)).

(** [_filter_skills(skills)]: the loop over the set, then
    [sorted(list(set(filtered_skills)))]. *)
Definition _filter_skills (skills : gset string) : list string :=
  sorted (list_to_set (omap filter_skill (elements skills))).

End SkillExtractor.

(** ** The world the services run in *)
Module Runtime.
Import Py.

(** What [httpx] hands back for one POST: a response, or a
    [httpx.RequestError] (connection failure, timeout).  [json] is the
    parsed body, [None] when the body is not JSON. *)
Record response := mk_response {
  status_code : Z;
  text : string;
  json : option value;
}.

Inductive reply : Type :=
  | RequestError (msg : string)
  | Reply (r : response).

(** One entry of the list [get_role_required_skills] returns. *)
Record RequiredSkill := mk_required_skill {
  skill : value;
  technology_slug : value;
  count : Z;
  percentage : float;
  total_jobs : Z;
}.

(** [app.core.config.settings], the fields the pipeline reads. *)
Record Settings := mk_settings {
  their_stack_max_retries : nat;
  max_jobs_per_search : Z;
}.

(** The environment: the configuration, the upstream API (the reply to
    the [n]-th request sent, given its endpoint and JSON body), the clock
    (the value of the [n]-th call of [datetime.utcnow], in microseconds),
    and the library functions taken as given: pydantic's validation of the
    keyword arguments of [JobPosting(...)] (accepted as they are),
    [repr] of compound values, [datetime.fromisoformat], [round(x, 2)] and
    the text of a float in an f-string. *)
Record Env := mk_env {
  settings : Settings;
  transport : nat -> string -> gmap string value -> reply;
  clock : nat -> Z;
  validates : gmap string value -> bool;
  repr : value -> string;
  fromisoformat : string -> option Z;
  round2 : float -> float;
  float_str : float -> string;
}.

(** The operations the document store is asked to run. *)
Inductive db_op : Type :=
  | DbFindOne (key : string) (v : value)
  | DbInsert
  | DbSave (i : nat)
  | DbCount
  | DbFirst
  | DbAggregate.

(** The mutable state: the requests sent so far, the backoff waits
    (seconds), the number of clock reads, the [job_postings] collection
    (a document's position is its identity), the live entries of the
    module-level TTL cache of [gap_service], and two traces, oldest
    first: the operations run on the store and the arguments
    [upsert_job] has been called with. *)
Record world := mk_world {
  posts : list (string * gmap string value);
  slept : list Z;
  ticks : nat;
  store : list (gmap string value);
  cache : gmap string (list RequiredSkill);
  db_log : list db_op;
  upserts : list (gmap string value);
}.

Definition set_posts (f : list (string * gmap string value) -> list (string * gmap string value))
  (w : world) : world :=
  mk_world (f (posts w)) (slept w) (ticks w) (store w) (cache w) (db_log w) (upserts w).
Definition set_slept (f : list Z -> list Z) (w : world) : world :=
  mk_world (posts w) (f (slept w)) (ticks w) (store w) (cache w) (db_log w) (upserts w).
Definition set_ticks (f : nat -> nat) (w : world) : world :=
  mk_world (posts w) (slept w) (f (ticks w)) (store w) (cache w) (db_log w) (upserts w).
Definition set_store (f : list (gmap string value) -> list (gmap string value))
  (w : world) : world :=
  mk_world (posts w) (slept w) (ticks w) (f (store w)) (cache w) (db_log w) (upserts w).
Definition set_cache (f : gmap string (list RequiredSkill) -> gmap string (list RequiredSkill))
  (w : world) : world :=
  mk_world (posts w) (slept w) (ticks w) (store w) (f (cache w)) (db_log w) (upserts w).
Definition set_db_log (f : list db_op -> list db_op) (w : world) : world :=
  mk_world (posts w) (slept w) (ticks w) (store w) (cache w) (f (db_log w)) (upserts w).
Definition set_upserts (f : list (gmap string value) -> list (gmap string value))
  (w : world) : world :=
  mk_world (posts w) (slept w) (ticks w) (store w) (cache w) (db_log w) (f (upserts w)).

(** A computation: from a world to a returned value or a raised
    exception, with the world it leaves; [None] when a loop was cut off
    by its iteration budget. *)
Definition M (A : Type) : Type := world -> option ((exn + A) * world).

Definition ret {A} (a : A) : M A := fun w => Some (inr a, w).
Definition raise {A} (e : exn) : M A := fun w => Some (inl e, w).
Definition cut_off {A} : M A := fun _ => None.

Definition bind {A B} (m : M A) (k : A -> M B) : M B :=
  fun w =>
    match m w with
    | None => None
    | Some (inl e, w') => Some (inl e, w')
    | Some (inr a, w') => k a w'
    end.

(** [try: m except Exception as e: h e] *)
Definition try_except {A} (m : M A) (h : exn -> M A) : M A :=
  fun w =>
    match m w with
    | None => None
    | Some (inl e, w') => h e w'
    | Some (inr a, w') => Some (inr a, w')
    end.

(** [try: m] with the outcome made a value. *)
Definition attempt {A} (m : M A) : M (exn + A) :=
  fun w =>
    match m w with
    | None => None
    | Some (r, w') => Some (inr r, w')
    end.

Definition lift {A} (r : exn + A) : M A :=
  match r with inl e => raise e | inr a => ret a end.

#[global] Instance M_ret : MRet M := @ret.
#[global] Instance M_bind : MBind M := fun A B k m => bind m k.

Definition get_world : M world := fun w => Some (inr w, w).
Definition modify (f : world -> world) : M unit := fun w => Some (inr tt, f w).

(** What a run has returned or raised, and what it shows of the world
    it leaves. *)
Definition outcome_of {A} (r : option ((exn + A) * world)) : option (exn + A) :=
  fst <$> r.

Definition observe {A B} (f : world -> B) (r : option ((exn + A) * world))
  : option B :=
  (fun x => f x.2) <$> r.

(** [m] always ends: it returns or raises, whatever the world. *)
Definition ends {A} (m : M A) : Prop :=
  forall w, exists r w', m w = Some (r, w').

(** A relation between the world before and after every run of [m]. *)
Definition always_leaves {A} (R : relation world) (m : M A) : Prop :=
  forall w r w', m w = Some (r, w') -> R w w'.

(** The store, the trace of its operations and the trace of upserts stay
    as they are. *)
Definition keeps_store : relation world :=
  fun w w' => store w' = store w /\ upserts w' = upserts w /\ db_log w' = db_log w.

(** The trace of upserts stays as it is. *)
Definition keeps_upserts : relation world :=
  fun w w' => upserts w' = upserts w.

(** The trace of upserts grows by the postings that satisfy [P] only. *)
Definition upserts_grow_by (P : gmap string value -> Prop) : relation world :=
  fun w w' => exists l, upserts w' = (upserts w ++ l)%list /\ Forall P l.

(** The requests sent stay as they are. *)
Definition keeps_posts : relation world :=
  fun w w' => posts w' = posts w.

(** The requests sent grow by requests that satisfy [P] only. *)
Definition posts_grow_by (P : string * gmap string value -> Prop) : relation world :=
  fun w w' => exists l, posts w' = (posts w ++ l)%list /\ Forall P l.

(** [datetime.utcnow()] *)
Definition utcnow (env : Env) : M Z :=
  fun w => Some (inr (clock env (ticks w)), set_ticks S w).

(** A request to the document store, noted in the trace. *)
Definition db (op : db_op) : M unit :=
  modify (set_db_log (fun l => (l ++ [op])%list)).

(** The length of [d] days in microseconds. *)
Definition timedelta_days (d : Z) : Z := d * 86400000000.

(** [datetime.min] and [datetime.max], in microseconds since 1970: the
    first instant of year 1 and the last of year 9999. *)
Definition datetime_min : Z := -62135596800000000.
Definition datetime_max : Z := 253402300799999999.

(** [timedelta(days=d)]: an [OverflowError] beyond 999999999 days. *)
Definition timedelta (d : Z) : exn + Z :=
  if Z.leb (Z.abs d) 999999999 then inr (timedelta_days d) else inl OverflowError.

(** [t - delta] for a [datetime] and a [timedelta]: an [OverflowError]
    when the result is not a date from year 1 to year 9999. *)
Definition datetime_sub (t delta : Z) : exn + Z :=
  let result := t - delta in
  if Z.leb datetime_min result && Z.leb result datetime_max
  then inr result else inl OverflowError.

(** [now - timedelta(days=d)], the subtraction the services make with a
    number of days they are given.  (Where the number is the constant
    1 or 7 and [now] a reading of the clock, no such error can arise
    and the difference is written [now - timedelta_days d].) *)
Definition days_before (now d : Z) : exn + Z :=
  match timedelta d with
  | inl e => inl e
  | inr delta => datetime_sub now delta
  end.

End Runtime.

(** ** models/job_posting.py: [JobPosting.upsert_job] *)
Module JobPosting.
Import Py Runtime.

(** The fields of the document class. *)
Definition field_names : list string :=
  ["title"; "company"; "location"; "description"; "skills"; "url";
   "search_keywords"; "search_location"; "scraped_at"; "updated_at";
   "job_id"; "date_posted"; "min_annual_salary_usd"; "max_annual_salary_usd";
   "remote"; "technology_slugs"; "company_domain"; "coordinates"].

Definition is_field (k : string) : bool :=
  existsb (String.eqb k) field_names.

(** The fields that have a default, [default_factory] ones apart. *)
Definition static_defaults : gmap string value := dict_literal [
  ("skills", VList []); ("job_id", VNone); ("date_posted", VNone);
  ("min_annual_salary_usd", VNone); ("max_annual_salary_usd", VNone);
  ("remote", VNone); ("technology_slugs", VList []);
  ("company_domain", VNone); ("coordinates", VNone)
].

(** A field with [default_factory=datetime.utcnow]: the clock is read
    only when the keyword argument is missing. *)
Definition with_utcnow_default (env : Env) (k : string)
    (d : gmap string value) : M (gmap string value) :=
  match d !! k with
  | Some _ => mret d
  | None => now ← utcnow env; mret (<[k := VTime now]> d)
  end.

(** [new_job = cls(...)] on the unpacked [job_data]: pydantic validates the keyword arguments, drops
    those that are not fields and fills in the defaults. *)
Definition new (env : Env) (job_data : gmap string value)
  : M (gmap string value) :=
  if validates env job_data then
    let given := filter (fun kv => is_field kv.1 = true) job_data in
    d ← with_utcnow_default env "scraped_at" given;
    d ← with_utcnow_default env "updated_at" d;
    mret (d ∪ static_defaults)
  else raise ValidationError.

(** [cls.find_one({key: v})]: the first document whose field equals
    [v], as the driver encodes it. *)
Definition find_one (key : string) (v : value) : M (option (nat * gmap string value)) :=
  db (DbFindOne key v);;
  w ← get_world;
  mret (list_find (fun d => value_eqb (mget d key) (bson v) = true) (store w)).

(** [new_job.insert()]: the store takes the encoded document, the
    caller keeps the object as it is.  (A write that breaks a unique
    index of the collection is refused by the database; that error is
    outside the model.) *)
Definition insert (d : gmap string value) : M (nat * gmap string value) :=
  db DbInsert;;
  w ← get_world;
  modify (set_store (fun st => (st ++ [bson_doc d])%list));;
  mret (length (store w), d).

(** [existing_job.save()] for the document stored at position [i]: the
    store takes the encoded document.  (As for [insert], the refusal of
    a write that breaks a unique index is outside the model.) *)
Definition save (i : nat) (d : gmap string value) : M unit :=
  db (DbSave i);;
  modify (set_store (fun st => <[i := bson_doc d]> st)).

(** The loop [for key, value in job_data.items()]: every key but
    [scraped_at] is assigned; assigning a key that is not a field of the
    model raises (pydantic's [__setattr__]). *)
Definition setattrs (existing : gmap string value) (job_data : gmap string value)
  : M (gmap string value) :=
  let assigned := delete "scraped_at" job_data in
  if forallb (fun kv => is_field kv.1) (map_to_list assigned)
  then mret (assigned ∪ existing)
  else raise (ValueError "object has no field").

(** In the words of the specification: the existing posting is looked
    up by [job_id] first, then by [url] if no [job_id] matched (the
    store compares with the identifier as encoded). *)
Definition existing_for (job_data : gmap string value)
    (docs : list (gmap string value)) : option (nat * gmap string value) :=
  let by_job_id :=
    if truthy (mget job_data "job_id")
    then list_find
           (fun d => value_eqb (mget d "job_id") (bson (mget job_data "job_id")) = true) docs
    else None in
  match by_job_id with
  | Some found => Some found
  | None =>
      if truthy (mget job_data "url")
      then list_find
             (fun d => value_eqb (mget d "url") (bson (mget job_data "url")) = true) docs
      else None
  end.

Definition upsert_job (env : Env) (job_data : gmap string value)
  : M (nat * gmap string value) :=
  modify (set_upserts (fun l => (l ++ [job_data])%list));;
  now ← utcnow env;
  let job_data := <["updated_at" := VTime now]> job_data in
  let job_id := mget job_data "job_id" in
  let url := mget job_data "url" in
  existing_job ←
    (if truthy job_id then find_one "job_id" job_id else mret None);
  existing_job ←
    (match existing_job with
     | None => if truthy url then find_one "url" url else mret None
     | Some _ => mret existing_job
     end);
  match existing_job with
  | Some (i, existing) =>
      updated ← setattrs existing job_data;
      save i updated;;
      mret (i, updated)
  | None =>
      new_job ← new env job_data;
      insert new_job
  end.

(** No two stored documents share a [job_id] that is a string and not
    empty. *)
Definition unique_job_ids (docs : list (gmap string value)) : Prop :=
  forall a b da db s,
    docs !! a = Some da -> docs !! b = Some db -> s <> "" ->
    mget da "job_id" = VStr s -> mget db "job_id" = VStr s -> a = b.

(** A field of the document a run has returned. *)
Definition returned_field (k : string)
    (r : option ((exn + nat * gmap string value) * world)) : option value :=
  match r with
  | Some (inr (_, d), _) => d !! k
  | _ => None
  end.

End JobPosting.

(** ** services/theirstack_client.py: [TheirStackClient] *)
Module TheirStackClient.
Import Py Runtime.

Definition date_filter_keys : list string :=
  ["posted_at_max_age_days"; "posted_at_gte"; "posted_at_lte"].

Definition _validate_payload (payload : gmap string value) : M unit :=
  if Nat.eqb (size payload) 0 then
    raise (ValueError "Payload must not be empty")
  else
    let has_date_filter :=
      existsb
        (fun key =>
           match payload !! key with
           | Some v => negb (is_none v)
           | None => false
           end)
        date_filter_keys in
    if negb has_date_filter then
      raise (ValueError
        "Payload must include one of posted_at_max_age_days or posted_at_gte/lte")
    else mret tt.

(** [response = await client.post(endpoint, json=json)]: the request is
    sent and answered by the transport. *)
Definition post (env : Env) (endpoint : string) (body : gmap string value)
  : M reply :=
  w ← get_world;
  modify (set_posts (fun l => (l ++ [(endpoint, body)])%list));;
  mret (transport env (length (posts w)) endpoint body).

(** What [_post_with_retry] makes of the outcome of the request: the
    response, or the exception its status (or the failed request) is
    turned into. *)
Definition check_status (r : reply) : exn + response :=
  match r with
  | RequestError msg => inl (TheirStackRetryableError msg)
  | Reply response =>
      let status := status_code response in
      if Z.eqb status 401 || Z.eqb status 403 then
        inl (TheirStackAuthenticationError (text response))
      else if Z.eqb status 429 || (Z.leb 500 status && Z.ltb status 600) then
        inl (TheirStackRetryableError (text response))
      else if Z.leb 400 status && Z.ltb status 500 then
        inl (TheirStackClientError
               ("Client error " +:+ pretty status +:+ ": " +:+ text response))
      else inr response
  end.

(** The body of [_post_with_retry], one attempt. *)
Definition post_attempt (env : Env) (endpoint : string)
    (body : gmap string value) : M response :=
  r ← post env endpoint body;
  lift (check_status r).

(** [retry_if_exception_type(TheirStackRetryableError)] *)
Definition is_retryable (e : exn) : bool :=
  match e with TheirStackRetryableError _ => true | _ => false end.

(** [stop_after_attempt(n)]: stop once the attempt number has reached [n]. *)
Definition stop_after_attempt (n attempt_number : nat) : bool :=
  (n <=? attempt_number)%nat.

(** [wait_exponential(multiplier=1, min=1, max=10)], in seconds, after
    the attempt [attempt_number] (counted from 1) has failed. *)
Definition wait_exponential (attempt_number : nat) : Z :=
  let exp := 2 ^ (Z.of_nat attempt_number - 1) in
  let result := 1 * exp in
  Z.max (Z.max 0 1) (Z.min result 10).

Definition sleep (seconds : Z) : M unit :=
  modify (set_slept (fun l => (l ++ [seconds])%list)).

(** The loop of tenacity's [@retry(reraise=True, stop=..., wait=...,
    retry=...)] around one attempt [fn]: an exception that is not
    retryable, or a retryable one at the last attempt, is raised as it
    is; otherwise the loop sleeps and tries again. *)
Fixpoint retrying {A} (budget : nat) (stop_n : nat) (fn : M A)
    (attempt_number : nat) : M A :=
  match budget with
  | O => cut_off
  | S budget' =>
      outcome ← attempt fn;
      match outcome with
      | inr result => mret result
      | inl e =>
          if negb (is_retryable e) then raise e
          else if stop_after_attempt stop_n attempt_number then raise e
          else
            sleep (wait_exponential attempt_number);;
            retrying budget' stop_n fn (S attempt_number)
      end
  end.

(** [_post_with_retry]: the decorator reads the number of attempts from
    [settings.their_stack_max_retries]; the loop makes at most that many
    attempts (one when the setting is below one), which bounds it. *)
Definition _post_with_retry (env : Env) (endpoint : string)
    (body : gmap string value) : M response :=
  let n := their_stack_max_retries (settings env) in
  retrying (Nat.max 1 n) n (post_attempt env endpoint body) 1.

(** The pagination defaults [search_jobs] puts in the payload. *)
Definition with_defaults (env : Env) (payload : gmap string value)
  : gmap string value :=
  let payload :=
    if negb (bool_decide (is_Some (payload !! "page"))) &&
       negb (bool_decide (is_Some (payload !! "offset")))
    then setdefault "page" (VInt 1) payload
    else payload in
  setdefault "limit" (VInt (max_jobs_per_search (settings env))) payload.

(** [search_jobs(payload)].  The payload is changed in place; the request
    that is sent carries the changed payload. *)
Definition search_jobs (env : Env) (payload : gmap string value) : M value :=
  _validate_payload payload;;
  let payload := with_defaults env payload in
  response ←
    try_except (_post_with_retry env "/v1/jobs/search" payload)
      (fun exc =>
         match exc with
         | TheirStackAuthenticationError _ =>
             raise (TheirStackAuthenticationError
                      "Failed to authenticate with TheirStack API")
         | _ => raise exc
         end);
  match json response with
  | None => raise (TheirStackClientError "Invalid JSON response from TheirStack")
  | Some data => mret data
  end.


(** In words: one of the temporal keys is bound to a value that is not
    [None]. *)
Definition has_temporal_filter (payload : gmap string value) : Prop :=
  exists key v, key ∈ date_filter_keys /\ payload !! key = Some v /\ v <> VNone.

End TheirStackClient.

(** ** services/job_collection_service.py: [JobCollectionService] *)
Module JobCollectionService.
Import Py Runtime.

(** The titles [_generate_role_variations] adds for the first family the
    lower-cased role falls in. *)
Definition family_variations (role_lower : string) : list string :=
  let has := fun sub => contains sub role_lower in
  if has "aws" && has "architect" then
    ["AWS Solutions Architect"; "AWS Architect"; "AWS Cloud Architect";
     "Cloud Solutions Architect"; "Cloud Architect"; "Solutions Architect";
     "AWS Certified Solutions Architect"]
  else if has "solutions architect" then
    ["Solutions Architect"; "Cloud Solutions Architect"; "Cloud Architect";
     "Technical Architect"]
  else if has "backend" then
    ["Backend"; "Back-end Developer"; "Back end Developer"; "Backend Engineer";
     "Server-side Developer"]
  else if has "frontend" || has "front-end" then
    ["Frontend"; "Front-end Developer"; "Front end Developer";
     "Frontend Engineer"; "UI Developer"]
  else if has "full stack" || has "fullstack" || has "full-stack" then
    ["Full Stack"; "Fullstack Developer"; "Full-stack Developer";
     "Full Stack Engineer"; "Fullstack Engineer"]
  else if has "software engineer" then
    ["Software Developer"; "SDE"; "Software Engineer"; "Engineer"; "Developer"]
  else if has "data engineer" then
    ["Data Engineer"; "Big Data Engineer"; "ETL Developer";
     "Data Pipeline Engineer"]
  else if has "devops" then
    ["DevOps"; "DevOps Engineer"; "SRE"; "Site Reliability Engineer";
     "Platform Engineer"]
  else if has "mobile" then
    ["Mobile Developer"; "Mobile Engineer"; "iOS Developer";
     "Android Developer"; "Mobile App Developer"]
  else if has "ai engineer" || has "ml engineer" || has "machine learning" then
    ["AI Engineer"; "ML Engineer"; "Machine Learning Engineer";
     "AI/ML Engineer"; "Artificial Intelligence Engineer"]
  else if has "data scientist" then
    ["Data Scientist"; "ML Scientist"; "Research Scientist"]
  else if has "cloud engineer" then
    ["Cloud Engineer"; "Cloud Architect"; "Cloud Developer"]
  else if has "qa" || has "test" || has "quality" then
    ["QA Engineer"; "Test Engineer"; "QA Automation Engineer"; "SDET";
     "Quality Engineer"]
  else if has "product manager" then
    ["Product Manager"; "PM"; "Product Owner"; "Technical Product Manager"]
  else if has "security" then
    ["Security Engineer"; "Cybersecurity Engineer"; "InfoSec Engineer";
     "Security Analyst"]
  else [].

(** The loop that drops repeats, compared lower-cased and stripped, and
    keeps the first spelling seen. *)
Fixpoint unique_variations (seen : gset string) (variations : list string)
  : list string :=
  match variations with
  | [] => []
  | var :: rest =>
      let var_normalized := strip (lower var) in
      if negb (blank var_normalized) && negb (bool_decide (var_normalized ∈ seen))
      then var :: unique_variations ({[var_normalized]} ∪ seen) rest
      else unique_variations seen rest
  end.

Definition _generate_role_variations (role : string) : list string :=
  let variations := (role :: family_variations (lower role))%list in
  unique_variations ∅ variations.

(** [_should_skip_job(role, job_title)] with the title as upstream sent
    it: a truthy title that is not a string has no [lower]. *)
Definition _should_skip_job (role : string) (job_title : value) : M bool :=
  if negb (truthy job_title) then mret false
  else
    match job_title with
    | VStr job_title =>
        let role_lower := lower role in
        let title_lower := lower job_title in
        if contains "react" role_lower && negb (contains "native" role_lower)
           && contains "react native" title_lower
        then mret true
        else mret false
    | _ => raise AttributeError
    end.

(** The country code a location adds to [job_country_code_or], if any. *)
Definition country_code (loc : string) : option string :=
  let loc_lower := lower loc in
  let has := fun sub => contains sub loc_lower in
  if has "united states" then Some "US"
  else if has "india" then Some "IN"
  else if has "united kingdom" || has "uk" then Some "GB"
  else if has "canada" then Some "CA"
  else if has "germany" then Some "DE"
  else if has "australia" then Some "AU"
  else if has "singapore" then Some "SG"
  else if has "japan" then Some "JP"
  else if has "hong kong" then Some "HK"
  else if has "switzerland" then Some "CH"
  else if has "france" then Some "FR"
  else if has "netherlands" then Some "NL"
  else if has "ireland" then Some "IE"
  else if has "sweden" then Some "SE"
  else None.

Definition strs (l : list string) : value := VList (VStr <$> l).

(** The search payload of one page. *)
Definition build_payload (role_label : string) (normalized_locations : list string)
    (max_age_days page page_limit : Z) : gmap string value :=
  let role_variations := _generate_role_variations role_label in
  let payload : gmap string value := dict_literal [
    ("job_title_or", strs role_variations);
    ("posted_at_max_age_days", VInt max_age_days);
    ("page", VInt page);
    ("limit", VInt page_limit)
  ] in
  match normalized_locations with
  | [] => payload
  | _ =>
      let payload := <["job_location_pattern_or" := strs normalized_locations]> payload in
      let country_codes := omap country_code normalized_locations in
      match country_codes with
      | [] => payload
      | _ => <["job_country_code_or" := strs country_codes]> payload
      end
  end.

(** [x.get] on a value that may not be a dict. *)
Definition as_dict (v : value) : M (list (string * value)) :=
  match v with
  | VDict d => mret d
  | _ => raise AttributeError
  end.

(** The items [_map_job] keeps of the [locations] list. *)
Fixpoint locations_of (locations : list value) : list value :=
  match locations with
  | [] => []
  | loc :: rest =>
      if negb (truthy loc) then locations_of rest
      else
        match loc with
        | VStr _ => loc :: locations_of rest
        | VDict d =>
            let name :=
              or_else (or_else (or_else (get d "name") (get d "city"))
                         (get d "state")) (get d "country") in
            if truthy name then name :: locations_of rest
            else locations_of rest
        | _ => locations_of rest
        end
  end.

(** The dictionary [mapped_job] that [_map_job] builds from the fields
    [job] of an upstream posting. *)
Definition map_fields (env : Env) (role search_location_label : string)
    (job : list (string * value)) : M (gmap string value) :=
      let description :=
        or_else (or_else (get job "description") (get job "job_description"))
          (VStr "") in
      let technology_slugs := or_else (get job "technology_slugs") (VList []) in
      skills ← lift (SkillExtractor.map_technology_slugs_dyn technology_slugs);
      let company_obj := or_else (get job "company_object") (VDict []) in
      let locations := or_else (get job "locations") (VList []) in
      let locations_list :=
        match locations with
        | VStr _ => [locations]
        | VList l => locations_of l
        | _ => []
        end in
      let location_label :=
        join ", " (str (repr env) <$> filter (fun item => truthy item = true) locations_list) in
      let date_posted := or_else (get job "posted_at") (get job "date_posted") in
      let date_posted :=
        match date_posted with
        | VStr s =>
            match fromisoformat env (replace "Z" "+00:00" s) with
            | Some t => VTime t
            | None => VNone
            end
        | VTime _ => date_posted
        | _ => VNone
        end in
      let coordinates := or_else (get job "coordinates") (get job "geo") in
      let job_id_raw := or_else (get job "job_id") (get job "id") in
      let job_id_str :=
        if is_none job_id_raw then VNone else VStr (str (repr env) job_id_raw) in
      company ← as_dict company_obj;
      now ← utcnow env;
      let mapped_job : gmap string value := dict_literal [
        ("job_id", job_id_str);
        ("title", or_else (or_else (get job "job_title") (get job "title")) (VStr role));
        ("company", or_else (or_else (get company "name") (get job "company"))
                      (VStr "Unknown Company"));
        ("company_domain", or_else (get company "domain") (get job "company_domain"));
        ("location", or_else (VStr location_label)
                       (get_or job "location" (VStr "Unknown")));
        ("description", description);
        ("skills", strs skills);
        ("url", or_else (or_else (get job "job_url") (get job "url"))
                  (get job "detail_url"));
        ("date_posted", date_posted);
        ("min_annual_salary_usd",
           or_else (get job "min_annual_salary_usd") (get job "salary_min_annual_usd"));
        ("max_annual_salary_usd",
           or_else (get job "max_annual_salary_usd") (get job "salary_max_annual_usd"));
        ("remote", get job "remote");
        ("technology_slugs", technology_slugs);
        ("search_keywords", VStr role);
        ("search_location", VStr search_location_label);
        ("coordinates", coordinates);
        ("scraped_at", VTime now)
      ] in
      mret mapped_job.

(** A mapped posting has an identifier when its [url] or its [job_id]
    is truthy. *)
Definition identifiable (mapped_job : gmap string value) : bool :=
  truthy (mget mapped_job "url") || truthy (mget mapped_job "job_id").

Definition _map_job (env : Env) (role search_location_label : string)
    (job : value) : M (option (gmap string value)) :=
  match job with
  | VDict job =>
      mapped_job ← map_fields env role search_location_label job;
      if negb (truthy (mget mapped_job "url")) && negb (truthy (mget mapped_job "job_id"))
      then mret None
      else mret (Some mapped_job)
  | _ => mret None
  end.


(** The counters of one role's collection. *)
Record progress := mk_progress {
  total_collected : Z;
  total_pages : Z;
  total_credits_used : Z;
  page : Z;
}.

(** The body of [for job in data] for one job: the new value of
    [total_collected], and whether the loop breaks. *)
Definition process_job (env : Env) (role_label search_location_label : string)
    (per_role_limit : Z) (job : value) (total_collected : Z) : M (Z * bool) :=
  fields ← as_dict job;
  let job_title := or_else (get fields "job_title") (get fields "title") in
  skip ← _should_skip_job role_label job_title;
  if (skip : bool) then mret (total_collected, false)
  else
    mapped ← _map_job env role_label search_location_label job;
    match mapped with
    | None => mret (total_collected, false)
    | Some mapped =>
        outcome ← attempt (JobPosting.upsert_job env mapped);
        let total_collected :=
          match outcome with
          | inr _ => total_collected + 1
          | inl _ => total_collected
          end in
        mret (total_collected, Z.geb total_collected per_role_limit)
    end.

Fixpoint job_loop (env : Env) (role_label search_location_label : string)
    (per_role_limit : Z) (data : list value) (total_collected : Z) : M Z :=
  match data with
  | [] => mret total_collected
  | job :: rest =>
      r ← process_job env role_label search_location_label per_role_limit
            job total_collected;
      if (r.2 : bool) then mret r.1
      else job_loop env role_label search_location_label per_role_limit rest r.1
  end.

(** The right operand of [total_credits_used += ...] must be a number. *)
Definition number (v : value) : M Z :=
  match v with
  | VInt n => mret n
  | VBool b => mret (if b then 1 else 0)
  | _ => raise TypeError
  end.

Definition iterate (v : value) : M (list value) :=
  match iter v with
  | Some items => mret items
  | None => raise TypeError
  end.

(** [has_more is False] *)
Definition is_False (v : value) : bool :=
  match v with VBool false => true | _ => false end.

(** [response.get("data", [])] and [response.get("metadata", {})], each
    guarded by [isinstance(response, dict)]. *)
Definition data_of (response : value) : value :=
  match response with
  | VDict r => get_or r "data" (VList [])
  | _ => VList []
  end.

Definition metadata_of (response : value) : value :=
  match response with
  | VDict r => get_or r "metadata" (VDict [])
  | _ => VDict []
  end.

(** [metadata.get("has_more")] *)
Definition has_more_of (response : value) : value :=
  match metadata_of response with
  | VDict md => get md "has_more"
  | _ => VNone
  end.

(** The pages asked for, in the order of the requests. *)
Definition requested_pages (w : world) : list (option value) :=
  (fun p => p.2 !! "page") <$> posts w.

(** One pass through the body of [while total_collected < per_role_limit]:
    the counters it leaves, and whether the loop goes on to another pass
    ([true]) or breaks ([false]). *)
Definition page_iteration (env : Env) (role_label search_location_label : string)
    (normalized_locations : list string) (max_age_days per_role_limit per_page_limit : Z)
    (st : progress) : M (progress * bool) :=
  let remaining := per_role_limit - total_collected st in
  let page_limit := Z.max 1 (Z.min per_page_limit remaining) in
  let payload :=
    build_payload role_label normalized_locations max_age_days (page st) page_limit in
  outcome ← attempt (TheirStackClient.search_jobs env payload);
  match outcome with
  | inl _ => mret (st, false)
  | inr response =>
      let data := data_of response in
      let metadata := metadata_of response in
      if negb (truthy data) then mret (st, false)
      else
        let pages := total_pages st + 1 in
        md ← as_dict metadata;
        let credits_used :=
          or_else (or_else (get md "credits_used") (get md "credits_consumed"))
            (VInt 0) in
        let estimated_credits :=
          or_else (or_else (get md "estimated_credits") (get md "credits_estimated"))
            (VInt 0) in
        credits ← number (or_else credits_used estimated_credits);
        let credits_total := total_credits_used st + credits in
        jobs ← iterate data;
        collected ← job_loop env role_label search_location_label per_role_limit
                      jobs (total_collected st);
        let has_more := get md "has_more" in
        if Z.geb collected per_role_limit then
          mret (mk_progress collected pages credits_total (page st), false)
        else if is_False has_more then
          mret (mk_progress collected pages credits_total (page st), false)
        else
          mret (mk_progress collected pages credits_total (page st + 1), true)
  end.

(** The [while] loop of one role.  It has no bound of its own: [budget]
    caps the number of passes. *)
Fixpoint page_loop (budget : nat) (env : Env)
    (role_label search_location_label : string)
    (normalized_locations : list string) (max_age_days per_role_limit per_page_limit : Z)
    (st : progress) : M progress :=
  if negb (Z.ltb (total_collected st) per_role_limit) then mret st
  else
    match budget with
    | O => cut_off
    | S budget' =>
        r ← page_iteration env role_label search_location_label
              normalized_locations max_age_days per_role_limit per_page_limit st;
        if (r.2 : bool) then
          page_loop budget' env role_label search_location_label
            normalized_locations max_age_days per_role_limit per_page_limit r.1
        else mret r.1
    end.

(** One entry of the summary [collect_jobs_for_roles] returns. *)
Record RoleSummary := mk_summary {
  jobs_collected : Z;
  pages_fetched : Z;
  credits_tracked : Z;
}.

(** The body of [for role in roles]. *)
Definition collect_role (budget : nat) (env : Env)
    (search_location_label : string) (normalized_locations : list string)
    (max_age_days per_role_limit : Z)
    (summary : gmap string RoleSummary) (role : string)
  : M (gmap string RoleSummary) :=
  let role_label := strip role in
  if blank role_label then mret summary
  else
    let per_page_limit :=
      Z.max 1 (Z.min (max_jobs_per_search (settings env)) per_role_limit) in
    st ← page_loop budget env role_label search_location_label
           normalized_locations max_age_days per_role_limit per_page_limit
           (mk_progress 0 0 0 1);
    mret (<[role_label :=
              mk_summary (total_collected st) (total_pages st) (total_credits_used st)]>
            summary).

Fixpoint role_loop (budget : nat) (env : Env)
    (search_location_label : string) (normalized_locations : list string)
    (max_age_days per_role_limit : Z)
    (summary : gmap string RoleSummary) (roles : list string)
  : M (gmap string RoleSummary) :=
  match roles with
  | [] => mret summary
  | role :: rest =>
      summary ← collect_role budget env search_location_label
                  normalized_locations max_age_days per_role_limit summary role;
      role_loop budget env search_location_label normalized_locations
        max_age_days per_role_limit summary rest
  end.

(** [collect_jobs_for_roles(roles, locations, max_age_days, per_role_limit)];
    [locations] may be [None]. *)
Definition collect_jobs_for_roles (budget : nat) (env : Env)
    (roles : list string) (locations : option (list string))
    (max_age_days per_role_limit : Z) : M (gmap string RoleSummary) :=
  match roles with
  | [] => mret ∅
  | _ =>
      let normalized_locations :=
        strip <$> filter (fun loc => negb (blank loc) && negb (blank (strip loc)) = true)
                    (default [] locations) in
      let search_location_label := join "," normalized_locations in
      role_loop budget env search_location_label normalized_locations
        max_age_days per_role_limit ∅ roles
  end.

(** *** Words for the properties of a collection run *)

(** The form under which two role variations count as the same. *)
Definition variation_key (var : string) : string := strip (lower var).

(** What one request of a collection run looks like: it goes to the
    search endpoint, for a bounded number of postings no older than
    asked, from a page numbered from 1, with the variations of a role as
    titles. *)
Definition collection_request (env : Env) (age : Z)
    (p : string * gmap string value) : Prop :=
  p.1 = "/v1/jobs/search" /\
  (exists n, p.2 !! "limit" = Some (VInt n) /\
             1 <= n <= Z.max 1 (max_jobs_per_search (settings env))) /\
  (exists page, p.2 !! "page" = Some (VInt page) /\ 1 <= page) /\
  p.2 !! "posted_at_max_age_days" = Some (VInt age) /\
  (exists role, p.2 !! "job_title_or" = Some (strs (_generate_role_variations role))).

(** An entry of a summary whose counts are within the limit. *)
Definition within_limit (limit : Z) (s : RoleSummary) : Prop :=
  0 <= jobs_collected s <= Z.max 0 limit /\ 0 <= pages_fetched s.

(** The keys of the dictionary [_map_job] builds. *)
Definition mapped_keys : list string :=
  ["job_id"; "title"; "company"; "company_domain"; "location"; "description";
   "skills"; "url"; "date_posted"; "min_annual_salary_usd"; "max_annual_salary_usd";
   "remote"; "technology_slugs"; "search_keywords"; "search_location";
   "coordinates"; "scraped_at"].

(** The test of [_should_skip_job] on two strings. *)
Definition react_native_for_web (role title : string) : bool :=
  contains "react" (lower role) && negb (contains "native" (lower role))
  && contains "react native" (lower title).

(** A posting as a collection run for [roles] hands it to [upsert_job]:
    it is filed under one of the roles, stripped, and its title is not a
    React Native one when that role asks for React without Native. *)
Definition filed_under (roles : list string) (p : gmap string value) : Prop :=
  exists role,
    role ∈ roles /\ strip role <> "" /\
    p !! "search_keywords" = Some (VStr (strip role)) /\
    forall title, p !! "title" = Some (VStr title) ->
      react_native_for_web (strip role) title = false.

End JobCollectionService.

(** ** services/gap_service.py *)
Module GapService.
Import Py Runtime.

(** The regular expression [^role$] with [re.IGNORECASE], as the store
    applies it to a field: only a string can match, and [$] also matches
    before a final newline. *)
Definition search_keyword_pattern (normalized_role : string) (v : value) : bool :=
  match v with
  | VStr s =>
      String.eqb (lower s) (lower normalized_role)
      || String.eqb (lower s) (lower normalized_role +:+ String "010"%char EmptyString)
  | _ => false
  end.

(** The regular expression [role] with [re.IGNORECASE]: a substring
    search. *)
Definition role_pattern (normalized_role : string) (v : value) : bool :=
  match v with
  | VStr s => contains (lower normalized_role) (lower s)
  | _ => false
  end.

(** [{"scraped_at": {"$gte": cutoff_date}}]: the date of the query is
    encoded like any other, so the comparison is with the cutoff to the
    millisecond. *)
Definition scraped_since (cutoff_date : Z) (d : gmap string value) : bool :=
  match d !! "scraped_at" with
  | Some (VTime t) => Z.leb (bson_datetime cutoff_date) t
  | _ => false
  end.

(** The two shapes [role_filter] takes. *)
Inductive role_filter : Type :=
  | BySearchKeywords
  | ByTitle.

Definition matches (cutoff_date : Z) (normalized_role : string) (f : role_filter)
    (d : gmap string value) : bool :=
  scraped_since cutoff_date d &&
  match f with
  | BySearchKeywords => search_keyword_pattern normalized_role (mget d "search_keywords")
  | ByTitle => role_pattern normalized_role (mget d "title")
  end.

(** [JobPosting.find(filter).count()] *)
Definition count_where (p : gmap string value -> bool) : M Z :=
  db DbCount;;
  w ← get_world;
  mret (Z.of_nat (length (filter (fun d => p d = true) (store w)))).

(** [JobPosting.find().first_or_none()] *)
Definition first_or_none : M (option (gmap string value)) :=
  db DbFirst;;
  w ← get_world;
  mret (head (store w)).

(** [{"technology_slugs": {"$exists": True, "$ne": []}}] *)
Definition has_tech_slugs (d : gmap string value) : bool :=
  match d !! "technology_slugs" with
  | Some (VList []) => false
  | Some _ => true
  | None => false
  end.

(** [{"$unwind": "$technology_slugs"}]: one output per element of the
    array; none for a missing or null field. *)
Definition unwind (d : gmap string value) : list value :=
  match d !! "technology_slugs" with
  | Some (VList l) => l
  | Some VNone => []
  | Some v => [v]
  | None => []
  end.

(** [{"$group": {"_id": "$technology_slugs", "count": {"$sum": 1}}}]:
    the groups in the order their keys first occur. *)
Fixpoint add_to_group (key : value) (groups : list (value * Z)) : list (value * Z) :=
  match groups with
  | [] => [(key, 1)]
  | (k, n) :: rest =>
      if value_eqb k key then (k, n + 1) :: rest
      else (k, n) :: add_to_group key rest
  end.

Definition group_count (keys : list value) : list (value * Z) :=
  foldl (fun groups key => add_to_group key groups) [] keys.

(** The count recorded for a key in the groups, 0 when it has none. *)
Fixpoint group_lookup (key : value) (groups : list (value * Z)) : Z :=
  match groups with
  | [] => 0
  | (k, n) :: rest => if value_eqb k key then n else group_lookup key rest
  end.

(** The groups hold each key once, with a positive count. *)
Definition well_grouped (groups : list (value * Z)) : Prop :=
  NoDup groups.*1 /\ Forall (fun p => 0 < p.2) groups.

(** [{"$sort": {"count": -1}}] *)
Definition count_desc (a b : value * Z) : Prop := b.2 <= a.2.

#[global] Instance count_desc_dec a b : Decision (count_desc a b).
Proof. unfold count_desc. apply _. Defined.

(** [JobPosting.aggregate(pipeline).to_list()] for the pipeline of
    [get_role_required_skills]: match, project, unwind, group, sort. *)
Definition aggregate (pipeline_match : gmap string value -> bool) : M (list (value * Z)) :=
  db DbAggregate;;
  w ← get_world;
  let matched := filter (fun d => pipeline_match d = true) (store w) in
  mret (merge_sort count_desc (group_count (matched ≫= unwind))).

(** An [int] as a float (exact below 2^53). *)
Definition to_float (n : Z) : float := PrimFloat.of_uint63 (Uint63.of_Z n).

(** [percentage = (count / total_jobs) * 100] *)
Definition percentage_of (count total_jobs : Z) : float :=
  PrimFloat.mul (PrimFloat.div (to_float count) (to_float total_jobs)) (to_float 100).

(** [percentage >= (threshold * 100)] *)
Definition meets_threshold (pct threshold : float) : bool :=
  PrimFloat.leb (PrimFloat.mul threshold (to_float 100)) pct.

(** The loop [for result in results] that computes the percentages and
    filters by threshold. *)
Fixpoint required_of (env : Env) (total_jobs : Z) (threshold : float)
    (results : list (value * Z)) : list RequiredSkill :=
  match results with
  | [] => []
  | (skill, count) :: rest =>
      if Z.eqb total_jobs 0 then required_of env total_jobs threshold rest
      else
        let pct := percentage_of count total_jobs in
        if meets_threshold pct threshold then
          mk_required_skill skill skill count (round2 env pct) total_jobs
            :: required_of env total_jobs threshold rest
        else required_of env total_jobs threshold rest
  end.

Definition cache_key (env : Env) (role : string) (days : Z) (threshold : float) : string :=
  "role_skills_" +:+ lower role +:+ "_" +:+ pretty days +:+ "_" +:+ float_str env threshold.

(** The body of the [try] block of [get_role_required_skills]. *)
Definition compute_role_required_skills (env : Env) (role : string) (days : Z)
    (threshold : float) : M (list RequiredSkill) :=
  now ← utcnow env;
  cutoff_date ← lift (days_before now days);
  let normalized_role := strip role in
  total_jobs ← count_where (matches cutoff_date normalized_role BySearchKeywords);
  fallback ←
    (if Z.eqb total_jobs 0
     then n ← count_where (matches cutoff_date normalized_role ByTitle);
          mret (ByTitle, n)
     else mret (BySearchKeywords, total_jobs));
  let role_filter := fallback.1 in
  let total_jobs := fallback.2 in
  jobs_with_tech_slugs ← count_where has_tech_slugs;
  if Z.eqb jobs_with_tech_slugs 0 then
    (* the branch only logs what it finds *)
    count_where (fun _ => true);;
    first_or_none;;
    mret []
  else
    results ← aggregate (matches cutoff_date normalized_role role_filter);
    match results with
    | [] => mret []
    | _ =>
        let required_skills := required_of env total_jobs threshold results in
        modify (set_cache (fun c => <[cache_key env role days threshold := required_skills]> c));;
        mret required_skills
    end.

Definition get_role_required_skills (env : Env) (role : string) (days : Z)
    (threshold : float) : M (list RequiredSkill) :=
  w ← get_world;
  match cache w !! cache_key env role days threshold with
  | Some cached => mret cached
  | None =>
      try_except (compute_role_required_skills env role days threshold)
        (fun _ => mret [])
  end.

(** *** In the words of the specification *)

(** The posting was scraped in the window: its [scraped_at] is a date
    not before the start of the window, to the millisecond. *)
Definition in_window (cutoff_date : Z) (d : gmap string value) : bool :=
  match d !! "scraped_at" with
  | Some (VTime t) => Z.leb (cutoff_date / 1000 * 1000) t
  | _ => false
  end.

(** The posting was collected for the role: its [search_keywords] are
    the role, letter case apart (and a final newline apart). *)
Definition collected_for (role : string) (d : gmap string value) : bool :=
  match mget d "search_keywords" with
  | VStr s =>
      String.eqb (lower s) (lower role)
      || String.eqb (lower s) (lower role +:+ String "010"%char EmptyString)
  | _ => false
  end.

(** The title of the posting mentions the role, letter case apart. *)
Definition titled (role : string) (d : gmap string value) : bool :=
  match mget d "title" with
  | VStr s => contains (lower role) (lower s)
  | _ => false
  end.

(** The postings a role's analysis rests on: those scraped in the window
    that were collected for the role, or, when there are none, those
    whose title mentions it. *)
Definition matched_postings (cutoff_date : Z) (normalized_role : string)
    (docs : list (gmap string value)) : list (gmap string value) :=
  match filter (fun d => in_window cutoff_date d && collected_for normalized_role d = true)
          docs with
  | [] => filter (fun d => in_window cutoff_date d && titled normalized_role d = true) docs
  | by_keywords => by_keywords
  end.



(** The number of times a tag occurs in a list of tags. *)
Definition occurrences (tag : value) (tags : list value) : Z :=
  Z.of_nat (length (filter (fun t => value_eqb t tag = true) tags)).

(** The order of a result: the more frequent skill first. *)
Definition ranked (a b : RequiredSkill) : Prop := count b <= count a.

(** The skill names of a result. *)
Definition skills_of (r : option (exn + list RequiredSkill)) : option (list value) :=
  match r with
  | Some (inr l) => Some (skill <$> l)
  | _ => None
  end.

(** [SkillGapItem] of [schemas/analytics.py] *)
Record SkillGapItem := mk_gap_item {
  item_skill : string;
  required_percentage : float;
  user_has : bool;
}.

(** The accumulators of the loop of [compute_user_coverage]. *)
Record coverage_acc := mk_acc {
  skill_gap_items : list SkillGapItem;
  missing_skills : list string;
  skills_have : Z;
}.

(** The name a required skill is compared under. *)
Definition skill_name (env : Env) (req_skill : RequiredSkill) : string :=
  strip (lower (str (repr env) (or_else (technology_slug req_skill) (skill req_skill)))).

(** *** In the words of the specification *)

(** The name a required skill comes with: its [technology_slug], or its
    [skill] when that is empty, as text. *)
Definition given_name (env : Env) (req : RequiredSkill) : string :=
  str (repr env) (if truthy (technology_slug req) then technology_slug req else skill req).

(** Two names are the same skill when they are equal letter case and
    surrounding blanks apart. *)
Definition same_skill (a b : string) : bool :=
  String.eqb (strip (lower a)) (strip (lower b)).

(** The user has the required skill when one of the user's skills that
    is not blank is the same skill as the name it comes with. *)
Definition user_has_skill (env : Env) (user_skills : list string)
    (req : RequiredSkill) : bool :=
  existsb
    (fun s => negb (blank s) && negb (blank (strip s))
              && same_skill s (given_name env req))
    user_skills.

(** The body of [for req_skill in required_skills]. *)
Definition coverage_step (env : Env) (user_skills : list string)
    (acc : coverage_acc) (req_skill : RequiredSkill) : coverage_acc :=
  let name := skill_name env req_skill in
  let user_has_skill :=
    existsb (fun user_skill => String.eqb (lower user_skill) name) user_skills in
  let items :=
    (skill_gap_items acc ++ [mk_gap_item name (percentage req_skill) user_has_skill])%list in
  if negb user_has_skill then
    mk_acc items (missing_skills acc ++ [name])%list (skills_have acc)
  else
    mk_acc items (missing_skills acc) (skills_have acc + 1).

(** The user's skills, normalised: [s.lower().strip()] for every [s] that
    is not blank. *)
Definition normalize_user_skills (user_skills : list string) : list string :=
  (fun s => strip (lower s)) <$>
    filter (fun s => negb (blank s) && negb (blank (strip s)) = true) user_skills.

(** [compute_user_coverage(user_skills, required_skills)]: the gap items,
    the missing skills, the coverage, [skills_have] and [total_skills]. *)
Definition compute_user_coverage (env : Env) (user_skills : list string)
    (required_skills : list RequiredSkill)
  : list SkillGapItem * list string * float * Z * Z :=
  match required_skills with
  | [] => ([], [], to_float 0, 0, 0)
  | _ =>
      let user_skills := normalize_user_skills user_skills in
      let acc :=
        foldl (coverage_step env user_skills) (mk_acc [] [] 0) required_skills in
      let total_skills := Z.of_nat (length required_skills) in
      let coverage :=
        if Z.ltb 0 total_skills
        then PrimFloat.mul (PrimFloat.div (to_float (skills_have acc)) (to_float total_skills))
               (to_float 100)
        else to_float 0 in
      (skill_gap_items acc, missing_skills acc, coverage, skills_have acc, total_skills)
  end.

(** [clear_cache()]: the module's cache is emptied.  The skill extractor
    has no [clear_cache] of its own, so the [hasattr] test fails and
    nothing else is cleared. *)
Definition clear_cache : M unit := modify (set_cache (fun _ => ∅)).

(** The fields of [User] that the analysis reads. *)
Record User := mk_user {
  user_email : string;
  user_skills : list string;
}.

(** [GapAnalysisResponse] of [schemas/analytics.py] *)
Record GapAnalysisResponse := mk_gap_analysis {
  analysis_role : string;
  total_postings_analyzed : Z;
  analysis_required_skills : list SkillGapItem;
  analysis_missing_skills : list string;
  coverage_percentage : float;
  skill_match_count : Z;
  total_required_skills : Z;
}.

(** The analysis returned when there is nothing to analyse, and on any
    error. *)
Definition empty_analysis (target_role : string) : GapAnalysisResponse :=
  mk_gap_analysis target_role 0 [] [] (to_float 0) 0 0.

(** [analyze_skill_gap(user, target_role, days, threshold)] *)
Definition analyze_skill_gap (env : Env) (user : User) (target_role : string)
    (days : Z) (threshold : float) : M GapAnalysisResponse :=
  try_except
    (required_skills ← get_role_required_skills env target_role days threshold;
     match required_skills with
     | [] => mret (empty_analysis target_role)
     | first :: _ =>
         let '(skill_gap_items, missing_skills, coverage_percentage,
               skill_match_count, total_required_skills) :=
           compute_user_coverage env (user_skills user) required_skills in
         let total_postings := total_jobs first in
         mret (mk_gap_analysis target_role total_postings skill_gap_items
                 missing_skills coverage_percentage skill_match_count
                 total_required_skills)
     end)
    (fun _ => mret (empty_analysis target_role)).

End GapService.

(** ** services/job_collection_service.py: retention and statistics *)
Module JobMaintenance.
Import Py Runtime GapService.

(** [JobPosting.scraped_at < cutoff]: only a date can be before the
    cutoff, which the query carries to the millisecond. *)
Definition scraped_before (cutoff : Z) (d : gmap string value) : bool :=
  match d !! "scraped_at" with
  | Some (VTime t) => Z.ltb t (bson_datetime cutoff)
  | _ => false
  end.

(** [JobPosting.find(filter).delete()]: the documents that match are
    removed, the others keep their order; the result's [deleted_count]
    is the number removed.  (The trace of store operations has no entry
    for a deletion.) *)
Definition delete_where (p : gmap string value -> bool) : M Z :=
  w ← get_world;
  modify (set_store (fun st => filter (fun d => p d = false) st));;
  mret (Z.of_nat (length (filter (fun d => p d = true) (store w)))).

(** [cleanup_old_jobs(days_to_keep)] *)
Definition cleanup_old_jobs (env : Env) (days_to_keep : Z) : M Z :=
  now ← utcnow env;
  cutoff ← lift (days_before now days_to_keep);
  deleted ← delete_where (scraped_before cutoff);
  mret deleted.

(** The dictionary [get_collection_statistics] returns; an item of
    [top_roles] or [top_locations] is the pair of its name and count. *)
Record Statistics := mk_statistics {
  stat_total_jobs : Z;
  jobs_last_24h : Z;
  jobs_last_7d : Z;
  top_roles : list (value * Z);
  top_locations : list (value * Z);
}.

(** The two pipelines: an optional [$match], [$group] by a field with
    [$sum: 1] (a missing field groups under null), [$sort] by count,
    largest first, and [$limit] 10. *)
Definition top_ten (field : string) (pipeline_match : gmap string value -> bool)
  : M (list (value * Z)) :=
  db DbAggregate;;
  w ← get_world;
  let matched := filter (fun d => pipeline_match d = true) (store w) in
  mret (take 10 (merge_sort count_desc
                   (group_count ((fun d => mget d field) <$> matched)))).

(** [{"location": {"$ne": None}}]: the field is there and is not null. *)
Definition location_not_null (d : gmap string value) : bool :=
  match d !! "location" with
  | Some VNone => false
  | Some _ => true
  | None => false
  end.

(** [get_collection_statistics()] *)
Definition get_collection_statistics (env : Env) : M Statistics :=
  total_jobs ← count_where (fun _ => true);
  now ← utcnow env;
  let last_day_cutoff := now - timedelta_days 1 in
  now ← utcnow env;
  let last_week_cutoff := now - timedelta_days 7 in
  jobs_last_day ← count_where (scraped_since last_day_cutoff);
  jobs_last_week ← count_where (scraped_since last_week_cutoff);
  top_roles ← top_ten "search_keywords" (fun _ => true);
  top_locations ← top_ten "location" location_not_null;
  mret (mk_statistics total_jobs jobs_last_day jobs_last_week top_roles top_locations).

End JobMaintenance.

(** ** services/user_job_collection_service.py: [_filter_roles_needing_update] *)
Module UserJobCollectionService.
Import Py Runtime GapService.

(** [{"search_keywords": role, "scraped_at": {"$gte": cutoff_date}}] *)
Definition fresh_for (role : string) (cutoff_date : Z) (d : gmap string value) : bool :=
  value_eqb (mget d "search_keywords") (VStr role) && scraped_since cutoff_date d.

(** Some stored posting is filed under the role and scraped since the
    cutoff. *)
Definition has_fresh (role : string) (cutoff_date : Z)
    (docs : list (gmap string value)) : bool :=
  existsb (fresh_for role cutoff_date) docs.

(** [JobPosting.find_one(filter)] for that filter: the first document
    that matches, noted in the trace under the filter's first key. *)
Definition find_recent (role : string) (cutoff_date : Z)
  : M (option (gmap string value)) :=
  db (DbFindOne "search_keywords" (VStr role));;
  w ← get_world;
  mret (snd <$> list_find (fun d => fresh_for role cutoff_date d = true) (store w)).

(** The loop [for role in roles]. *)
Fixpoint roles_loop (cutoff_date : Z) (roles : list string)
    (roles_needing_update : list string) : M (list string) :=
  match roles with
  | [] => mret roles_needing_update
  | role :: rest =>
      recent_job ← find_recent role cutoff_date;
      match recent_job with
      | Some _ => roles_loop cutoff_date rest roles_needing_update
      | None => roles_loop cutoff_date rest (roles_needing_update ++ [role])%list
      end
  end.

(** [_filter_roles_needing_update(roles, freshness_days)] *)
Definition _filter_roles_needing_update (env : Env) (roles : list string)
    (freshness_days : Z) : M (list string) :=
  now ← utcnow env;
  cutoff_date ← lift (days_before now freshness_days);
  roles_loop cutoff_date roles [].

End UserJobCollectionService.

(** ** Sample environments and worlds *)
Module Fixtures.
Import Py Runtime.

(** Nothing sent, nothing stored, nothing cached. *)
Definition w0 : world := mk_world [] [] 0 [] ∅ [] [].

Definition with_store (docs : list (gmap string value)) : world :=
  mk_world [] [] 0 docs ∅ [] [].

(** An environment with the given settings and upstream; the clock
    advances by one at each read and every keyword set validates. *)
Definition env_of (max_retries : nat) (max_jobs : Z)
    (upstream : nat -> string -> gmap string value -> reply) : Env :=
  mk_env (mk_settings max_retries max_jobs) upstream
    (fun n => Z.of_nat n) (fun _ => true) (fun _ => "") (fun _ => None)
    (fun x => x) (fun _ => "t").

Definition answers (code : Z) (body : option value) : reply :=
  Reply (mk_response code "" body).

(** An upstream that answers every request with the same status. *)
Definition always (code : Z) : nat -> string -> gmap string value -> reply :=
  fun _ _ _ => answers code None.

(** The settings of [config.py]: three attempts, pages of a hundred. *)
Definition env_503 : Env := env_of 3 100 (always 503).
Definition env_401 : Env := env_of 3 100 (always 401).
Definition env_200 : Env := env_of 3 100 (fun _ _ _ => answers 200 (Some (VDict []))).

(** The same upstream under a clock that tells the time of day: it
    starts on 3 November 2025, 123 microseconds past midnight, and
    advances by a second and seven microseconds at each read. *)
Definition env_wall_clock : Env :=
  mk_env (mk_settings 3 100) (fun _ _ _ => answers 200 (Some (VDict [])))
    (fun n => 1762128000000123 + 1000007 * Z.of_nat n)
    (fun _ => true) (fun _ => "") (fun _ => None) (fun x => x) (fun _ => "t").

(** A posting as upstream sends it. *)
Definition a_job : value :=
  VDict [("id", VInt 17); ("job_title", VStr "Backend Developer");
         ("job_url", VStr "https://jobs.example/17");
         ("technology_slugs", VList [VStr "python"; VStr "react-js"])].

(** The fields of a posting that comes with no id and no URL. *)
Definition fields_without_identifier : list (string * value) :=
  [("job_title", VStr "Backend Developer"); ("company", VStr "Acme");
   ("technology_slugs", VList [VStr "python"])].

(** An upstream with one page of results: page 1 holds [a_job] and the
    given metadata, every other page is empty. *)
Definition one_page (metadata : list (string * value))
  : nat -> string -> gmap string value -> reply :=
  fun _ _ body =>
    match body !! "page" with
    | Some (VInt 1) =>
        answers 200 (Some (VDict [("data", VList [a_job]); ("metadata", VDict metadata)]))
    | _ => answers 200 (Some (VDict [("data", VList []); ("metadata", VDict metadata)]))
    end.

Definition env_no_has_more : Env := env_of 3 100 (one_page []).
Definition env_has_more_false : Env :=
  env_of 3 100 (one_page [("has_more", VBool false)]).

(** Four required skills under the names they come with, and a user who
    has three of them, spelled in other cases and with other blanks. *)
Definition required_skill (name : string) (n : Z) (pct : float) : RequiredSkill :=
  mk_required_skill (VStr name) (VStr name) n pct 5.

Definition four_required : list RequiredSkill :=
  [required_skill "Python" 5 100; required_skill "React " 4 80;
   required_skill " DOCKER" 3 60; required_skill "aws" 2 40].

Definition three_of_four : list string :=
  ["python"; " REACT "; "Docker"; "golang"; "  "].

(** A stored posting found for the role [Backend Developer] at time 0
    with the given technology tags. *)
Definition a_posting (url : string) (tags : list string) : gmap string value :=
  dict_literal [
    ("title", VStr "Backend Developer"); ("url", VStr url);
    ("search_keywords", VStr "Backend Developer"); ("scraped_at", VTime 0);
    ("technology_slugs", VList (VStr <$> tags))
  ].

(** Five postings: [A] is on four of them (80%), [B] on one (20%). *)
Definition store_A80_B20 : list (gmap string value) :=
  [a_posting "u1" ["A"]; a_posting "u2" ["A"]; a_posting "u3" ["A"];
   a_posting "u4" ["A"]; a_posting "u5" ["B"]].



(** A world with the given postings and one entry in the cache. *)
Definition with_cache_entry (key : string) (cached : list RequiredSkill)
    (docs : list (gmap string value)) : world :=
  mk_world [] [] 0 docs {[key := cached]} [] [].

(** Two postings scraped in 1970 and three scraped two days before the
    wall clock starts, all collected for [Backend Developer]. *)
Definition posting_at (scraped_at : Z) (url : string) (tags : list string)
  : gmap string value :=
  dict_literal [
    ("title", VStr "Backend Developer"); ("url", VStr url);
    ("search_keywords", VStr "Backend Developer"); ("scraped_at", VTime scraped_at);
    ("technology_slugs", VList (VStr <$> tags))
  ].

Definition store_old_and_new : list (gmap string value) :=
  [posting_at 0 "o1" ["B"]; posting_at 1761955200000000 "n1" ["A"];
   posting_at 86400000000 "o2" ["B"]; posting_at 1761955200000000 "n2" ["A"; "B"];
   posting_at 1761955200000000 "n3" ["A"]].

(** Postings of the role, none of them with technology tags. *)
Definition store_without_slugs : list (gmap string value) :=
  [a_posting "u1" []; a_posting "u2" []].

(** A mapped posting as [_map_job] hands it to [upsert_job], and the
    same posting without its [job_id]. *)
Definition a_mapped_job : gmap string value :=
  dict_literal [
    ("job_id", VStr "17"); ("title", VStr "Backend Developer");
    ("company", VStr "Acme"); ("company_domain", VNone);
    ("location", VStr "Pune"); ("description", VStr "");
    ("skills", VList [VStr "python"]); ("url", VStr "https://jobs.example/17");
    ("date_posted", VNone); ("min_annual_salary_usd", VNone);
    ("max_annual_salary_usd", VNone); ("remote", VBool true);
    ("technology_slugs", VList [VStr "python"]);
    ("search_keywords", VStr "Backend Developer"); ("search_location", VStr "");
    ("coordinates", VNone); ("scraped_at", VTime 5)
  ].

(** The same posting scraped at the first reading of the wall clock,
    and a store that holds it as scraped in 1970. *)
Definition a_mapped_job_now : gmap string value :=
  <["scraped_at" := VTime 1762128000000123]> a_mapped_job.

Definition store_with_old_job : list (gmap string value) :=
  [<["scraped_at" := VTime 0]> a_mapped_job].

Definition a_mapped_job_without_id : gmap string value :=
  <["job_id" := VNone]> a_mapped_job.

Definition a_payload : gmap string value :=
  dict_literal [("job_title_or", VList [VStr "Software Engineer"]);
                ("posted_at_max_age_days", VInt 1)].

(** An upstream that fails twice, with a 503 and with a timeout, before
    it answers. *)
Definition flaky : nat -> string -> gmap string value -> reply :=
  fun n _ _ =>
    match n with
    | O => answers 503 None
    | S O => RequestError "timed out"
    | _ => answers 200 (Some (VDict [("data", VList [])]))
    end.

Definition env_flaky : Env := env_of 3 100 flaky.
Definition env_404 : Env := env_of 3 100 (always 404).

(** Three roles, one of them blank. *)
Definition some_roles : list string := ["Backend Developer"; "  "; " QA Engineer "].

End Fixtures.

(* ===================================================================== *)
(** * Part II: lemmas and theorems                                        *)
(* ===================================================================== *)

Import Py Runtime.

(** ** The monad *)

(** Unfolds the monad's operations in the goal and the hypotheses. *)
Ltac munfold :=
  unfold mbind, mret, M_bind, M_ret, bind, ret, raise, cut_off, try_except,
    attempt, lift, get_world, modify, db, utcnow in *.

Lemma bind_ret_l {A B} (a : A) (k : A -> M B) w : (mret a ≫= k) w = k a w.
Proof. reflexivity. Qed.

Lemma bind_inv {A B} (m : M A) (k : A -> M B) w r w' :
  (m ≫= k) w = Some (r, w') ->
  (exists e, m w = Some (inl e, w') /\ r = inl e) \/
  (exists a w1, m w = Some (inr a, w1) /\ k a w1 = Some (r, w')).
Proof.
  munfold. destruct (m w) as [[[e|a] w1]|] eqn:E; intros H.
  - left. exists e. by inversion H.
  - right. by exists a, w1.
  - discriminate.
Qed.

(** ** Strings *)

Lemma str_le_total : Total str_le.
Proof. intros a b. apply String.leb_total. Qed.

#[local] Existing Instance str_le_total.

Lemma sorted_is_sorted (xs : gset string) : Sorted str_le (sorted xs).
Proof. apply Sorted_merge_sort, _. Qed.

Lemma sorted_NoDup (xs : gset string) : NoDup (sorted xs).
Proof.
  unfold sorted. rewrite merge_sort_Permutation. apply NoDup_elements.
Qed.

Lemma elem_of_sorted (xs : gset string) s : s ∈ sorted xs <-> s ∈ xs.
Proof.
  unfold sorted. rewrite merge_sort_Permutation. apply elem_of_elements.
Qed.

(** ** SkillExtractor *)

(** Whatever the slugs, the result is in ascending order without
    repeats. *)
Lemma map_technology_slugs_sorted slugs :
  Sorted str_le (SkillExtractor.map_technology_slugs slugs) /\
  NoDup (SkillExtractor.map_technology_slugs slugs).
Proof.
  destruct slugs as [[|s l]|]; simpl; try (split; constructor).
  split; [apply sorted_is_sorted | apply sorted_NoDup].
Qed.

(** C7 (the code at the failing input).  A slug made of a separator only
    passes both blank tests, is turned into a single space by the
    fallback and is returned: the output holds a blank entry, and mapping
    the output again drops it, so the second pass differs from the first.
    A slug that ends in a separator keeps a trailing space that a second
    pass strips. *)
Theorem map_technology_slugs_separator_slug :
  SkillExtractor.map_technology_slugs (Some ["-"]) = [" "] /\
  SkillExtractor.map_technology_slugs
    (Some (SkillExtractor.map_technology_slugs (Some ["-"]))) = [] /\
  SkillExtractor.map_technology_slugs (Some ["a-"]) = ["a "] /\
  SkillExtractor.map_technology_slugs
    (Some (SkillExtractor.map_technology_slugs (Some ["a-"]))) = ["a"].
Proof. repeat split; vm_compute; reflexivity. Qed.

(** ** TheirStackClient *)

Section Client.
Import TheirStackClient.
Context (env : Env).

(** C4.  A payload with none of the three date-filter keys is refused by
    [search_jobs] with a [ValueError], and the world is left as it was:
    no request has been sent. *)
Theorem search_jobs_without_date_filter (payload : gmap string value) (w : world) :
  (forall key, key ∈ date_filter_keys -> payload !! key = None) ->
  exists msg,
    search_jobs env payload w = Some (inl (ValueError msg), w).
Proof.
  intros Hnone. unfold search_jobs, _validate_payload. munfold.
  destruct (Nat.eqb (size payload) 0); [by eexists|].
  unfold date_filter_keys in *. simpl.
  rewrite !Hnone by (unfold date_filter_keys; set_solver).
  simpl. by eexists.
Qed.

End Client.

Lemma search_jobs_without_date_filter_witness :
  exists msg,
    TheirStackClient.search_jobs Fixtures.env_200
      (dict_literal [("job_title_or", VList [VStr "Software Engineer"])])
      Fixtures.w0
    = Some (inl (ValueError msg), Fixtures.w0).
Proof.
  apply (search_jobs_without_date_filter Fixtures.env_200).
  intros key Hkey. unfold TheirStackClient.date_filter_keys in Hkey.
  repeat (apply elem_of_cons in Hkey as [->|Hkey]); try reflexivity.
  by apply elem_of_nil in Hkey.
Defined.

(** ** The retry loop *)

Section Retry.
Import TheirStackClient.
Context (env : Env).

Lemma post_attempt_eq endpoint body w :
  post_attempt env endpoint body w =
  Some (check_status (transport env (length (posts w)) endpoint body),
        set_posts (fun l => (l ++ [(endpoint, body)])%list) w).
Proof.
  unfold post_attempt, post. munfold.
  by destruct (check_status _).
Qed.

(** The requests a call of the retry loop adds are all the same request,
    at least one of them; the store is not touched. *)
Lemma retrying_posts budget n endpoint body k w r w' :
  retrying budget n (post_attempt env endpoint body) k w = Some (r, w') ->
  exists m, (1 <= m)%nat /\
    posts w' = (posts w ++ replicate m (endpoint, body))%list /\
    store w' = store w /\ ticks w' = ticks w /\ upserts w' = upserts w /\
    db_log w' = db_log w /\ cache w' = cache w.
Proof.
  revert k w. induction budget as [|b IH]; intros k w; simpl; [done|].
  unfold mbind, M_bind, bind, attempt. rewrite post_attempt_eq.
  destruct (check_status _) as [e|resp].
  - destruct (is_retryable e); simpl.
    + destruct (stop_after_attempt n k); simpl.
      * munfold. intros [= <- <-]. exists 1%nat. by simpl.
      * unfold sleep. munfold. intros H. apply IH in H as (m & Hm & Hp & Hs).
        exists (S m). split; [lia|]. simpl in *.
        rewrite Hp. rewrite <- app_assoc. by simpl.
    + munfold. intros [= <- <-]. exists 1%nat. by simpl.
  - munfold. intros [= <- <-]. exists 1%nat. by simpl.
Qed.

(** The loop always ends within its budget: [_post_with_retry] returns
    or raises. *)
Lemma retrying_total budget n endpoint body k w :
  (n < k + budget)%nat -> (1 <= budget)%nat ->
  exists r w', retrying budget n (post_attempt env endpoint body) k w = Some (r, w').
Proof.
  revert k w. induction budget as [|b IH]; intros k w Hb H1; [lia|]. simpl.
  unfold mbind, M_bind, bind, attempt. rewrite post_attempt_eq.
  destruct (check_status _) as [e|resp]; [|munfold; by eauto].
  destruct (is_retryable e); simpl; [|munfold; by eauto].
  unfold stop_after_attempt. destruct (Nat.leb_spec n k); simpl; [munfold; by eauto|].
  unfold sleep. munfold. apply IH; lia.
Qed.

(** When every reply is retryable, the loop makes attempts until the
    stop rule holds, sleeping between them, and raises the last error. *)
Lemma retrying_exhausts budget n endpoint body k w :
  (forall i, exists msg,
      check_status (transport env i endpoint body) = inl (TheirStackRetryableError msg)) ->
  (n < k + budget)%nat -> (1 <= budget)%nat ->
  exists msg w',
    retrying budget n (post_attempt env endpoint body) k w
      = Some (inl (TheirStackRetryableError msg), w') /\
    posts w' = (posts w ++ replicate (S (n - k)) (endpoint, body))%list /\
    slept w' = (slept w ++ (wait_exponential <$> seq k (n - k)))%list.
Proof.
  intros Hall. revert k w. induction budget as [|b IH]; intros k w Hb H1; [lia|].
  simpl. unfold mbind, M_bind, bind, attempt. rewrite post_attempt_eq.
  destruct (Hall (length (posts w))) as [msg ->]. simpl.
  unfold stop_after_attempt. destruct (Nat.leb_spec n k); simpl.
  - munfold. exists msg. eexists. split; [reflexivity|].
    replace (n - k)%nat with 0%nat by lia. simpl. by rewrite app_nil_r.
  - unfold sleep. munfold.
    edestruct (IH (S k)) as (msg' & w' & -> & Hp & Hs); [lia|lia|].
    exists msg', w'. split; [reflexivity|]. simpl in *.
    rewrite Hp, Hs. replace (n - k)%nat with (S (n - S k)) by lia.
    simpl. rewrite <- !app_assoc. by simpl.
Qed.

Lemma wait_exponential_bounds k :
  (1 <= k)%nat ->
  wait_exponential k = Z.min (2 ^ (Z.of_nat k - 1)) 10 /\
  1 <= wait_exponential k <= 10.
Proof.
  intros Hk. unfold wait_exponential.
  assert (1 <= 2 ^ (Z.of_nat k - 1)) by (apply (Z.pow_le_mono_r 2 0); lia).
  lia.
Qed.

End Retry.

Section Search.
Import TheirStackClient.
Context (env : Env).

Lemma check_status_503 r :
  status_code r = 503 ->
  check_status (Reply r) = inl (TheirStackRetryableError (text r)).
Proof. intros H. unfold check_status. by rewrite H. Qed.

Lemma check_status_401 r :
  status_code r = 401 ->
  check_status (Reply r) = inl (TheirStackAuthenticationError (text r)).
Proof. intros H. unfold check_status. by rewrite H. Qed.

Lemma lookup_setdefault_ne k k' v (d : gmap string value) :
  k <> k' -> setdefault k v d !! k' = d !! k'.
Proof.
  intros Hne. unfold setdefault. destruct (d !! k); [done|].
  by rewrite lookup_insert_ne.
Qed.

Lemma lookup_setdefault_None k v (d : gmap string value) :
  d !! k = None -> setdefault k v d !! k = Some v.
Proof.
  intros Hk. unfold setdefault. rewrite Hk. by rewrite lookup_insert_eq.
Qed.

Lemma lookup_setdefault_Some k v x (d : gmap string value) :
  d !! k = Some x -> setdefault k v d !! k = Some x.
Proof. intros Hk. unfold setdefault. by rewrite Hk. Qed.

Lemma with_defaults_page payload :
  payload !! "page" = None -> payload !! "offset" = None ->
  with_defaults env payload !! "page" = Some (VInt 1).
Proof.
  intros Hp Ho. unfold with_defaults.
  rewrite lookup_setdefault_ne by done.
  rewrite !bool_decide_eq_false_2 by (rewrite ?Hp, ?Ho; by intros [? ?]).
  simpl. by apply lookup_setdefault_None.
Qed.

Lemma with_defaults_limit_absent payload :
  payload !! "limit" = None ->
  with_defaults env payload !! "limit"
    = Some (VInt (max_jobs_per_search (settings env))).
Proof.
  intros Hl. unfold with_defaults. apply lookup_setdefault_None.
  destruct (_ && _); [|done]. by rewrite lookup_setdefault_ne.
Qed.

Lemma with_defaults_limit_given payload v :
  payload !! "limit" = Some v ->
  with_defaults env payload !! "limit" = Some v.
Proof.
  intros Hl. unfold with_defaults. apply lookup_setdefault_Some.
  destruct (_ && _); [|done]. by rewrite lookup_setdefault_ne.
Qed.

(** [search_jobs] on a payload that passes validation: it returns or
    raises, and what it has sent is one and the same request, the
    payload with its defaults, once per attempt. *)
Lemma search_jobs_sends payload w :
  _validate_payload payload w = Some (inr tt, w) ->
  exists r w' m,
    search_jobs env payload w = Some (r, w') /\ (1 <= m)%nat /\
    posts w' = (posts w ++ replicate m ("/v1/jobs/search", with_defaults env payload))%list /\
    store w' = store w /\ ticks w' = ticks w /\ upserts w' = upserts w /\
    db_log w' = db_log w /\ cache w' = cache w.
Proof.
  intros Hv. unfold search_jobs, _post_with_retry.
  unfold mbind at 1. unfold M_bind, bind. rewrite Hv.
  set (n := their_stack_max_retries (settings env)).
  destruct (retrying_total env (Nat.max 1 n) n "/v1/jobs/search"
              (with_defaults env payload) 1 w) as (r & w' & Hr); [lia|lia|].
  pose proof (retrying_posts _ _ _ _ _ _ _ _ _ Hr) as (m & Hm & Hp & Hs).
  unfold mbind, M_bind, bind, try_except. rewrite Hr.
  destruct r as [e|resp].
  - destruct e; munfold; by eexists _, _, m.
  - destruct (json resp); munfold; by eexists _, _, m.
Qed.

(** C5, as amended.  On a payload that passes validation, every request
    [search_jobs] sends carries the payload with its defaults: page 1
    when neither [page] nor [offset] was given, the configured maximum
    as [limit] when no limit was given, and the caller's own [limit],
    unchanged, when one was given. *)
Theorem search_jobs_pagination_defaults (payload : gmap string value) (w : world) :
  _validate_payload payload w = Some (inr tt, w) ->
  exists r w' m body,
    search_jobs env payload w = Some (r, w') /\ (1 <= m)%nat /\
    posts w' = (posts w ++ replicate m ("/v1/jobs/search", body))%list /\
    (payload !! "page" = None -> payload !! "offset" = None ->
       body !! "page" = Some (VInt 1)) /\
    (payload !! "limit" = None ->
       body !! "limit" = Some (VInt (max_jobs_per_search (settings env)))) /\
    (forall v, payload !! "limit" = Some v -> body !! "limit" = Some v).
Proof.
  intros Hv. destruct (search_jobs_sends payload w Hv) as (r & w' & m & Hr & Hm & Hp & _).
  exists r, w', m, (with_defaults env payload).
  repeat split; try done.
  - apply with_defaults_page.
  - apply with_defaults_limit_absent.
  - apply with_defaults_limit_given.
Qed.

(** C2, as amended.  On a payload that passes validation: when every
    reply is a 503, [search_jobs] makes [max 1 their_stack_max_retries]
    attempts in all (one fewer retries), sleeps [wait_exponential k]
    seconds after the failed attempt [k], and raises the retryable
    error; when the first reply is a 401 it raises the authentication
    error after that one request, without sleeping.  The wait after
    attempt [k] is [2^(k-1)] seconds capped at 10: one second first. *)
Theorem search_jobs_retry_classification (payload : gmap string value) (w : world) :
  _validate_payload payload w = Some (inr tt, w) ->
  let n := Nat.max 1 (their_stack_max_retries (settings env)) in
  ((forall i e b, exists r, transport env i e b = Reply r /\ status_code r = 503) ->
   exists msg w',
     search_jobs env payload w = Some (inl (TheirStackRetryableError msg), w') /\
     length (posts w') = (length (posts w) + n)%nat /\
     slept w' = (slept w ++ (wait_exponential <$> seq 1 (n - 1)))%list) /\
  ((exists r, transport env (length (posts w)) "/v1/jobs/search"
                (with_defaults env payload) = Reply r /\ status_code r = 401) ->
   exists msg w',
     search_jobs env payload w = Some (inl (TheirStackAuthenticationError msg), w') /\
     length (posts w') = S (length (posts w)) /\
     slept w' = slept w) /\
  (forall k, (1 <= k)%nat ->
     wait_exponential k = Z.min (2 ^ (Z.of_nat k - 1)) 10 /\
     1 <= wait_exponential k <= 10).
Proof.
  intros Hv n. split; [|split].
  - intros Hall. unfold search_jobs, _post_with_retry.
    unfold mbind at 1. unfold M_bind, bind. rewrite Hv.
    set (N := their_stack_max_retries (settings env)) in *.
    edestruct (retrying_exhausts env (Nat.max 1 N) N "/v1/jobs/search"
                 (with_defaults env payload) 1 w) as (msg & w' & Hr & Hp & Hs);
      [|lia|lia|].
    { intros i. destruct (Hall i "/v1/jobs/search" (with_defaults env payload))
        as (r & -> & Hc). exists (text r). by apply check_status_503. }
    unfold mbind, M_bind, bind, try_except. rewrite Hr. munfold.
    exists msg, w'. split; [done|]. split.
    + rewrite Hp, length_app, length_replicate. subst n. lia.
    + rewrite Hs. do 3 f_equal. subst n. lia.
  - intros (r & Ht & Hc). unfold search_jobs, _post_with_retry.
    unfold mbind at 1. unfold M_bind, bind. rewrite Hv.
    destruct (Nat.max 1 _) as [|b] eqn:E; [lia|]. simpl.
    unfold mbind, M_bind, bind, attempt, try_except. rewrite post_attempt_eq.
    rewrite Ht, (check_status_401 _ Hc). simpl. munfold.
    eexists _, _. split; [reflexivity|]. simpl.
    split; [|done]. rewrite length_app. simpl. lia.
  - apply wait_exponential_bounds.
Qed.

End Search.

Lemma search_jobs_pagination_defaults_witness :
  exists r w' m body,
    TheirStackClient.search_jobs Fixtures.env_200 Fixtures.a_payload Fixtures.w0
      = Some (r, w') /\ (1 <= m)%nat /\
    posts w' = (posts Fixtures.w0 ++ replicate m ("/v1/jobs/search", body))%list /\
    (Fixtures.a_payload !! "page" = None -> Fixtures.a_payload !! "offset" = None ->
       body !! "page" = Some (VInt 1)) /\
    (Fixtures.a_payload !! "limit" = None ->
       body !! "limit" = Some (VInt (max_jobs_per_search (settings Fixtures.env_200)))) /\
    (forall v, Fixtures.a_payload !! "limit" = Some v -> body !! "limit" = Some v).
Proof.
  apply (search_jobs_pagination_defaults Fixtures.env_200 Fixtures.a_payload Fixtures.w0).
  vm_compute. reflexivity.
Defined.

(** C5, the claim as stated fails: with the configured maximum at 100, a
    caller's limit of 500 is what the one request sent carries. *)
Lemma search_jobs_keeps_larger_limit :
  observe (fun w => (fun p => p.2 !! "limit") <$> posts w)
    (TheirStackClient.search_jobs Fixtures.env_200
       (<["limit" := VInt 500]> Fixtures.a_payload) Fixtures.w0)
    = Some [Some (VInt 500)] /\
  max_jobs_per_search (settings Fixtures.env_200) = 100 /\
  100 < 500.
Proof. split; [vm_compute; reflexivity|]. split; [reflexivity|lia]. Qed.

Lemma search_jobs_retry_classification_witness :
  (exists msg w',
     TheirStackClient.search_jobs Fixtures.env_503 Fixtures.a_payload Fixtures.w0
       = Some (inl (TheirStackRetryableError msg), w') /\
     length (posts w') = 3%nat /\ slept w' = [1; 2]) /\
  (exists msg w',
     TheirStackClient.search_jobs Fixtures.env_401 Fixtures.a_payload Fixtures.w0
       = Some (inl (TheirStackAuthenticationError msg), w') /\
     length (posts w') = 1%nat /\ slept w' = []).
Proof.
  split.
  - apply (search_jobs_retry_classification Fixtures.env_503 Fixtures.a_payload Fixtures.w0).
    + vm_compute. reflexivity.
    + intros i e b. eexists. split; reflexivity.
  - apply (search_jobs_retry_classification Fixtures.env_401 Fixtures.a_payload Fixtures.w0).
    + vm_compute. reflexivity.
    + eexists. split; reflexivity.
Defined.

(** C2, the claim as stated fails: with [their_stack_max_retries] at 3
    and an upstream that always answers 503, three requests are sent in
    all, that is two retries with two waits, before the error is
    raised. *)
Lemma search_jobs_retries_one_less :
  outcome_of
    (TheirStackClient.search_jobs Fixtures.env_503 Fixtures.a_payload Fixtures.w0)
    = Some (inl (TheirStackRetryableError "")) /\
  observe (fun w => (length (posts w), (length (posts w) - 1)%nat, slept w))
    (TheirStackClient.search_jobs Fixtures.env_503 Fixtures.a_payload Fixtures.w0)
    = Some (3%nat, 2%nat, [1; 2]) /\
  their_stack_max_retries (settings Fixtures.env_503) = 3%nat.
Proof. repeat split; vm_compute; reflexivity. Qed.

(** ** Pagination in [collect_jobs_for_roles] *)

Section Paging.
Import TheirStackClient JobCollectionService.
Context (env : Env).

Lemma is_False_absent (md : list (string * value)) :
  assoc "has_more" md = None -> is_False (get md "has_more") = false.
Proof. intros H. unfold get. by rewrite H. Qed.

(** C6, as amended.  A pass of the page loop that returns goes on to the
    next page exactly when the search returned, its data is not empty,
    the role's limit is not reached after the page's jobs, and
    [has_more] is not the value [False]; the page number then grows by
    one.  In particular, metadata without a [has_more] key does not stop
    the loop: the pass goes on whenever the data is not empty and the
    limit is not reached. *)
Theorem page_iteration_goes_on (role_label search_location_label : string)
    (normalized_locations : list string)
    (max_age_days per_role_limit per_page_limit : Z)
    (st st' : progress) (go : bool) (w w' : world) :
  page_iteration env role_label search_location_label normalized_locations
    max_age_days per_role_limit per_page_limit st w = Some (inr (st', go), w') ->
  let payload :=
    build_payload role_label normalized_locations max_age_days (page st)
      (Z.max 1 (Z.min per_page_limit (per_role_limit - total_collected st))) in
  exists outcome w1,
    attempt (search_jobs env payload) w = Some (inr outcome, w1) /\
    go = match outcome with
         | inl _ => false
         | inr response =>
             truthy (data_of response)
             && Z.ltb (total_collected st') per_role_limit
             && negb (is_False (has_more_of response))
         end /\
    page st' = (if go then page st + 1 else page st) /\
    (forall response md,
        outcome = inr response -> metadata_of response = VDict md ->
        assoc "has_more" md = None ->
        go = truthy (data_of response) && Z.ltb (total_collected st') per_role_limit).
Proof.
  intros H payload. unfold page_iteration in H. fold payload in H.
  apply bind_inv in H as [(e & _ & [=])|(outcome & w1 & Hs & H)].
  exists outcome, w1. split; [done|].
  destruct outcome as [e|response].
  { munfold. injection H as <- <- <-. repeat split; try done. }
  unfold has_more_of.
  destruct (truthy (data_of response)) eqn:Hd; simpl in H.
  2:{ munfold. injection H as <- <- <-. repeat split; try done.
      intros ? ? [= <-] _ _. by rewrite Hd. }
  apply bind_inv in H as [(e & _ & [=])|(md & w2 & Hmd & H)].
  unfold as_dict in Hmd. destruct (metadata_of response) eqn:Hm; try (munfold; discriminate).
  munfold. injection Hmd as <- <-.
  fold (@mbind M _) in H.
  revert H. munfold.
  destruct (number _ w1) as [[[e|credits] w3]|]; try discriminate.
  destruct (iterate _ w3) as [[[e|jobs] w4]|]; try discriminate.
  destruct (job_loop _ _ _ _ _ _ w4) as [[[e|collected] w5]|]; try discriminate.
  destruct (Z.geb collected per_role_limit) eqn:Hc.
  - intros [= <- <- <-]. simpl.
    assert (Z.ltb collected per_role_limit = false) as -> by lia.
    repeat split; try done. intros ? ? [= <-] _ _. by rewrite Hd.
  - assert (Z.ltb collected per_role_limit = true) as Hlt by lia.
    destruct (is_False (get fields "has_more")) eqn:Hf.
    + intros [= <- <- <-]. simpl. rewrite Hlt. repeat split; try done.
      intros ? md [= <-]. rewrite Hm. intros [= <-] Habs.
      rewrite is_False_absent in Hf; done.
    + intros [= <- <- <-]. simpl. rewrite Hlt. repeat split; try done.
      intros ? md [= <-] _ _. by rewrite Hd.
Qed.
End Paging.

Lemma page_iteration_goes_on_witness :
  exists st' go w',
    JobCollectionService.page_iteration Fixtures.env_no_has_more
      "Backend Developer" "" [] 7 5 5
      (JobCollectionService.mk_progress 0 0 0 1) Fixtures.w0
      = Some (inr (st', go), w') /\
    go = true /\
    JobCollectionService.page st' = 2.
Proof.
  assert (outcome_of
            (JobCollectionService.page_iteration Fixtures.env_no_has_more
               "Backend Developer" "" [] 7 5 5
               (JobCollectionService.mk_progress 0 0 0 1) Fixtures.w0)
          = Some (inr (JobCollectionService.mk_progress 1 1 0 2, true))) as Hrun
    by (vm_compute; reflexivity).
  destruct (JobCollectionService.page_iteration _ _ _ _ _ _ _ _ _)
    as [[[e|[st' go]] w']|] eqn:E; try discriminate Hrun.
  injection Hrun as -> ->.
  exists (JobCollectionService.mk_progress 1 1 0 2), true, w'.
  split; [reflexivity|].
  destruct (page_iteration_goes_on _ _ _ _ _ _ _ _ _ _ _ _ E)
    as (outcome & w1 & Ha & Hgo & Hpage & Habsent).
  split; [reflexivity|]. exact Hpage.
Defined.

(** C6, the claim as stated fails: the first page comes with metadata
    that has no [has_more] key, one job is collected of the five asked
    for, and the loop asks for page 2; with [has_more] explicitly false
    the same upstream is asked for page 1 only. *)
Lemma collect_asks_next_page_without_has_more :
  observe JobCollectionService.requested_pages
    (JobCollectionService.collect_jobs_for_roles 5 Fixtures.env_no_has_more
       ["Backend Developer"] None 7 5 Fixtures.w0)
    = Some [Some (VInt 1); Some (VInt 2)] /\
  observe JobCollectionService.requested_pages
    (JobCollectionService.collect_jobs_for_roles 5 Fixtures.env_has_more_false
       ["Backend Developer"] None 7 5 Fixtures.w0)
    = Some [Some (VInt 1)].
Proof. split; vm_compute; reflexivity. Qed.

(** ** Case and blanks *)

Lemma lower_ascii_idemp c : lower_ascii (lower_ascii c) = lower_ascii c.
Proof. destruct c as [[] [] [] [] [] [] [] []]; reflexivity. Qed.

Lemma is_space_lower_ascii c : is_space (lower_ascii c) = is_space c.
Proof. destruct c as [[] [] [] [] [] [] [] []]; reflexivity. Qed.

Lemma lower_idemp s : lower (lower s) = lower s.
Proof. induction s as [|c s IH]; simpl; [done|]. by rewrite lower_ascii_idemp, IH. Qed.

Lemma lower_lstrip s : lower (lstrip s) = lstrip (lower s).
Proof.
  induction s as [|c s IH]; simpl; [done|].
  rewrite is_space_lower_ascii. by destruct (is_space c).
Qed.

Lemma lower_rstrip s : lower (rstrip s) = rstrip (lower s).
Proof.
  induction s as [|c s IH]; simpl; [done|].
  rewrite <- IH, is_space_lower_ascii.
  destruct (rstrip s); simpl; [by destruct (is_space c)|done].
Qed.

Lemma lower_strip s : lower (strip s) = strip (lower s).
Proof. unfold strip. by rewrite lower_rstrip, lower_lstrip. Qed.

(** ** compute_user_coverage *)

Section Coverage.
Import GapService.
Context (env : Env).

Lemma existsb_normalized user_skills name :
  existsb (fun user_skill => String.eqb (lower user_skill) name)
    (normalize_user_skills user_skills)
  = existsb
      (fun s => negb (blank s) && negb (blank (strip s))
                && String.eqb (strip (lower s)) name)
      user_skills.
Proof.
  unfold normalize_user_skills.
  induction user_skills as [|s l IH]; [done|].
  rewrite filter_cons. simpl.
  destruct (decide _) as [Hs|Hs].
  - rewrite fmap_cons. simpl. rewrite IH, Hs. simpl.
    by rewrite <- lower_strip, lower_idemp, lower_strip.
  - rewrite IH. apply not_true_is_false in Hs. by rewrite Hs.
Qed.

Lemma coverage_loop user_skills required acc :
  let has := fun req =>
    existsb (fun user_skill => String.eqb (lower user_skill) (skill_name env req))
      user_skills in
  foldl (coverage_step env user_skills) acc required =
  mk_acc
    (skill_gap_items acc ++
       ((fun req => mk_gap_item (skill_name env req) (percentage req) (has req))
          <$> required))%list
    (missing_skills acc ++
       (skill_name env <$> filter (fun req => has req = false) required))%list
    (skills_have acc + Z.of_nat (length (filter (fun req => has req = true) required))).
Proof.
  intros has. revert acc. induction required as [|r l IH]; intros acc; simpl.
  - rewrite !app_nil_r, Z.add_0_r. by destruct acc.
  - rewrite IH. unfold coverage_step. fold (has r).
    rewrite !filter_cons.
    destruct (has r) eqn:Hr; simpl.
    + destruct (decide (true = false)) as [?|_]; [done|].
      destruct (decide (true = true)) as [_|?]; [|done].
      rewrite <- !app_assoc. simpl. f_equal. lia.
    + destruct (decide (false = false)) as [_|?]; [|done].
      destruct (decide (false = true)) as [?|_]; [done|].
      rewrite <- !app_assoc. simpl. done.
Qed.

(** C9.  For a non-empty list of required skills, a required skill is
    matched when one of the user's skills that is not blank equals the
    name it comes with, letter case and surrounding blanks apart, on
    both sides; [skill_match_count] is the number of matched required
    skills, the total is the number of required skills, the coverage is
    their quotient times 100 (in binary64), and the missing list holds
    the names of the unmatched ones, in lower case and stripped, in
    order.  With an empty list the result is the all-empty, all-zero
    one.  Three matched of four give 75.0, 3, and the one missing
    skill, whatever the case the names are written in. *)
Theorem compute_user_coverage_arithmetic
    (user_skills : list string) (r : RequiredSkill) (rest : list RequiredSkill) :
  let required := r :: rest in
  let has := user_has_skill env user_skills in
  let name := fun req => strip (lower (given_name env req)) in
  let matched := Z.of_nat (length (filter (fun req => has req = true) required)) in
  let total := Z.of_nat (length required) in
  compute_user_coverage env user_skills required =
    ((fun req => mk_gap_item (name req) (percentage req) (has req)) <$> required,
     name <$> filter (fun req => has req = false) required,
     PrimFloat.mul
       (PrimFloat.div (PrimFloat.of_uint63 (Uint63.of_Z matched))
          (PrimFloat.of_uint63 (Uint63.of_Z total)))
       100%float,
     matched, total) /\
  compute_user_coverage env user_skills [] = ([], [], 0%float, 0, 0) /\
  (let '(items, missing, coverage, skill_match_count, total_required) :=
     compute_user_coverage env Fixtures.three_of_four Fixtures.four_required in
   (item_skill <$> items, user_has <$> items, missing, coverage,
    skill_match_count, total_required))
  = (["python"; "react"; "docker"; "aws"], [true; true; true; false],
     ["aws"], 75%float, 3, 4).
Proof.
  intros required has name matched total. split; [|split; [reflexivity|]].
  - unfold compute_user_coverage. subst required.
    rewrite coverage_loop. cbn [skill_gap_items missing_skills skills_have].
    fold total.
    assert (Z.ltb 0 total = true) as ->
      by (apply Z.ltb_lt; subst total; rewrite length_cons; lia).
    rewrite Z.add_0_l, !app_nil_l.
    assert (forall req, skill_name env req = name req) as Hname by reflexivity.
    assert (forall req,
      existsb (fun user_skill => String.eqb (lower user_skill) (skill_name env req))
        (normalize_user_skills user_skills) = has req) as Hhas.
    { intros req. rewrite existsb_normalized, Hname. reflexivity. }
    assert (forall l : list RequiredSkill,
      filter (fun req => existsb (fun user_skill => String.eqb (lower user_skill) (skill_name env req))
        (normalize_user_skills user_skills) = true) l = filter (fun req => has req = true) l) as Hf1.
    { intros l. apply list_filter_iff. intros req. by rewrite Hhas. }
    assert (forall l : list RequiredSkill,
      filter (fun req => existsb (fun user_skill => String.eqb (lower user_skill) (skill_name env req))
        (normalize_user_skills user_skills) = false) l = filter (fun req => has req = false) l) as Hf2.
    { intros l. apply list_filter_iff. intros req. by rewrite Hhas. }
    rewrite Hf1, Hf2. fold matched.
    assert (forall l : list RequiredSkill,
      (fun req => mk_gap_item (skill_name env req) (percentage req)
         (existsb (fun user_skill => String.eqb (lower user_skill) (skill_name env req))
            (normalize_user_skills user_skills))) <$> l
      = (fun req => mk_gap_item (name req) (percentage req) (has req)) <$> l)
      as Hitems.
    { intros l. apply list_fmap_ext. intros _ req _. by rewrite Hhas, Hname. }
    rewrite Hitems. reflexivity.
  - vm_compute. reflexivity.
Qed.

End Coverage.

(** ** Equality of values *)

Section ValueInd.
Context (P : value -> Prop).
Context (HNone : P VNone) (HBool : forall b, P (VBool b))
  (HInt : forall n, P (VInt n)) (HStr : forall s, P (VStr s))
  (HTime : forall t, P (VTime t))
  (HList : forall l, Forall P l -> P (VList l))
  (HDict : forall d, Forall (fun kv => P kv.2) d -> P (VDict d)).

Fixpoint value_rect' (v : value) : P v :=
  match v with
  | VNone => HNone
  | VBool b => HBool b
  | VInt n => HInt n
  | VStr s => HStr s
  | VTime t => HTime t
  | VList l =>
      HList l
        ((fix go (l : list value) : Forall P l :=
            match l with
            | [] => @List.Forall_nil _ P
            | x :: l' => @List.Forall_cons _ P x l' (value_rect' x) (go l')
            end) l)
  | VDict d =>
      HDict d
        ((fix go (d : list (string * value)) : Forall (fun kv => P kv.2) d :=
            match d with
            | [] => @List.Forall_nil _ (fun kv => P kv.2)
            | kv :: d' =>
                @List.Forall_cons _ (fun kv => P kv.2) kv d' (value_rect' kv.2) (go d')
            end) d)
  end.

End ValueInd.

Lemma value_eqb_eq (a b : value) : value_eqb a b = true <-> a = b.
Proof.
  revert b. induction a as [| | | | |l IH|d IH] using value_rect';
    intros c; destruct c; simpl; try (split; [discriminate|congruence]).
  - done.
  - rewrite Bool.eqb_true_iff. split; congruence.
  - rewrite Z.eqb_eq. split; congruence.
  - rewrite String.eqb_eq. split; congruence.
  - rewrite Z.eqb_eq. split; congruence.
  - revert items. induction IH as [|x l Hx _ IHl]; intros [|y ys];
      try (split; [discriminate|congruence]); [done|].
    rewrite andb_true_iff, Hx, IHl. split; [intros [-> [= ->]]; done|].
    intros [= -> ->]. done.
  - revert fields. induction IH as [|[k x] l Hx _ IHl]; intros [|[k' y] ys];
      try (split; [discriminate|congruence]); [done|].
    simpl in Hx. rewrite !andb_true_iff, String.eqb_eq, Hx, IHl.
    split; [intros [[-> ->] [= ->]]; done|].
    intros [= -> -> ->]. done.
Qed.

Lemma value_eqb_refl (a : value) : value_eqb a a = true.
Proof. by apply value_eqb_eq. Qed.

#[global] Instance value_eq_dec : EqDecision value.
Proof.
  intros a b. destruct (value_eqb a b) eqn:E.
  - left. by apply value_eqb_eq.
  - right. intros H. apply value_eqb_eq in H. congruence.
Defined.

(** ** Values as the store keeps them *)


Lemma bson_datetime_le t : bson_datetime t <= t.
Proof. unfold bson_datetime. rewrite Z.mul_comm. by apply Z.mul_div_le. Qed.

Lemma bson_datetime_mono a b : a <= b -> bson_datetime a <= bson_datetime b.
Proof.
  intros H. unfold bson_datetime.
  apply Z.mul_le_mono_nonneg_r; [done|]. by apply Z.div_le_mono.
Qed.


Lemma lookup_bson_doc (d : gmap string value) k : bson_doc d !! k = bson <$> (d !! k).
Proof. apply lookup_fmap. Qed.

Lemma mget_bson_doc (d : gmap string value) k : mget (bson_doc d) k = bson (mget d k).
Proof. unfold mget. rewrite lookup_bson_doc. by destruct (d !! k). Qed.

(** ** Grouping and counting *)

Section Groups.
Import GapService.

Lemma group_lookup_add key key' groups :
  group_lookup key' (add_to_group key groups)
  = group_lookup key' groups + (if value_eqb key key' then 1 else 0).
Proof.
  induction groups as [|[k n] rest IH]; simpl.
  - by destruct (value_eqb key key').
  - destruct (value_eqb k key) eqn:Ek; simpl.
    + apply value_eqb_eq in Ek as ->.
      destruct (value_eqb key key'); lia.
    + destruct (value_eqb k key') eqn:Ek'; [|done].
      destruct (value_eqb key key') eqn:E2; [|lia].
      apply value_eqb_eq in Ek', E2. subst.
      by rewrite value_eqb_refl in Ek.
Qed.

Lemma occurrences_cons tag t tags :
  occurrences tag (t :: tags)
  = (if value_eqb t tag then 1 else 0) + occurrences tag tags.
Proof.
  unfold occurrences. rewrite filter_cons.
  destruct (decide _) as [->|Hn]; simpl length; [lia|].
  apply not_true_is_false in Hn. rewrite Hn. lia.
Qed.


Lemma occurrences_nonneg tag tags : 0 <= occurrences tag tags.
Proof. unfold occurrences. lia. Qed.

Lemma occurrences_pos tag tags : 0 < occurrences tag tags <-> tag ∈ tags.
Proof.
  induction tags as [|t l IH].
  - unfold occurrences. simpl. split; [lia|]. by intros ?%elem_of_nil.
  - rewrite occurrences_cons, elem_of_cons.
    pose proof (occurrences_nonneg tag l).
    destruct (value_eqb t tag) eqn:E.
    + apply value_eqb_eq in E as ->. split; [by left|lia].
    + rewrite Z.add_0_l, IH. split; [by right|].
      intros [->|?]; [|done]. by rewrite value_eqb_refl in E.
Qed.

Lemma group_lookup_foldl key groups keys :
  group_lookup key (foldl (fun g k => add_to_group k g) groups keys)
  = group_lookup key groups + occurrences key keys.
Proof.
  revert groups. induction keys as [|k l IH]; intros groups; simpl.
  - unfold occurrences. simpl. lia.
  - rewrite IH, group_lookup_add, occurrences_cons. lia.
Qed.

Lemma add_to_group_keys key groups k :
  k ∈ (add_to_group key groups).*1 <-> k = key \/ k ∈ groups.*1.
Proof.
  induction groups as [|[k0 n] rest IH]; simpl.
  - rewrite list_elem_of_singleton, elem_of_nil. tauto.
  - destruct (value_eqb k0 key) eqn:E; simpl.
    + apply value_eqb_eq in E as ->. rewrite elem_of_cons. tauto.
    + rewrite !elem_of_cons, IH. tauto.
Qed.

Lemma add_to_group_well key groups :
  well_grouped groups -> well_grouped (add_to_group key groups).
Proof.
  intros [Hnd Hpos]. induction groups as [|[k0 n] rest IH]; simpl.
  - split; [apply NoDup_singleton|]. repeat constructor.
  - apply NoDup_cons in Hnd as [Hk0 Hnd]. apply Forall_cons in Hpos as [Hn Hpos].
    destruct (value_eqb k0 key) eqn:E.
    + split; [by apply NoDup_cons|]. apply Forall_cons. simpl in *. split; [lia|done].
    + destruct (IH Hnd Hpos) as [Hnd' Hpos']. split.
      * simpl. apply NoDup_cons. split; [|done].
        rewrite add_to_group_keys. intros [->|?]; [|done].
        by rewrite value_eqb_refl in E.
      * by apply Forall_cons.
Qed.

Lemma foldl_add_well groups keys :
  well_grouped groups ->
  well_grouped (foldl (fun g k => add_to_group k g) groups keys).
Proof.
  revert groups. induction keys as [|k l IH]; intros groups H; simpl; [done|].
  by apply IH, add_to_group_well.
Qed.

Lemma elem_of_well_grouped groups k n :
  well_grouped groups ->
  (k, n) ∈ groups <-> 0 < n /\ group_lookup k groups = n.
Proof.
  intros [Hnd Hpos]. induction groups as [|[k0 n0] rest IH]; simpl.
  - rewrite elem_of_nil. split; [done|lia].
  - apply NoDup_cons in Hnd as [Hk0 Hnd]. apply Forall_cons in Hpos as [Hn Hpos].
    simpl in *. rewrite elem_of_cons, (IH Hnd Hpos).
    destruct (value_eqb k0 k) eqn:E.
    + apply value_eqb_eq in E as ->. split.
      * intros [Heq|[Hn' Hl]]; [by inversion Heq; subst|].
        exfalso. apply Hk0. apply list_elem_of_fmap. exists (k, n). split; [done|].
        apply (IH Hnd Hpos). done.
      * intros [? ->]. by left.
    + split.
      * intros [Heq|?]; [|done]. inversion Heq; subst.
        by rewrite value_eqb_refl in E.
      * intros ?. by right.
Qed.

Lemma elem_of_group_count keys k n :
  (k, n) ∈ group_count keys <-> k ∈ keys /\ n = occurrences k keys.
Proof.
  unfold group_count. rewrite elem_of_well_grouped.
  - rewrite group_lookup_foldl. simpl. rewrite <- occurrences_pos.
    split; [intros [? <-]; split; [lia|lia]|intros [? ->]; by split].
  - apply foldl_add_well. split; constructor.
Qed.

End Groups.

(** ** get_role_required_skills *)

Section RoleSkills.
Import GapService.
Context (env : Env).

Lemma count_where_eq p w :
  count_where p w =
  Some (inr (Z.of_nat (length (filter (fun d => p d = true) (store w)))),
        set_db_log (fun l => (l ++ [DbCount])%list) w).
Proof. reflexivity. Qed.

Lemma elem_of_required_of total threshold results entry :
  entry ∈ required_of env total threshold results <->
  total <> 0 /\
  exists tag count,
    (tag, count) ∈ results /\
    meets_threshold (percentage_of count total) threshold = true /\
    entry = mk_required_skill tag tag count (round2 env (percentage_of count total)) total.
Proof.
  induction results as [|[tag count] rest IH]; simpl.
  - rewrite elem_of_nil. split; [done|]. by intros (_ & ? & ? & ?%elem_of_nil & _).
  - destruct (Z.eqb_spec total 0) as [->|Hne].
    + rewrite IH. split; intros (? & _); done.
    + destruct (meets_threshold _ _) eqn:Hm.
      * rewrite elem_of_cons, IH. split.
        -- intros [->|(_ & t & c & Hin & Hmt & ->)]; (split; [done|]).
           ++ exists tag, count. split; [by left|done].
           ++ exists t, c. split; [by right|done].
        -- intros (_ & t & c & Hin & Hmt & ->).
           apply elem_of_cons in Hin as [[= -> ->]|Hin]; [by left|].
           right. split; [done|]. by exists t, c.
      * rewrite IH. split.
        -- intros (_ & t & c & Hin & Hmt & ->). split; [done|].
           exists t, c. split; [by right|done].
        -- intros (_ & t & c & Hin & Hmt & ->). split; [done|].
           apply elem_of_cons in Hin as [[= -> ->]|Hin]; [congruence|].
           by exists t, c.
Qed.

Lemma unwind_without_slugs d : has_tech_slugs d = false -> unwind d = [].
Proof.
  unfold has_tech_slugs, unwind.
  destruct (d !! "technology_slugs") as [[| | | | |[|]|]|]; done.
Qed.

Lemma bind_unwind_nil (docs : list (gmap string value)) :
  Forall (fun d => has_tech_slugs d = false) docs -> docs ≫= unwind = [].
Proof.
  induction 1 as [|d l Hd _ IH]; [done|].
  rewrite bind_cons, IH, (unwind_without_slugs d Hd). done.
Qed.

(** The filters of the code select what the specification describes. *)
Lemma matches_in_words cutoff role d :
  matches cutoff role BySearchKeywords d = in_window cutoff d && collected_for role d /\
  matches cutoff role ByTitle d = in_window cutoff d && titled role d.
Proof. split; reflexivity. Qed.

Lemma matched_postings_eq cutoff role docs :
  matched_postings cutoff role docs =
  match filter (fun d => matches cutoff role BySearchKeywords d = true) docs with
  | [] => filter (fun d => matches cutoff role ByTitle d = true) docs
  | by_keywords => by_keywords
  end.
Proof.
  unfold matched_postings.
  rewrite (list_filter_iff
             (fun d => in_window cutoff d && collected_for role d = true)
             (fun d => matches cutoff role BySearchKeywords d = true))
    by (intros d; by rewrite (proj1 (matches_in_words cutoff role d))).
  rewrite (list_filter_iff
             (fun d => in_window cutoff d && titled role d = true)
             (fun d => matches cutoff role ByTitle d = true))
    by (intros d; by rewrite (proj2 (matches_in_words cutoff role d))).
  reflexivity.
Qed.

Lemma matched_postings_subset cutoff role docs d :
  d ∈ matched_postings cutoff role docs -> d ∈ docs.
Proof.
  unfold matched_postings.
  destruct (filter _ docs) eqn:E.
  - by intros [_ ?]%list_elem_of_filter.
  - rewrite <- E. by intros [_ ?]%list_elem_of_filter.
Qed.

(** The result of the computation, whatever the branch taken: the
    threshold filter over the sorted groups of the matched postings. *)
Lemma compute_role_required_skills_eq role days threshold w cutoff :
  days_before (clock env (ticks w)) days = inr cutoff ->
  let matched := matched_postings cutoff (strip role) (store w) in
  let total := Z.of_nat (length matched) in
  let results := merge_sort count_desc (group_count (matched ≫= unwind)) in
  exists w' ops,
    compute_role_required_skills env role days threshold w
      = Some (inr (required_of env total threshold results), w') /\
    store w' = store w /\
    db_log w' = (db_log w ++ ops)%list /\
    (Forall (fun d => has_tech_slugs d = false) (store w) ->
       (DbAggregate ∉ ops) /\ cache w' = cache w).
Proof.
  intros Hcutoff matched total results.
  unfold compute_role_required_skills. munfold. cbn [ticks set_ticks].
  rewrite Hcutoff.
  unfold count_where, aggregate, first_or_none. munfold. simpl.
  set (kw := filter (fun d => matches cutoff (strip role) BySearchKeywords d = true) (store w)).
  set (ti := filter (fun d => matches cutoff (strip role) ByTitle d = true) (store w)).
  set (sl := filter (fun d => has_tech_slugs d = true) (store w)).
  assert (Hsl : Forall (fun d => has_tech_slugs d = false) (store w) -> sl = []).
  { intros Hall. subst sl. induction Hall as [|d l Hd _ IH]; [done|].
    rewrite filter_cons. destruct (decide _); [congruence|done]. }
  assert (Hnil : sl = [] -> Forall (fun d => has_tech_slugs d = false) (store w)).
  { subst sl. intros Hs. apply Forall_forall. intros d Hd.
    destruct (has_tech_slugs d) eqn:E; [|done].
    assert (d ∈ filter (fun d => has_tech_slugs d = true) (store w))
      by (by apply list_elem_of_filter).
    rewrite Hs in H. by apply elem_of_nil in H. }
  assert (Hres : sl = [] -> results = []).
  { intros Hs. subst results. rewrite bind_unwind_nil; [done|].
    apply Forall_forall. intros d Hd%matched_postings_subset.
    by apply (proj1 (Forall_forall _ _) (Hnil Hs)). }
  assert (matched =
          match filter (fun d => matches cutoff (strip role) BySearchKeywords d = true)
                  (store w) with
          | [] => filter (fun d => matches cutoff (strip role) ByTitle d = true) (store w)
          | by_keywords => by_keywords
          end) as Hmatched by apply matched_postings_eq.
  clearbody matched.
  destruct (Z.eqb_spec (Z.of_nat (length kw)) 0) as [Hz|Hz]; simpl.
  - assert (kw = []) as Hkw by (destruct kw; [done|simpl in Hz; lia]).
    assert (matched = ti) as Hm by (subst matched; fold kw; by rewrite Hkw).
    fold sl. destruct (Z.eqb_spec (Z.of_nat (length sl)) 0) as [Hs|Hs]; simpl.
    + assert (sl = []) as Hsn by (destruct sl; [done|simpl in Hs; lia]).
      rewrite (Hres Hsn). simpl.
      eexists _, _. split; [reflexivity|]. simpl. split; [done|].
      split; [by rewrite <- !app_assoc|].
      intros _. split; [|done]. simpl. intros Hin.
      repeat (apply elem_of_cons in Hin as [Hin|Hin]; [discriminate|]).
      by apply elem_of_nil in Hin.
    + assert (sl <> []) as Hsn by (intros ->; simpl in Hs; lia).
      fold ti. rewrite <- Hm. fold results. fold total.
      destruct results eqn:Er.
      * eexists _, _. split; [reflexivity|]. simpl. split; [done|].
        split; [by rewrite <- !app_assoc|]. intros Hall. by apply Hsl in Hall.
      * eexists _, _. split; [reflexivity|]. simpl. split; [done|].
        split; [by rewrite <- !app_assoc|]. intros Hall. by apply Hsl in Hall.
  - assert (matched = kw) as Hm.
    { subst matched. fold kw.
      destruct kw; [simpl in Hz; lia|done]. }
    fold sl. destruct (Z.eqb_spec (Z.of_nat (length sl)) 0) as [Hs|Hs]; simpl.
    + assert (sl = []) as Hsn by (destruct sl; [done|simpl in Hs; lia]).
      rewrite (Hres Hsn). simpl.
      eexists _, _. split; [reflexivity|]. simpl. split; [done|].
      split; [by rewrite <- !app_assoc|].
      intros _. split; [|done]. simpl. intros Hin.
      repeat (apply elem_of_cons in Hin as [Hin|Hin]; [discriminate|]).
      by apply elem_of_nil in Hin.
    + assert (sl <> []) as Hsn by (intros ->; simpl in Hs; lia).
      fold kw. rewrite <- Hm. fold results. fold total.
      destruct results eqn:Er.
      * eexists _, _. split; [reflexivity|]. simpl. split; [done|].
        split; [by rewrite <- !app_assoc|]. intros Hall. by apply Hsl in Hall.
      * eexists _, _. split; [reflexivity|]. simpl. split; [done|].
        split; [by rewrite <- !app_assoc|]. intros Hall. by apply Hsl in Hall.
Qed.

(** A window that starts before year 1, or after year 9999: the
    subtraction raises, after the clock was read. *)
Lemma compute_role_required_skills_overflow role days threshold w e :
  days_before (clock env (ticks w)) days = inl e ->
  compute_role_required_skills env role days threshold w = Some (inl e, set_ticks S w).
Proof.
  intros Hcutoff. unfold compute_role_required_skills. munfold. cbn [ticks set_ticks].
  by rewrite Hcutoff.
Qed.

(** When the cache has no entry the result is computed; the error of a
    window out of range is caught and gives the empty list. *)
Lemma get_role_required_skills_miss role days threshold w :
  cache w !! cache_key env role days threshold = None ->
  get_role_required_skills env role days threshold w
  = match days_before (clock env (ticks w)) days with
    | inr _ => compute_role_required_skills env role days threshold w
    | inl _ => Some (inr [], set_ticks S w)
    end.
Proof.
  intros Hmiss. unfold get_role_required_skills.
  unfold mbind at 1. unfold M_bind, bind, get_world. rewrite Hmiss.
  unfold try_except.
  destruct (days_before (clock env (ticks w)) days) as [e|cutoff] eqn:Hcutoff.
  - by rewrite (compute_role_required_skills_overflow _ _ _ _ _ Hcutoff).
  - destruct (compute_role_required_skills_eq role days threshold w cutoff Hcutoff)
      as (w' & ops & -> & _). done.
Qed.





(** C10.  When the answer is not taken from the cache and no posting in
    the store has a non-empty [technology_slugs] field, the result is
    the empty list whatever postings match the role and the window: the
    store is only asked for counts and a sample, never for the
    aggregation, and nothing is cached. *)
Theorem get_role_required_skills_without_slugs
    (role : string) (days : Z) (threshold : float) (w : world) :
  cache w !! cache_key env role days threshold = None ->
  Forall (fun d => has_tech_slugs d = false) (store w) ->
  exists w' ops,
    get_role_required_skills env role days threshold w = Some (inr [], w') /\
    store w' = store w /\
    cache w' = cache w /\
    db_log w' = (db_log w ++ ops)%list /\
    (DbAggregate ∉ ops).
Proof.
  intros Hmiss Hall.
  rewrite (get_role_required_skills_miss _ _ _ _ Hmiss).
  destruct (days_before (clock env (ticks w)) days) as [e|cutoff] eqn:Hcutoff.
  - exists (set_ticks S w), []. split; [done|]. split; [done|]. split; [done|].
    split; [by rewrite app_nil_r|]. apply not_elem_of_nil.
  - destruct (compute_role_required_skills_eq role days threshold w cutoff Hcutoff)
      as (w' & ops & Hc & Hst & Hlog & Hno).
    destruct (Hno Hall) as [Hagg Hcache].
    exists w', ops. split; [|done].
    rewrite Hc. do 3 f_equal.
    rewrite bind_unwind_nil; [done|].
    apply Forall_forall. intros d Hd%matched_postings_subset.
    by apply (proj1 (Forall_forall _ _) Hall).
Qed.

(** C10, the claim as stated fails: with an entry in the cache the list
    cached is the answer, here [A], although no posting stored has a
    technology tag. *)
Example get_role_required_skills_cached_without_slugs :
  forallb (fun d => negb (has_tech_slugs d)) Fixtures.store_without_slugs = true /\
  skills_of (outcome_of
    (get_role_required_skills Fixtures.env_200 "Backend Developer" 30 0.25%float
       (Fixtures.with_cache_entry "role_skills_backend developer_30_t"
          [Fixtures.required_skill "A" 4 80] Fixtures.store_without_slugs)))
  = Some [VStr "A"].
Proof. split; vm_compute; reflexivity. Qed.

End RoleSkills.


Lemma get_role_required_skills_without_slugs_witness :
  length (GapService.matched_postings (0 - timedelta_days 30) "Backend Developer"
            Fixtures.store_without_slugs) = 2%nat /\
  exists w' ops,
    GapService.get_role_required_skills Fixtures.env_200 "Backend Developer" 30 0.25%float
      (Fixtures.with_store Fixtures.store_without_slugs) = Some (inr [], w') /\
    store w' = Fixtures.store_without_slugs /\
    cache w' = ∅ /\
    db_log w' = ops /\
    (DbAggregate ∉ ops).
Proof.
  split; [vm_compute; reflexivity|].
  apply (get_role_required_skills_without_slugs Fixtures.env_200
           "Backend Developer" 30 0.25%float
           (Fixtures.with_store Fixtures.store_without_slugs)).
  - vm_compute. reflexivity.
  - repeat constructor.
Defined.

(** ** What a run leaves unchanged *)

Section Leaves.
Context (R : relation world) `{!PreOrder R}.

Lemma leaves_ret {A} (a : A) : always_leaves R (mret a).
Proof. intros w r w' [= <- <-]. reflexivity. Qed.

Lemma leaves_raise {A} e : always_leaves R (@raise A e).
Proof. intros w r w' [= <- <-]. reflexivity. Qed.

Lemma leaves_cut_off {A} : always_leaves R (@cut_off A).
Proof. intros w r w' [=]. Qed.

Lemma leaves_lift {A} (x : exn + A) : always_leaves R (lift x).
Proof. destruct x; [apply leaves_raise|apply leaves_ret]. Qed.

Lemma leaves_get_world : always_leaves R get_world.
Proof. intros w r w' [= <- <-]. reflexivity. Qed.

Lemma leaves_modify f : (forall w, R w (f w)) -> always_leaves R (modify f).
Proof. intros Hf w r w' [= <- <-]. apply Hf. Qed.

Lemma leaves_bind {A B} (m : M A) (k : A -> M B) :
  always_leaves R m -> (forall a, always_leaves R (k a)) ->
  always_leaves R (m ≫= k).
Proof.
  intros Hm Hk w r w' H.
  apply bind_inv in H as [(e & H & _)|(a & w1 & H1 & H2)].
  - by apply Hm in H.
  - apply Hm in H1. apply Hk in H2. by etrans.
Qed.

Lemma leaves_attempt {A} (m : M A) :
  always_leaves R m -> always_leaves R (attempt m).
Proof.
  intros Hm w r w'. unfold attempt.
  destruct (m w) as [[x w1]|] eqn:E; [|done].
  intros [= <- <-]. by apply Hm in E.
Qed.

Lemma leaves_try_except {A} (m : M A) (h : exn -> M A) :
  always_leaves R m -> (forall e, always_leaves R (h e)) ->
  always_leaves R (try_except m h).
Proof.
  intros Hm Hh w r w'. unfold try_except.
  destruct (m w) as [[[e|a] w1]|] eqn:E; [| |done].
  - intros H. apply Hm in E. apply Hh in H. by etrans.
  - intros [= <- <-]. by apply Hm in E.
Qed.

End Leaves.

(** Takes a run apart along its binds and case distinctions, as far as
    they show. *)
Ltac leaves_step :=
  lazymatch goal with
  | |- PreOrder _ => apply _
  | |- always_leaves _ (mret _) => apply leaves_ret
  | |- always_leaves _ (raise _) => apply leaves_raise
  | |- always_leaves _ cut_off => apply leaves_cut_off
  | |- always_leaves _ (lift _) => apply leaves_lift
  | |- always_leaves _ get_world => apply leaves_get_world
  | |- always_leaves _ (mbind _ _) => apply leaves_bind; [| |intros ?]
  | |- always_leaves _ (attempt _) => apply leaves_attempt
  | |- always_leaves _ (try_except _ _) => apply leaves_try_except; [| |intros ?]
  | |- always_leaves _ (match ?x with _ => _ end) => destruct x
  | |- always_leaves _ (let _ := _ in _) => cbv zeta
  end.

Ltac leaves := repeat leaves_step.

#[global] Instance keeps_store_preorder : PreOrder keeps_store.
Proof.
  split; [by repeat split|].
  intros w1 w2 w3 (?&?&?) (?&?&?). repeat split; congruence.
Qed.

#[global] Instance keeps_upserts_preorder : PreOrder keeps_upserts.
Proof. split; [done|]. intros w1 w2 w3 ? ?. unfold keeps_upserts in *. congruence. Qed.

#[global] Instance upserts_grow_by_preorder P : PreOrder (upserts_grow_by P).
Proof.
  split.
  - intros w. exists []. by rewrite app_nil_r.
  - intros w1 w2 w3 (l1 & H1 & F1) (l2 & H2 & F2). exists (l1 ++ l2)%list.
    split; [by rewrite H2, H1, app_assoc|]. by apply Forall_app.
Qed.

Lemma leaves_weaken {A} (R R' : relation world) (m : M A) :
  (forall w w', R w w' -> R' w w') -> always_leaves R m -> always_leaves R' m.
Proof. intros HR Hm w r w' H. by apply HR, (Hm _ _ _ H). Qed.

Lemma keeps_store_upserts w w' : keeps_store w w' -> keeps_upserts w w'.
Proof. by intros (_ & ? & _). Qed.

Lemma keeps_upserts_grow P w w' : keeps_upserts w w' -> upserts_grow_by P w w'.
Proof. intros H. exists []. by rewrite app_nil_r. Qed.

(** ** Postings without an identifier *)

Section Rejection.
Import TheirStackClient JobCollectionService.
Context (env : Env).

Lemma utcnow_keeps_store : always_leaves keeps_store (utcnow env).
Proof. intros w r w' [= <- <-]. by repeat split. Qed.

Lemma should_skip_job_pure role title w r w' :
  _should_skip_job role title w = Some (r, w') ->
  w' = w /\ (r = inl AttributeError \/ exists b, r = inr b).
Proof.
  unfold _should_skip_job. munfold.
  destruct (truthy title); simpl; [|intros [= <- <-]; eauto].
  destruct title; try (intros [= <- <-]; eauto).
  destruct (_ && _); intros [= <- <-]; eauto.
Qed.

Lemma should_skip_job_total role title w :
  exists r, _should_skip_job role title w = Some (r, w) /\
            (r = inl AttributeError \/ exists b, r = inr b).
Proof.
  unfold _should_skip_job. munfold.
  destruct (truthy title); simpl; [|eauto].
  destruct title; eauto.
  destruct (_ && _); eauto.
Qed.

Lemma should_skip_job_keeps role title :
  always_leaves keeps_store (_should_skip_job role title).
Proof. intros w r w' [-> _]%should_skip_job_pure. reflexivity. Qed.

Lemma map_fields_keeps role label fields :
  always_leaves keeps_store (map_fields env role label fields).
Proof.
  unfold map_fields, as_dict. leaves. apply utcnow_keeps_store.
Qed.

Lemma map_job_keeps role label job :
  always_leaves keeps_store (_map_job env role label job).
Proof. unfold _map_job. leaves. apply map_fields_keeps. Qed.

Lemma map_job_identifiable role label job w mapped w' :
  _map_job env role label job w = Some (inr (Some mapped), w') ->
  identifiable mapped = true.
Proof.
  unfold _map_job. destruct job; munfold; try discriminate.
  destruct (map_fields env role label fields w) as [[[e|m] w1]|]; try discriminate.
  unfold identifiable.
  destruct (truthy (mget m "url")) eqn:Eu, (truthy (mget m "job_id")) eqn:Ej;
    simpl; intros H; inversion H; subst; by rewrite ?Eu, ?Ej.
Qed.

Lemma db_keeps_upserts op : always_leaves keeps_upserts (db op).
Proof. by intros w r w' [= <- <-]. Qed.

Lemma upsert_job_rest_keeps_upserts :
  always_leaves keeps_upserts (utcnow env) /\
  (forall k v, always_leaves keeps_upserts (JobPosting.find_one k v)) /\
  (forall d, always_leaves keeps_upserts (JobPosting.insert d)) /\
  (forall i d, always_leaves keeps_upserts (JobPosting.save i d)) /\
  (forall d, always_leaves keeps_upserts (JobPosting.new env d)) /\
  (forall d d', always_leaves keeps_upserts (JobPosting.setattrs d d')).
Proof.
  assert (always_leaves keeps_upserts (utcnow env)) as Hnow
    by (by intros w r w' [= <- <-]).
  repeat split; [done|..]; intros.
  - unfold JobPosting.find_one. leaves. apply db_keeps_upserts.
  - unfold JobPosting.insert. leaves; [apply db_keeps_upserts|].
    apply leaves_modify. done.
  - unfold JobPosting.save. leaves; [apply db_keeps_upserts|].
    apply leaves_modify. done.
  - unfold JobPosting.new, JobPosting.with_utcnow_default. leaves; done.
  - unfold JobPosting.setattrs. leaves.
Qed.

Lemma bind_modify {B} f (k : unit -> M B) w : (modify f ≫= k) w = k tt (f w).
Proof. reflexivity. Qed.

Lemma upsert_job_upserts job_data w r w' :
  JobPosting.upsert_job env job_data w = Some (r, w') ->
  upserts w' = (upserts w ++ [job_data])%list.
Proof.
  destruct upsert_job_rest_keeps_upserts as (Hnow & Hfind & Hins & Hsave & Hnew & Hset).
  unfold JobPosting.upsert_job. rewrite bind_modify. intros H.
  match type of H with ?m _ = _ =>
    assert (always_leaves keeps_upserts m) as Hm by (leaves; auto)
  end.
  by apply Hm in H.
Qed.

Lemma search_jobs_keeps_store payload :
  always_leaves keeps_store (search_jobs env payload).
Proof.
  unfold search_jobs, _validate_payload, _post_with_retry. leaves.
  intros w r w' H. apply retrying_posts in H as (m & _ & _ & ? & _ & ? & ? & _).
  by repeat split.
Qed.

Lemma upsert_job_grows (P : gmap string value -> Prop) job_data :
  P job_data -> always_leaves (upserts_grow_by P) (JobPosting.upsert_job env job_data).
Proof.
  intros HP w r w' H%upsert_job_upserts. exists [job_data].
  split; [done|]. by apply Forall_singleton.
Qed.

Abbreviation grows := (upserts_grow_by (fun p => identifiable p = true)).

Lemma keeps_store_grows {A} (m : M A) :
  always_leaves keeps_store m -> always_leaves grows m.
Proof.
  apply leaves_weaken. intros w w' H.
  by apply keeps_upserts_grow, keeps_store_upserts.
Qed.

Lemma process_job_grows role label limit job total :
  always_leaves grows (process_job env role label limit job total).
Proof.
  intros w r w' H. unfold process_job in H.
  apply bind_inv in H as [(e & H & _)|(fields & w1 & Hd & H)].
  { revert H. unfold as_dict. munfold. destruct job; intros [=]; subst; reflexivity. }
  assert (w1 = w) as ->
    by (revert Hd; unfold as_dict; munfold; destruct job; intros [=]; by subst).
  apply bind_inv in H as [(e & [-> _]%should_skip_job_pure & _)
                          |(skip & w2 & [-> _]%should_skip_job_pure & H)];
    [reflexivity|].
  destruct skip; [by injection H as <- <-|].
  apply bind_inv in H as [(e & H & _)|([mapped|] & w1 & Hmap & H)].
  - by apply (keeps_store_grows _ (map_job_keeps role label _)) in H.
  - pose proof (map_job_identifiable _ _ _ _ _ _ Hmap) as Hid.
    apply (keeps_store_grows _ (map_job_keeps role label _)) in Hmap.
    etrans; [exact Hmap|].
    pose proof (leaves_attempt _ _
      (upsert_job_grows (fun p => identifiable p = true) mapped Hid)) as Hup'.
    apply bind_inv in H as [(e & H & _)|(outcome & w2 & Hup & H)].
    + by apply Hup' in H.
    + apply Hup' in Hup. by injection H as <- <-.
  - apply (keeps_store_grows _ (map_job_keeps role label _)) in Hmap.
    by injection H as <- <-.
Qed.

Lemma job_loop_grows role label limit data total :
  always_leaves grows (job_loop env role label limit data total).
Proof.
  revert total. induction data as [|job rest IH]; intros total; simpl; leaves.
  - apply process_job_grows.
  - apply IH.
Qed.

Lemma page_iteration_grows role label locations age limit per_page st :
  always_leaves grows (page_iteration env role label locations age limit per_page st).
Proof.
  unfold page_iteration, as_dict, number, iterate. leaves.
  - apply keeps_store_grows, search_jobs_keeps_store.
  - apply job_loop_grows.
Qed.

Lemma page_loop_grows budget role label locations age limit per_page st :
  always_leaves grows (page_loop budget env role label locations age limit per_page st).
Proof.
  revert st. induction budget as [|b IH]; intros st; simpl; leaves.
  - apply page_iteration_grows.
  - apply IH.
Qed.

Lemma collect_jobs_for_roles_grows budget roles locations age limit :
  always_leaves grows (collect_jobs_for_roles budget env roles locations age limit).
Proof.
  unfold collect_jobs_for_roles. destruct roles as [|role0 roles0]; [leaves|].
  generalize (role0 :: roles0). generalize (∅ : gmap string RoleSummary).
  intros summary l. revert summary.
  induction l as [|role rest IH]; intros summary; simpl; leaves.
  - unfold collect_role. leaves. apply page_loop_grows.
  - apply IH.
Qed.

(** C3.  A posting that has neither a truthy [job_id] nor a truthy [url]
    once its fields are mapped is rejected by [_map_job]; the loop body
    goes on to the next posting without calling [upsert_job] and without
    asking anything of the store.  And whatever a collection run
    receives, every posting it hands to [upsert_job] has an
    identifier. *)
Theorem unidentifiable_job_is_never_upserted
    (role label : string) (per_role_limit : Z) (fields : list (string * value))
    (total_collected : Z) (w : world) (mapped : gmap string value) (w1 : world) :
  map_fields env role label fields w = Some (inr mapped, w1) ->
  truthy (mget mapped "job_id") = false ->
  truthy (mget mapped "url") = false ->
  _map_job env role label (VDict fields) w = Some (inr None, w1) /\
  (exists r w2,
     process_job env role label per_role_limit (VDict fields) total_collected w
       = Some (r, w2) /\
     (r = inl AttributeError \/ r = inr (total_collected, false)) /\
     store w2 = store w /\ upserts w2 = upserts w /\ db_log w2 = db_log w) /\
  (forall budget roles locations max_age_days limit w0 r w',
     collect_jobs_for_roles budget env roles locations max_age_days limit w0
       = Some (r, w') ->
     exists l, upserts w' = (upserts w0 ++ l)%list /\
               Forall (fun p => identifiable p = true) l).
Proof.
  intros Hmap Hid Hurl.
  assert (_map_job env role label (VDict fields) w = Some (inr None, w1)) as Hrej.
  { unfold _map_job. munfold. rewrite Hmap, Hid, Hurl. reflexivity. }
  split; [done|]. split.
  - unfold process_job, as_dict. rewrite bind_ret_l.
    destruct (should_skip_job_total role
                (or_else (get fields "job_title") (get fields "title")) w)
      as (r0 & Es & [->|[b ->]]).
    + unfold mbind, M_bind, bind. rewrite Es.
      eexists _, _. split; [reflexivity|]. by repeat split; auto.
    + unfold mbind, M_bind, bind. rewrite Es. destruct b.
      * eexists _, _. split; [reflexivity|]. by repeat split; auto.
      * fold (@mbind M _). unfold mbind, M_bind, bind. rewrite Hrej.
        eexists _, _. split; [reflexivity|].
        apply map_fields_keeps in Hmap as (? & ? & ?). by repeat split; auto.
  - intros budget roles locations age limit w0 r w' H.
    by apply collect_jobs_for_roles_grows in H.
Qed.

End Rejection.

Lemma unidentifiable_job_is_never_upserted_witness :
  exists mapped w1,
    JobCollectionService.map_fields Fixtures.env_200 "Backend Developer" ""
      Fixtures.fields_without_identifier Fixtures.w0 = Some (inr mapped, w1) /\
    JobCollectionService._map_job Fixtures.env_200 "Backend Developer" ""
      (VDict Fixtures.fields_without_identifier) Fixtures.w0 = Some (inr None, w1) /\
    exists r w2,
      JobCollectionService.process_job Fixtures.env_200 "Backend Developer" "" 5
        (VDict Fixtures.fields_without_identifier) 0 Fixtures.w0 = Some (r, w2) /\
      store w2 = [] /\ upserts w2 = [] /\ db_log w2 = [].
Proof.
  assert (match JobCollectionService.map_fields Fixtures.env_200 "Backend Developer" ""
                  Fixtures.fields_without_identifier Fixtures.w0 with
          | Some (inr m, _) => Some (truthy (mget m "job_id"), truthy (mget m "url"))
          | _ => None
          end = Some (false, false)) as Hobs by (vm_compute; reflexivity).
  destruct (JobCollectionService.map_fields _ _ _ _ _) as [[[e|m] w1]|] eqn:E;
    try discriminate Hobs.
  injection Hobs as Hid Hurl.
  destruct (unidentifiable_job_is_never_upserted Fixtures.env_200
              "Backend Developer" "" 5 Fixtures.fields_without_identifier 0
              Fixtures.w0 m w1 E Hid Hurl)
    as (Hrej & (r & w2 & Hrun & _ & Hs & Hu & Hd) & _).
  exists m, w1. split; [reflexivity|]. split; [exact Hrej|].
  exists r, w2. split; [exact Hrun|]. by repeat split.
Defined.

(** ** JobPosting.upsert_job *)

Section Upsert.
Import JobPosting.
Context (env : Env).

Lemma forallb_map_to_list (f : string * value -> bool) (m : gmap string value) :
  forallb f (map_to_list m) = true <->
  forall k v, m !! k = Some v -> f (k, v) = true.
Proof.
  rewrite forallb_forall. split.
  - intros H k v Hk. apply H, list_elem_of_In. by apply elem_of_map_to_list.
  - intros H [k v] Hin%list_elem_of_In. by apply H, elem_of_map_to_list.
Qed.

Lemma bind_assoc {A B C} (m : M A) (f : A -> M B) (g : B -> M C) w :
  ((m ≫= f) ≫= g) w = (m ≫= (fun x => f x ≫= g)) w.
Proof. munfold. by destruct (m w) as [[[e|a] w1]|]. Qed.

Lemma find_one_eq key v w :
  find_one key v w =
  Some (inr (list_find (fun d => value_eqb (mget d key) (bson v) = true) (store w)),
        set_db_log (fun l => (l ++ [DbFindOne key v])%list) w).
Proof. reflexivity. Qed.

(** [upsert_job] looks up what the specification's [existing_for] finds,
    and goes on from a world with the same store and one more clock
    read. *)
Lemma upsert_job_unfold (p : gmap string value) w :
  let job_data := <["updated_at" := VTime (clock env (ticks w))]> p in
  exists w2,
    store w2 = store w /\ ticks w2 = S (ticks w) /\
    upsert_job env p w =
      match existing_for p (store w) with
      | Some (i, existing) =>
          (updated ← setattrs existing job_data;
           save i updated;; mret (i, updated)) w2
      | None => (new_job ← new env job_data; insert new_job) w2
      end.
Proof.
  intros job_data. unfold upsert_job. rewrite bind_modify.
  unfold mbind at 1. unfold M_bind, bind, utcnow. cbn [ticks set_upserts].
  fold job_data.
  assert (mget job_data "job_id" = mget p "job_id") as ->
    by (unfold mget, job_data; by rewrite lookup_insert_ne).
  assert (mget job_data "url" = mget p "url") as ->
    by (unfold mget, job_data; by rewrite lookup_insert_ne).
  unfold existing_for.
  destruct (truthy (mget p "job_id")).
  - unfold mbind at 1. unfold M_bind, bind. rewrite find_one_eq.
    cbn [store set_db_log set_ticks set_upserts].
    destruct (list_find _ (store w)) as [[i ex]|].
    + rewrite bind_ret_l. (eexists; split; [|split; [|reflexivity]]; reflexivity).
    + destruct (truthy (mget p "url")).
      * unfold mbind at 1. unfold M_bind, bind. rewrite find_one_eq.
        cbn [store set_db_log set_ticks set_upserts].
        destruct (list_find _ (store w)) as [[i ex]|]; (eexists; split; [|split; [|reflexivity]]; reflexivity).
      * rewrite bind_ret_l. (eexists; split; [|split; [|reflexivity]]; reflexivity).
  - rewrite bind_ret_l.
    destruct (truthy (mget p "url")).
    + unfold mbind at 1. unfold M_bind, bind. rewrite find_one_eq.
      cbn [store set_db_log set_ticks set_upserts].
      destruct (list_find _ (store w)) as [[i ex]|]; (eexists; split; [|split; [|reflexivity]]; reflexivity).
    + rewrite bind_ret_l. (eexists; split; [|split; [|reflexivity]]; reflexivity).
Qed.

(** The update path: every key of the payload but [scraped_at] is
    assigned, the document is saved in place. *)
Lemma upsert_job_updates (p : gmap string value) w i existing :
  (forall k v, p !! k = Some v -> is_field k = true) ->
  existing_for p (store w) = Some (i, existing) ->
  let updated :=
    delete "scraped_at" (<["updated_at" := VTime (clock env (ticks w))]> p) ∪ existing in
  exists w',
    upsert_job env p w = Some (inr (i, updated), w') /\
    store w' = <[i := bson_doc updated]> (store w) /\
    ticks w' = S (ticks w).
Proof.
  intros Hfields Hex updated.
  destruct (upsert_job_unfold p w) as (w2 & Hs & Ht & ->). rewrite Hex.
  unfold setattrs.
  assert (forallb (fun kv => is_field kv.1)
            (map_to_list (delete "scraped_at"
               (<["updated_at" := VTime (clock env (ticks w))]> p))) = true) as ->.
  { apply forallb_map_to_list. intros k v Hk. simpl.
    apply lookup_delete_Some in Hk as [_ Hk].
    apply lookup_insert_Some in Hk as [[<- _]|[_ Hk]]; [done|by eapply Hfields]. }
  rewrite bind_ret_l. unfold save. munfold. fold updated.
  eexists. split; [reflexivity|]. simpl. by rewrite Hs, Ht.
Qed.

(** The insert path: the document built from the payload is appended. *)
Lemma upsert_job_inserts (p : gmap string value) w :
  (forall k v, p !! k = Some v -> is_field k = true) ->
  validates env (<["updated_at" := VTime (clock env (ticks w))]> p) = true ->
  existing_for p (store w) = None ->
  exists d w',
    upsert_job env p w = Some (inr (length (store w), d), w') /\
    store w' = (store w ++ [bson_doc d])%list /\
    (forall k v, <["updated_at" := VTime (clock env (ticks w))]> p !! k = Some v ->
                 d !! k = Some v) /\
    d !! "scraped_at"
      = Some (default (VTime (clock env (S (ticks w)))) (p !! "scraped_at")).
Proof.
  intros Hfields Hval Hex.
  destruct (upsert_job_unfold p w) as (w2 & Hs & Ht & ->). rewrite Hex.
  unfold new. rewrite Hval.
  set (jd := <["updated_at" := VTime (clock env (ticks w))]> p).
  assert (filter (fun kv => is_field kv.1 = true) jd = jd) as ->.
  { apply map_filter_id. intros k v Hk. simpl. subst jd.
    apply lookup_insert_Some in Hk as [[<- _]|[_ Hk]]; [done|by eapply Hfields]. }
  unfold with_utcnow_default.
  assert (jd !! "scraped_at" = p !! "scraped_at") as Hsc
    by (subst jd; by rewrite lookup_insert_ne).
  rewrite Hsc.
  destruct (p !! "scraped_at") as [sc|] eqn:Hp.
  - assert (jd !! "updated_at" = Some (VTime (clock env (ticks w)))) as Hup
      by (subst jd; by rewrite lookup_insert_eq).
    unfold insert. munfold. rewrite Hup. simpl.
    eexists _, _. split; [by rewrite Hs|]. simpl. split; [by rewrite Hs|]. split.
    + intros k v Hk. by apply lookup_union_Some_l.
    + by apply lookup_union_Some_l.
  - assert (<["scraped_at" := VTime (clock env (ticks w2))]> jd !! "updated_at"
            = Some (VTime (clock env (ticks w)))) as Hup
      by (subst jd; rewrite lookup_insert_ne by done; by rewrite lookup_insert_eq).
    unfold insert. munfold. simpl. rewrite Hup. simpl.
    eexists _, _. split; [by rewrite Hs|]. simpl. split; [by rewrite Hs|]. split.
    + intros k v Hk. apply lookup_union_Some_l.
      rewrite lookup_insert_ne; [done|]. intros <-. congruence.
    + apply lookup_union_Some_l. rewrite lookup_insert_eq. by rewrite Ht.
Qed.

(** What one call does, on a payload made of fields that validates. *)
Lemma upsert_job_acts (p : gmap string value) w :
  (forall k v, p !! k = Some v -> is_field k = true) ->
  (forall t, validates env (<["updated_at" := VTime t]> p) = true) ->
  exists i d w1,
    upsert_job env p w = Some (inr (i, d), w1) /\
    match existing_for p (store w) with
    | Some (i0, existing) =>
        i = i0 /\ store w1 = <[i := bson_doc d]> (store w) /\
        d !! "scraped_at" = existing !! "scraped_at"
    | None =>
        i = length (store w) /\ store w1 = (store w ++ [bson_doc d])%list /\
        d !! "scraped_at"
          = Some (default (VTime (clock env (S (ticks w)))) (p !! "scraped_at"))
    end /\
    d !! "updated_at" = Some (VTime (clock env (ticks w))) /\
    (forall k v, p !! k = Some v -> k <> "scraped_at" -> k <> "updated_at" ->
                 d !! k = Some v).
Proof.
  intros Hfields Hval.
  destruct (existing_for p (store w)) as [[i0 existing]|] eqn:Hex.
  - destruct (upsert_job_updates p w i0 existing Hfields Hex) as (w1 & Hrun & Hs & _).
    eexists _, _, w1. split; [exact Hrun|]. split; [|split].
    + split; [done|]. split; [done|].
      rewrite lookup_union_r; [done|]. apply lookup_delete_eq.
    + apply lookup_union_Some_l. rewrite lookup_delete_ne by done.
      apply lookup_insert_eq.
    + intros k v Hk Hsc Hup. apply lookup_union_Some_l.
      rewrite lookup_delete_ne by done. by rewrite lookup_insert_ne.
  - destruct (upsert_job_inserts p w Hfields (Hval _) Hex)
      as (d & w1 & Hrun & Hs & Hkeys & Hsc).
    exists (length (store w)), d, w1. split; [exact Hrun|]. split; [done|]. split.
    + apply Hkeys, lookup_insert_eq.
    + intros k v Hk _ Hup. apply Hkeys. by rewrite lookup_insert_ne.
Qed.




End Upsert.


(** The same run on the empty store, observed.  The first call returns
    the payload's [scraped_at], 5 microseconds, and the store keeps it
    to the millisecond, 0; the second call returns what the store
    kept.  After both calls the store holds one document, with that
    [scraped_at] and the time of the second call, to the millisecond,
    as [updated_at]; and a payload without [job_id] whose [url] is
    stored updates that document. *)
Example upsert_job_twice_observed :
  JobPosting.returned_field "scraped_at"
    (JobPosting.upsert_job Fixtures.env_wall_clock Fixtures.a_mapped_job Fixtures.w0)
    = Some (VTime 5) /\
  JobPosting.returned_field "scraped_at"
    ((JobPosting.upsert_job Fixtures.env_wall_clock Fixtures.a_mapped_job ≫=
        fun _ => JobPosting.upsert_job Fixtures.env_wall_clock Fixtures.a_mapped_job)
       Fixtures.w0)
    = Some (VTime 0) /\
  observe (fun w => (fun d => (d !! "job_id", d !! "scraped_at", d !! "updated_at"))
                      <$> store w)
    ((JobPosting.upsert_job Fixtures.env_wall_clock Fixtures.a_mapped_job ≫=
        fun _ => JobPosting.upsert_job Fixtures.env_wall_clock Fixtures.a_mapped_job)
       Fixtures.w0)
    = Some [(Some (VStr "17"), Some (VTime 0), Some (VTime 1762128001000000))] /\
  observe (fun w => (fun d => (d !! "job_id", d !! "scraped_at", d !! "updated_at"))
                      <$> store w)
    ((JobPosting.upsert_job Fixtures.env_wall_clock Fixtures.a_mapped_job ≫=
        fun _ => JobPosting.upsert_job Fixtures.env_wall_clock
                   Fixtures.a_mapped_job_without_id)
       Fixtures.w0)
    = Some [(Some VNone, Some (VTime 0), Some (VTime 1762128001000000))].
Proof. repeat split; vm_compute; reflexivity. Qed.

(** ** Runs that always end *)

Section Ends.

Lemma ends_ret {A} (a : A) : ends (mret a).
Proof. intros w. by eexists _, _. Qed.

Lemma ends_raise {A} e : ends (@raise A e).
Proof. intros w. by eexists _, _. Qed.

Lemma ends_lift {A} (x : exn + A) : ends (lift x).
Proof. destruct x; [apply ends_raise|apply ends_ret]. Qed.

Lemma ends_get_world : ends get_world.
Proof. intros w. by eexists _, _. Qed.

Lemma ends_modify f : ends (modify f).
Proof. intros w. by eexists _, _. Qed.

Lemma ends_bind {A B} (m : M A) (k : A -> M B) :
  ends m -> (forall a, ends (k a)) -> ends (m ≫= k).
Proof.
  intros Hm Hk w. destruct (Hm w) as ([e|a] & w1 & Hw).
  - exists (inl e), w1. munfold. by rewrite Hw.
  - destruct (Hk a w1) as (r & w' & Hk'). exists r, w'. munfold. by rewrite Hw.
Qed.

Lemma ends_attempt {A} (m : M A) : ends m -> ends (attempt m).
Proof.
  intros Hm w. destruct (Hm w) as (r & w1 & Hw).
  exists (inr r), w1. unfold attempt. by rewrite Hw.
Qed.

Lemma ends_try_except {A} (m : M A) (h : exn -> M A) :
  ends m -> (forall e, ends (h e)) -> ends (try_except m h).
Proof.
  intros Hm Hh w. destruct (Hm w) as ([e|a] & w1 & Hw); unfold try_except; rewrite Hw.
  - apply Hh.
  - by eexists _, _.
Qed.

End Ends.

Ltac ends_step :=
  lazymatch goal with
  | |- ends (mret _) => apply ends_ret
  | |- ends (raise _) => apply ends_raise
  | |- ends (lift _) => apply ends_lift
  | |- ends get_world => apply ends_get_world
  | |- ends (modify _) => apply ends_modify
  | |- ends (mbind _ _) => apply ends_bind; [|intros ?]
  | |- ends (attempt _) => apply ends_attempt
  | |- ends (try_except _ _) => apply ends_try_except; [|intros ?]
  | |- ends (match ?x with _ => _ end) => destruct x
  | |- ends (let _ := _ in _) => cbv zeta
  end.

Ltac ends_all := repeat ends_step.

Section EndsPipeline.
Import TheirStackClient JobCollectionService.
Context (env : Env).

Lemma utcnow_ends : ends (utcnow env).
Proof. intros w. by eexists _, _. Qed.

Lemma db_ends op : ends (db op).
Proof. intros w. by eexists _, _. Qed.

Lemma upsert_job_ends job_data : ends (JobPosting.upsert_job env job_data).
Proof.
  unfold JobPosting.upsert_job, JobPosting.find_one, JobPosting.setattrs,
    JobPosting.save, JobPosting.insert, JobPosting.new,
    JobPosting.with_utcnow_default.
  ends_all; apply utcnow_ends || apply db_ends.
Qed.

Lemma search_jobs_ends payload : ends (search_jobs env payload).
Proof.
  unfold search_jobs, _validate_payload, _post_with_retry. ends_all.
  intros w. apply retrying_total; lia.
Qed.

Lemma map_job_ends role label job : ends (_map_job env role label job).
Proof.
  unfold _map_job, map_fields, as_dict. ends_all. apply utcnow_ends.
Qed.

Lemma process_job_ends role label limit job total :
  ends (process_job env role label limit job total).
Proof.
  unfold process_job, as_dict, _should_skip_job. ends_all.
  - apply map_job_ends.
  - apply upsert_job_ends.
Qed.

Lemma job_loop_ends role label limit data total :
  ends (job_loop env role label limit data total).
Proof.
  revert total. induction data as [|job rest IH]; intros total; simpl; ends_all.
  - apply process_job_ends.
  - apply IH.
Qed.

(** One pass of the page loop always ends; only the loop itself may go
    on for ever. *)
Lemma page_iteration_ends role label locations age limit per_page st :
  ends (page_iteration env role label locations age limit per_page st).
Proof.
  unfold page_iteration, as_dict, number, iterate. ends_all.
  - apply search_jobs_ends.
  - apply job_loop_ends.
Qed.

End EndsPipeline.

(** ** map_technology_slugs on slugs with clean ends *)

Section Trimmed.
Import SkillExtractor.

Lemma elem_of_foldl_map_slug l mapped c :
  c ∈ foldl map_slug mapped l <->
  c ∈ mapped \/ exists x, x ∈ l /\ canonical_of x = Some c.
Proof.
  revert mapped. induction l as [|x l IH]; intros mapped; simpl.
  - split; [by left|]. intros [H|(x & Hx & _)]; [done|].
    by apply elem_of_nil in Hx.
  - rewrite IH. unfold map_slug. split.
    + intros [H|(y & Hy & Hc)].
      * destruct (canonical_of x) eqn:E; [|by left].
        apply elem_of_union in H as [H|H]; [|by left].
        apply elem_of_singleton in H as ->. right. exists x.
        split; [apply elem_of_cons; by left|done].
      * right. exists y. split; [apply elem_of_cons; by right|done].
    + intros [H|(y & Hy & Hc)].
      * left. destruct (canonical_of x); [|done].
        apply elem_of_union. by right.
      * apply elem_of_cons in Hy as [->|Hy].
        -- left. rewrite Hc. apply elem_of_union. left.
           by apply elem_of_singleton.
        -- right. by exists y.
Qed.

Lemma map_technology_slugs_eq l :
  map_technology_slugs (Some l) = sorted (foldl map_slug ∅ l).
Proof.
  destruct l; [|done]. simpl. unfold sorted. by rewrite elements_empty.
Qed.

(** *** The fallback, character by character *)

Lemma fallback_cons c r :
  fallback (String c r) = String (fallback_char c) (fallback r).
Proof.
  unfold fallback, fallback_char, separator. simpl.
  destruct (Ascii.eqb c "-") eqn:E1; simpl.
  - done.
  - by destruct (Ascii.eqb c "_").
Qed.

Lemma fallback_char_idemp c : fallback_char (fallback_char c) = fallback_char c.
Proof. unfold fallback_char. by destruct (separator c) eqn:E; [|rewrite E]. Qed.

Lemma fallback_idemp s : fallback (fallback s) = fallback s.
Proof.
  induction s as [|c r IH]; [done|].
  by rewrite !fallback_cons, fallback_char_idemp, IH.
Qed.

Lemma fallback_blank s : blank (fallback s) = blank s.
Proof. destruct s; [done|]. by rewrite fallback_cons. Qed.

Lemma lower_fallback s : lower s = s -> lower (fallback s) = fallback s.
Proof.
  induction s as [|c r IH]; [done|]. rewrite fallback_cons. simpl.
  intros [= Hc Hr]. rewrite IH by done. f_equal.
  unfold fallback_char. by destruct (separator c).
Qed.

(** The fallback either changes nothing or leaves a space behind. *)
Lemma fallback_same_or_space s : fallback s = s \/ contains " " (fallback s) = true.
Proof.
  induction s as [|c r IH]; [by left|]. rewrite fallback_cons.
  unfold fallback_char. destruct (separator c) eqn:E.
  - right. done.
  - destruct IH as [->|IH]; [by left|]. right. simpl in *. rewrite IH.
    by rewrite orb_true_r.
Qed.

(** *** Stripping a string that has nothing to strip *)

Lemma first_char_lstrip s : clean is_space (first_char (lstrip s)) = true.
Proof.
  induction s as [|c r IH]; [done|]. simpl.
  destruct (is_space c) eqn:E; [done|]. unfold clean. simpl. by rewrite E.
Qed.

Lemma last_char_cons c r :
  last_char (String c r) = match r with EmptyString => Some c | _ => last_char r end.
Proof. by destruct r. Qed.

Lemma last_char_rstrip s : clean is_space (last_char (rstrip s)) = true.
Proof.
  induction s as [|c r IH]; [done|]. simpl.
  destruct (rstrip r) as [|c' r'] eqn:E.
  - destruct (is_space c) eqn:Ec; [done|]. unfold clean. simpl. by rewrite Ec.
  - by rewrite last_char_cons.
Qed.

Lemma first_char_rstrip s :
  clean is_space (first_char s) = true -> first_char (rstrip s) = first_char s.
Proof.
  destruct s as [|c r]; [done|]. unfold clean. simpl. intros Hc.
  destruct (rstrip r); [|done]. by destruct (is_space c).
Qed.

Lemma lstrip_clean s : clean is_space (first_char s) = true -> lstrip s = s.
Proof.
  destruct s as [|c r]; [done|]. unfold clean. simpl.
  by destruct (is_space c).
Qed.

Lemma rstrip_clean s : clean is_space (last_char s) = true -> rstrip s = s.
Proof.
  induction s as [|c r IH]; [done|]. rewrite last_char_cons. simpl.
  destruct r as [|c' r'].
  - unfold clean. simpl. by destruct (is_space c).
  - intros H. by rewrite (IH H).
Qed.

Lemma strip_clean s :
  clean is_space (first_char s) = true -> clean is_space (last_char s) = true ->
  strip s = s.
Proof.
  intros Hf Hl. unfold strip. rewrite (lstrip_clean _ Hf). by apply rstrip_clean.
Qed.

Lemma strip_ends s :
  clean is_space (first_char (strip s)) = true /\
  clean is_space (last_char (strip s)) = true.
Proof.
  unfold strip. split; [|apply last_char_rstrip].
  rewrite first_char_rstrip; apply first_char_lstrip.
Qed.

Lemma first_char_lower s : first_char (lower s) = lower_ascii <$> first_char s.
Proof. by destruct s. Qed.

Lemma last_char_lower s : last_char (lower s) = lower_ascii <$> last_char s.
Proof.
  induction s as [|c r IH]; [done|]. simpl lower. rewrite !last_char_cons.
  destruct r; [done|]. apply IH.
Qed.

Lemma clean_lower c :
  clean is_space (lower_ascii <$> c) = clean is_space c.
Proof. destruct c; [|done]. unfold clean. simpl. by rewrite is_space_lower_ascii. Qed.

Lemma first_char_fallback s : first_char (fallback s) = fallback_char <$> first_char s.
Proof. destruct s; [done|]. by rewrite fallback_cons. Qed.

Lemma last_char_fallback s : last_char (fallback s) = fallback_char <$> last_char s.
Proof.
  induction s as [|c r IH]; [done|]. rewrite fallback_cons, !last_char_cons.
  destruct r as [|c' r']; [done|]. by rewrite fallback_cons in *.
Qed.

Lemma clean_fallback c :
  clean is_space c = true -> clean separator c = true ->
  clean is_space (fallback_char <$> c) = true.
Proof.
  destruct c as [c|]; [|done]. unfold clean, fallback_char. simpl.
  intros Hs Hp. by destruct (separator c).
Qed.

(** *** The two tables *)

Lemma forallb_string_map (f : string * string -> bool) (m : gmap string string) :
  forallb f (map_to_list m) = true ->
  forall k v, m !! k = Some v -> f (k, v) = true.
Proof.
  rewrite forallb_forall. intros H k v Hk.
  apply H, list_elem_of_In. by apply elem_of_map_to_list.
Qed.

Lemma technology_names k v :
  TECHNOLOGY_SLUG_MAP !! k = Some v ->
  contains " " k = false /\ blank v = false /\
  stable (default v (SKILL_CANONICAL_MAP !! v)) = true.
Proof.
  intros H.
  apply (forallb_string_map
    (fun kv => negb (contains " " kv.1) && negb (blank kv.2) &&
               stable (default kv.2 (SKILL_CANONICAL_MAP !! kv.2)))) in H.
  - simpl in H. apply andb_prop in H as [H H3]. apply andb_prop in H as [H1 H2].
    apply negb_true_iff in H1, H2. done.
  - vm_compute. reflexivity.
Qed.

Lemma canonical_names k v :
  SKILL_CANONICAL_MAP !! k = Some v -> stable v = true.
Proof.
  intros H. apply (forallb_string_map (fun kv => stable kv.2)) in H; [done|].
  vm_compute. reflexivity.
Qed.

(** *** One pass, then another *)

(** A name the loop computes from a slug with clean ends is mapped to
    itself by a second pass. *)
Lemma canonical_of_stable slug c :
  separator_free_ends slug = true ->
  canonical_of slug = Some c -> canonical_of c = Some c.
Proof.
  unfold separator_free_ends. cbv zeta. intros Hends%andb_prop.
  destruct Hends as [Hf Hl].
  unfold canonical_of at 1. destruct (blank slug); [done|]. cbv zeta.
  set (n := lower (strip slug)) in *.
  destruct (blank n) eqn:Hn; [done|].
  destruct (TECHNOLOGY_SLUG_MAP !! n) as [v|] eqn:Hv.
  { destruct (technology_names _ _ Hv) as (_ & -> & Hst).
    intros [= <-]. by apply bool_decide_eq_true in Hst. }
  destruct (SKILL_CANONICAL_MAP !! fallback n) as [c'|] eqn:Hc; simpl.
  { intros [= <-]. apply canonical_names in Hc.
    by apply bool_decide_eq_true in Hc. }
  intros [= <-].
  assert (Hlow : lower n = n) by apply lower_idemp.
  assert (Hs : strip (fallback n) = fallback n).
  { apply strip_clean.
    - rewrite first_char_fallback. apply clean_fallback; [|done].
      unfold n. rewrite first_char_lower, clean_lower. apply strip_ends.
    - rewrite last_char_fallback. apply clean_fallback; [|done].
      unfold n. rewrite last_char_lower, clean_lower. apply strip_ends. }
  unfold canonical_of. rewrite fallback_blank, Hn. cbv zeta.
  rewrite Hs, (lower_fallback _ Hlow), fallback_blank, Hn, fallback_idemp.
  destruct (TECHNOLOGY_SLUG_MAP !! fallback n) as [v|] eqn:Ht.
  - exfalso. destruct (technology_names _ _ Ht) as (Hsp & _ & _).
    destruct (fallback_same_or_space n) as [Heq|Hsp']; congruence.
  - by rewrite Hc.
Qed.

(** X7.  On slugs whose normal form neither starts nor ends with a
    separator ([-] or [_]), a second pass of [map_technology_slugs]
    changes nothing: the function is idempotent there. *)
Lemma map_technology_slugs_idempotent_on_clean_ends (slugs : list string) :
  Forall (fun slug => separator_free_ends slug = true) slugs ->
  map_technology_slugs (Some (map_technology_slugs (Some slugs))) =
  map_technology_slugs (Some slugs).
Proof.
  intros Hall. rewrite !map_technology_slugs_eq. f_equal.
  apply set_eq. intros c. rewrite !elem_of_foldl_map_slug. split.
  - intros [H|(x & Hx & Hc)]; [by apply elem_of_empty in H|]. right.
    apply elem_of_sorted, elem_of_foldl_map_slug in Hx.
    destruct Hx as [Hx|(y & Hy & Hyx)]; [by apply elem_of_empty in Hx|].
    exists y. split; [done|].
    rewrite Forall_forall in Hall.
    pose proof (canonical_of_stable y x (Hall y Hy) Hyx) as Hxx.
    congruence.
  - intros [H|(y & Hy & Hc)]; [by apply elem_of_empty in H|]. right.
    exists c. split.
    + apply elem_of_sorted, elem_of_foldl_map_slug. right. by exists y.
    + rewrite Forall_forall in Hall.
      apply (canonical_of_stable y); [by apply Hall|done].
Qed.

End Trimmed.

Lemma map_technology_slugs_idempotent_on_clean_ends_witness :
  SkillExtractor.map_technology_slugs
    (Some (SkillExtractor.map_technology_slugs
             (Some ["React-JS"; " Node_JS "; "some-new_tool"; "C++"])))
  = SkillExtractor.map_technology_slugs
      (Some ["React-JS"; " Node_JS "; "some-new_tool"; "C++"]) /\
  SkillExtractor.map_technology_slugs
      (Some ["React-JS"; " Node_JS "; "some-new_tool"; "C++"])
  = ["c++"; "node js"; "react"; "some new tool"].
Proof.
  split; [|vm_compute; reflexivity].
  apply map_technology_slugs_idempotent_on_clean_ends.
  repeat constructor.
Defined.

(* ===================================================================== *)
(** * Part III: further properties of the code                            *)
(* ===================================================================== *)

(** ** TheirStackClient: validation, retries and what is sent *)

Section ClientMore.
Import TheirStackClient.
Context (env : Env).

Lemma is_none_false v : is_none v = false <-> v <> VNone.
Proof. destruct v; simpl; split; congruence. Qed.

Lemma validate_payload_accepts payload w :
  has_temporal_filter payload -> _validate_payload payload w = Some (inr tt, w).
Proof.
  intros (key & v & Hkey & Hv & Hne). unfold _validate_payload.
  destruct (Nat.eqb_spec (size payload) 0) as [Hz|_].
  { apply map_size_empty_iff in Hz. subst. by rewrite lookup_empty in Hv. }
  assert (existsb (fun key => match payload !! key with
                              | Some v => negb (is_none v)
                              | None => false
                              end) date_filter_keys = true) as ->; [|done].
  apply existsb_exists. exists key. split; [by apply list_elem_of_In|].
  rewrite Hv. apply negb_true_iff. by apply is_none_false.
Qed.

Lemma validate_payload_rejects payload w :
  ~ has_temporal_filter payload ->
  exists msg, _validate_payload payload w = Some (inl (ValueError msg), w).
Proof.
  intros Hno. unfold _validate_payload.
  destruct (Nat.eqb (size payload) 0); [by eexists|].
  destruct (existsb _ date_filter_keys) eqn:E; [|by eexists].
  exfalso. apply Hno. apply existsb_exists in E as (key & Hin%list_elem_of_In & Hk).
  destruct (payload !! key) as [v|] eqn:Hv; [|done].
  exists key, v. split; [done|]. split; [done|].
  apply is_none_false. by apply negb_true_iff.
Qed.

(** X1.  [search_jobs] sends requests exactly for the payloads that bind
    one of the three temporal keys to a value other than [None]: for
    those it returns or raises after at least one request, each carrying
    the payload with its defaults; for any other payload, one with a
    temporal key bound to [None] included, it raises a [ValueError] and
    leaves the world as it was. *)
Theorem search_jobs_needs_temporal_filter (payload : gmap string value) (w : world) :
  (has_temporal_filter payload ->
   exists r w' m,
     search_jobs env payload w = Some (r, w') /\ (1 <= m)%nat /\
     posts w' = (posts w ++ replicate m ("/v1/jobs/search", with_defaults env payload))%list) /\
  (~ has_temporal_filter payload ->
   exists msg, search_jobs env payload w = Some (inl (ValueError msg), w)).
Proof.
  split.
  - intros Hf. destruct (search_jobs_sends env payload w (validate_payload_accepts _ _ Hf))
      as (r & w' & m & Hr & Hm & Hp & _). by exists r, w', m.
  - intros Hno. destruct (validate_payload_rejects payload w Hno) as (msg & Hv).
    exists msg. unfold search_jobs. unfold mbind at 1. unfold M_bind, bind. by rewrite Hv.
Qed.

(** The retry loop when the first [k] replies are retryable and the next
    one is a response that passes. *)
Lemma retrying_recovers budget n endpoint body a w k resp :
  (k < budget)%nat -> (a + k <= n)%nat -> (1 <= a)%nat ->
  (forall i, (i < k)%nat -> exists msg,
      check_status (transport env (length (posts w) + i) endpoint body)
      = inl (TheirStackRetryableError msg)) ->
  check_status (transport env (length (posts w) + k) endpoint body) = inr resp ->
  exists w',
    retrying budget n (post_attempt env endpoint body) a w = Some (inr resp, w') /\
    posts w' = (posts w ++ replicate (S k) (endpoint, body))%list /\
    slept w' = (slept w ++ (wait_exponential <$> seq a k))%list.
Proof.
  revert budget a w. induction k as [|k IH]; intros budget a w Hb Hn Ha Hfail Hok.
  - destruct budget as [|b]; [lia|]. simpl.
    unfold mbind, M_bind, bind, attempt. rewrite post_attempt_eq.
    rewrite Nat.add_0_r in Hok. rewrite Hok. munfold.
    eexists. split; [reflexivity|]. simpl. by rewrite app_nil_r.
  - destruct budget as [|b]; [lia|]. simpl.
    unfold mbind, M_bind, bind, attempt. rewrite post_attempt_eq.
    destruct (Hfail 0%nat) as [msg Hm]; [lia|]. rewrite Nat.add_0_r in Hm.
    rewrite Hm. simpl.
    unfold stop_after_attempt. destruct (Nat.leb_spec n a); [lia|]. simpl.
    unfold sleep. munfold.
    edestruct (IH b (S a)
      (set_slept (fun l => (l ++ [wait_exponential a])%list)
         (set_posts (fun l => (l ++ [(endpoint, body)])%list) w)))
      as (w' & Hr & Hp & Hs); [lia|lia|lia| | |].
    + intros i Hi. cbn [posts set_slept set_posts]. rewrite length_app. simpl.
      replace (length (posts w) + 1 + i)%nat with (length (posts w) + S i)%nat by lia.
      apply Hfail. lia.
    + cbn [posts set_slept set_posts]. rewrite length_app. simpl.
      by replace (length (posts w) + 1 + k)%nat with (length (posts w) + S k)%nat by lia.
    + exists w'. split; [exact Hr|]. cbn [posts slept set_slept set_posts] in Hp, Hs.
      rewrite Hp, Hs, <- !app_assoc. done.
Qed.

Lemma check_status_retryable r :
  (exists msg, r = RequestError msg) \/
  (exists resp, r = Reply resp /\
     (status_code resp = 429 \/ 500 <= status_code resp < 600)) ->
  exists msg, check_status r = inl (TheirStackRetryableError msg).
Proof.
  intros [[msg ->]|(resp & -> & Hs)]; [by eexists|].
  unfold check_status. cbv zeta.
  destruct (Z.eqb_spec (status_code resp) 401); [lia|].
  destruct (Z.eqb_spec (status_code resp) 403); [lia|]. simpl.
  destruct (Z.eqb_spec (status_code resp) 429); [by eexists|]. simpl.
  destruct (Z.leb_spec 500 (status_code resp)); [|lia].
  destruct (Z.ltb_spec (status_code resp) 600); [|lia]. by eexists.
Qed.

Lemma check_status_passes resp :
  status_code resp < 400 \/ 600 <= status_code resp ->
  check_status (Reply resp) = inr resp.
Proof.
  intros Hs. unfold check_status. cbv zeta.
  destruct (Z.eqb_spec (status_code resp) 401); [lia|].
  destruct (Z.eqb_spec (status_code resp) 403); [lia|].
  destruct (Z.eqb_spec (status_code resp) 429); [lia|]. simpl.
  destruct (Z.leb_spec 500 (status_code resp));
    destruct (Z.ltb_spec (status_code resp) 600); simpl; try lia;
    destruct (Z.leb_spec 400 (status_code resp));
    destruct (Z.ltb_spec (status_code resp) 500); simpl; try lia; done.
Qed.

(** X2.  Transient failures are retried and the later answer is
    returned.  When the first [k] replies to a search are failed
    requests, 429s or 5xx, with [k] below [their_stack_max_retries], and
    the next reply has a status below 400 (or from 600) and a JSON body,
    [search_jobs] returns that body after [k + 1] identical requests,
    having slept [wait_exponential 1], ..., [wait_exponential k] seconds
    in between; the store is not touched. *)
Theorem search_jobs_recovers (payload : gmap string value) (w : world)
    (k : nat) (resp : response) (data : value) :
  has_temporal_filter payload ->
  let body := with_defaults env payload in
  let reply_at := fun i =>
    transport env (length (posts w) + i) "/v1/jobs/search" body in
  (k < their_stack_max_retries (settings env))%nat ->
  (forall i, (i < k)%nat ->
     (exists msg, reply_at i = RequestError msg) \/
     (exists r, reply_at i = Reply r /\
        (status_code r = 429 \/ 500 <= status_code r < 600))) ->
  reply_at k = Reply resp ->
  (status_code resp < 400 \/ 600 <= status_code resp) ->
  json resp = Some data ->
  exists w',
    search_jobs env payload w = Some (inr data, w') /\
    posts w' = (posts w ++ replicate (S k) ("/v1/jobs/search", body))%list /\
    slept w' = (slept w ++ (wait_exponential <$> seq 1 k))%list /\
    store w' = store w.
Proof.
  intros Hf body reply_at Hk Hfail Hok Hstatus Hjson.
  unfold search_jobs. unfold mbind at 1. unfold M_bind, bind.
  rewrite (validate_payload_accepts _ _ Hf). fold body.
  unfold _post_with_retry.
  set (n := their_stack_max_retries (settings env)) in *.
  edestruct (retrying_recovers (Nat.max 1 n) n "/v1/jobs/search" body 1 w k resp)
    as (w' & Hr & Hp & Hs); [lia|lia|lia| | |].
  - intros i Hi. apply check_status_retryable. by apply Hfail.
  - fold (reply_at k). rewrite Hok. by apply check_status_passes.
  - unfold mbind, M_bind, bind, try_except. rewrite Hr, Hjson. munfold.
    exists w'. split; [done|]. split; [done|]. split; [done|].
    by apply retrying_posts in Hr as (_ & _ & _ & ? & _).
Qed.

Lemma check_status_client_error resp :
  400 <= status_code resp < 500 ->
  status_code resp <> 401 -> status_code resp <> 403 -> status_code resp <> 429 ->
  check_status (Reply resp)
  = inl (TheirStackClientError
           ("Client error " +:+ pretty (status_code resp) +:+ ": " +:+ text resp)).
Proof.
  intros Hs H1 H3 H9. unfold check_status. cbv zeta.
  destruct (Z.eqb_spec (status_code resp) 401); [lia|].
  destruct (Z.eqb_spec (status_code resp) 403); [lia|].
  destruct (Z.eqb_spec (status_code resp) 429); [lia|]. simpl.
  destruct (Z.leb_spec 500 (status_code resp)); [lia|]. simpl.
  destruct (Z.leb_spec 400 (status_code resp)); [|lia].
  destruct (Z.ltb_spec (status_code resp) 500); [|lia]. done.
Qed.

(** One attempt whose outcome is not retryable ends the loop. *)
Lemma retrying_once budget n endpoint body a w :
  (1 <= budget)%nat ->
  match check_status (transport env (length (posts w)) endpoint body) with
  | inl e => is_retryable e = false
  | inr _ => True
  end ->
  retrying budget n (post_attempt env endpoint body) a w
  = Some (check_status (transport env (length (posts w)) endpoint body),
          set_posts (fun l => (l ++ [(endpoint, body)])%list) w).
Proof.
  intros Hb Hc. destruct budget as [|b]; [lia|]. simpl.
  unfold mbind, M_bind, bind, attempt. rewrite post_attempt_eq.
  destruct (check_status _) as [e|resp]; [|done]. by rewrite Hc.
Qed.

(** X3.  Errors that are not retried.  A reply with a 4xx status other
    than 401, 403 and 429 makes [search_jobs] raise
    [TheirStackClientError] with the text [Client error <status>: <body>]
    after that one request, without sleeping; so does, with its own
    message, a reply that passes the status checks but whose body is not
    JSON. *)
Theorem search_jobs_does_not_retry_client_errors
    (payload : gmap string value) (w : world) (resp : response) :
  has_temporal_filter payload ->
  let body := with_defaults env payload in
  transport env (length (posts w)) "/v1/jobs/search" body = Reply resp ->
  (400 <= status_code resp < 500 ->
   status_code resp <> 401 -> status_code resp <> 403 -> status_code resp <> 429 ->
   exists w',
     search_jobs env payload w
       = Some (inl (TheirStackClientError
                      ("Client error " +:+ pretty (status_code resp) +:+ ": "
                         +:+ text resp)), w') /\
     posts w' = (posts w ++ [("/v1/jobs/search", body)])%list /\
     slept w' = slept w) /\
  ((status_code resp < 400 \/ 600 <= status_code resp) -> json resp = None ->
   exists w',
     search_jobs env payload w
       = Some (inl (TheirStackClientError "Invalid JSON response from TheirStack"), w') /\
     posts w' = (posts w ++ [("/v1/jobs/search", body)])%list /\
     slept w' = slept w).
Proof.
  intros Hf body Hreply.
  assert (search_jobs env payload w
            = (response ← try_except (_post_with_retry env "/v1/jobs/search" body)
                 (fun exc => match exc with
                    | TheirStackAuthenticationError _ =>
                        raise (TheirStackAuthenticationError
                                 "Failed to authenticate with TheirStack API")
                    | _ => raise exc
                    end);
               match json response with
               | None => raise (TheirStackClientError "Invalid JSON response from TheirStack")
               | Some data => mret data
               end) w) as Hrun.
  { unfold search_jobs. unfold mbind at 1. unfold M_bind, bind.
    by rewrite (validate_payload_accepts _ _ Hf). }
  rewrite Hrun. clear Hrun. unfold _post_with_retry.
  split.
  - intros Hs H1 H3 H9. unfold mbind, M_bind, bind, try_except.
    rewrite retrying_once; [|lia|rewrite Hreply, check_status_client_error; done].
    rewrite Hreply, check_status_client_error by done. munfold.
    eexists. split; [reflexivity|]. done.
  - intros Hs Hj. unfold mbind, M_bind, bind, try_except.
    rewrite retrying_once; [|lia|rewrite Hreply, check_status_passes; done].
    rewrite Hreply, check_status_passes by done. rewrite Hj. munfold.
    eexists. split; [reflexivity|]. done.
Qed.

Lemma lookup_setdefault_mono k v (d : gmap string value) k' x :
  d !! k' = Some x -> setdefault k v d !! k' = Some x.
Proof.
  intros Hk. destruct (decide (k = k')) as [->|Hne].
  - by apply lookup_setdefault_Some.
  - by rewrite lookup_setdefault_ne.
Qed.

Lemma lookup_setdefault_inv k v (d : gmap string value) k' x :
  setdefault k v d !! k' = Some x -> d !! k' = Some x \/ (k' = k /\ x = v /\ d !! k = None).
Proof.
  unfold setdefault. destruct (d !! k) eqn:E; [by left|].
  intros [[<- <-]|[_ ?]]%lookup_insert_Some; [by right|by left].
Qed.

(** Whatever [search_jobs] does, what it has sent is the payload with its
    defaults, some number of times. *)
Lemma search_jobs_posts payload w r w' :
  search_jobs env payload w = Some (r, w') ->
  exists m,
    posts w' = (posts w ++ replicate m ("/v1/jobs/search", with_defaults env payload))%list.
Proof.
  intros Hrun. unfold search_jobs in Hrun.
  apply bind_inv in Hrun as [(e & Hv & _)|([] & w1 & Hv & Hrun)].
  - exists 0%nat. simpl. rewrite app_nil_r.
    revert Hv. unfold _validate_payload. munfold.
    destruct (Nat.eqb _ _); [by intros [= _ <-]|].
    destruct (negb _); by intros [= _ <-].
  - assert (w1 = w) as ->.
    { revert Hv. unfold _validate_payload. munfold.
      destruct (Nat.eqb _ _); [by intros [= <-]|].
      destruct (negb _); by intros [= <-]. }
    destruct (search_jobs_sends env payload w Hv) as (r0 & w0 & m & Hr & Hm & Hp & _).
    assert (search_jobs env payload w = Some (r, w')) as Hr'.
    { unfold search_jobs. unfold mbind at 1. unfold M_bind, bind. by rewrite Hv. }
    rewrite Hr in Hr'. injection Hr' as -> ->. by exists m.
Qed.

(** X4.  Whatever [search_jobs] does, every request it has sent went to
    the search endpoint with one and the same body, which binds every key
    of the caller's payload to the caller's value.  The body has at most
    two keys more: [page], bound to 1, only when the payload had neither
    [page] nor [offset], and [limit], bound to the configured maximum,
    only when the payload had no [limit]. *)
Theorem search_jobs_keeps_caller_keys (payload : gmap string value) (w : world)
    (r : exn + value) (w' : world) :
  search_jobs env payload w = Some (r, w') ->
  exists m body,
    posts w' = (posts w ++ replicate m ("/v1/jobs/search", body))%list /\
    (forall k v, payload !! k = Some v -> body !! k = Some v) /\
    (forall k v, body !! k = Some v ->
       payload !! k = Some v \/
       (k = "page" /\ v = VInt 1 /\ payload !! "page" = None /\ payload !! "offset" = None) \/
       (k = "limit" /\ v = VInt (max_jobs_per_search (settings env)) /\
        payload !! "limit" = None)).
Proof.
  intros Hrun. destruct (search_jobs_posts _ _ _ _ Hrun) as [m Hp].
  exists m, (with_defaults env payload). split; [exact Hp|]. split.
  - intros k v Hk. unfold with_defaults. apply lookup_setdefault_mono.
    destruct (_ && _); [by apply lookup_setdefault_mono|done].
  - intros k v Hk. unfold with_defaults in Hk.
    apply lookup_setdefault_inv in Hk as [Hk|(-> & -> & Hn)].
    + destruct (negb (bool_decide (is_Some (payload !! "page"))) &&
                negb (bool_decide (is_Some (payload !! "offset")))) eqn:E; [|by left].
      apply lookup_setdefault_inv in Hk as [Hk|(-> & -> & Hn)]; [by left|].
      right. left. apply andb_prop in E as [E1 E2].
      apply negb_true_iff, bool_decide_eq_false in E1, E2.
      repeat split; try done.
      destruct (payload !! "offset"); [|done]. exfalso. by apply E2.
    + right. right. repeat split.
      destruct (_ && _); [|done]. by rewrite lookup_setdefault_ne in Hn.
Qed.

End ClientMore.

Lemma a_payload_has_temporal_filter :
  TheirStackClient.has_temporal_filter Fixtures.a_payload.
Proof.
  exists "posted_at_max_age_days", (VInt 1). split; [|by split].
  unfold TheirStackClient.date_filter_keys. apply elem_of_cons. by left.
Qed.

Lemma search_jobs_recovers_witness :
  exists w',
    TheirStackClient.search_jobs Fixtures.env_flaky Fixtures.a_payload Fixtures.w0
      = Some (inr (VDict [("data", VList [])]), w') /\
    length (posts w') = 3%nat /\ slept w' = [1; 2].
Proof.
  destruct (search_jobs_recovers Fixtures.env_flaky Fixtures.a_payload Fixtures.w0
              2 (mk_response 200 "" (Some (VDict [("data", VList [])])))
              (VDict [("data", VList [])]) a_payload_has_temporal_filter)
    as (w' & Hrun & Hp & Hs & _).
  - simpl. lia.
  - intros i Hi. destruct i as [|[|i]]; [right|left|lia].
    + eexists. split; [reflexivity|]. simpl. lia.
    + by eexists.
  - reflexivity.
  - simpl. lia.
  - reflexivity.
  - exists w'. split; [exact Hrun|]. rewrite Hp, Hs. by split.
Defined.

Lemma search_jobs_does_not_retry_client_errors_witness :
  exists w',
    TheirStackClient.search_jobs Fixtures.env_404 Fixtures.a_payload Fixtures.w0
      = Some (inl (TheirStackClientError "Client error 404: "), w') /\
    length (posts w') = 1%nat /\ slept w' = [].
Proof.
  destruct (search_jobs_does_not_retry_client_errors Fixtures.env_404
              Fixtures.a_payload Fixtures.w0 (mk_response 404 "" None)
              a_payload_has_temporal_filter eq_refl) as [Hclient _].
  destruct Hclient as (w' & Hrun & Hp & Hs); simpl; try lia.
  exists w'. split; [exact Hrun|]. rewrite Hp, Hs. by split.
Defined.

Lemma search_jobs_keeps_caller_keys_witness :
  exists r w' m body,
    TheirStackClient.search_jobs Fixtures.env_200 Fixtures.a_payload Fixtures.w0
      = Some (r, w') /\
    posts w' = replicate m ("/v1/jobs/search", body) /\
    body !! "posted_at_max_age_days" = Some (VInt 1).
Proof.
  assert (outcome_of
            (TheirStackClient.search_jobs Fixtures.env_200 Fixtures.a_payload Fixtures.w0)
          = Some (inr (VDict []))) as Hrun by (vm_compute; reflexivity).
  destruct (TheirStackClient.search_jobs Fixtures.env_200 Fixtures.a_payload Fixtures.w0)
    as [[r w']|] eqn:E; [|discriminate Hrun].
  destruct (search_jobs_keeps_caller_keys Fixtures.env_200 _ _ _ _ E)
    as (m & body & Hp & Hkeep & _).
  exists r, w', m, body. split; [reflexivity|]. split; [exact Hp|].
  apply Hkeep. reflexivity.
Defined.

(** ** SkillExtractor: the shape of the results *)

Section SkillNames.
Import SkillExtractor.

Lemma strip_idemp s : strip (strip s) = strip s.
Proof. destruct (strip_ends s). by apply strip_clean. Qed.

(** The name computed for a slug only depends on its normal form. *)
Lemma canonical_of_normal slug :
  canonical_of (lower (strip slug)) = canonical_of slug.
Proof.
  unfold canonical_of. cbv zeta.
  rewrite lower_strip, strip_idemp, <- lower_strip, lower_idemp.
  destruct slug as [|c r]; [done|].
  destruct (blank (lower (strip (String c r)))) eqn:E; [|done].
  by destruct (blank (String c r)).
Qed.

Lemma lower_default_fallback n :
  lower n = n -> blank n = false ->
  let canonical :=
    match TECHNOLOGY_SLUG_MAP !! n with
    | Some c => if blank c then fallback n else c
    | None => fallback n
    end in
  let name := default canonical (SKILL_CANONICAL_MAP !! canonical) in
  lower name = name /\ blank name = false.
Proof.
  intros Hlow Hn canonical name.
  assert (forall k v, SKILL_CANONICAL_MAP !! k = Some v ->
            lower v = v /\ blank v = false) as Hcanon.
  { intros k v Hk.
    apply (forallb_string_map
      (fun kv => bool_decide (lower kv.2 = kv.2) && negb (blank kv.2))) in Hk;
      [|vm_compute; reflexivity].
    apply andb_prop in Hk as [H1%bool_decide_eq_true H2%negb_true_iff]. done. }
  assert (forall k v, TECHNOLOGY_SLUG_MAP !! k = Some v ->
            lower v = v /\ blank v = false) as Htech.
  { intros k v Hk.
    apply (forallb_string_map
      (fun kv => bool_decide (lower kv.2 = kv.2) && negb (blank kv.2))) in Hk;
      [|vm_compute; reflexivity].
    apply andb_prop in Hk as [H1%bool_decide_eq_true H2%negb_true_iff]. done. }
  assert (lower canonical = canonical /\ blank canonical = false) as [Hc1 Hc2].
  { subst canonical. destruct (TECHNOLOGY_SLUG_MAP !! n) as [v|] eqn:Hv.
    - destruct (Htech _ _ Hv) as [Hl Hb]. rewrite Hb. by split.
    - split; [by apply lower_fallback|by rewrite fallback_blank]. }
  clearbody canonical. subst name.
  destruct (SKILL_CANONICAL_MAP !! canonical) as [v|] eqn:Hv; simpl.
  - by apply (Hcanon canonical).
  - done.
Qed.

Lemma canonical_of_lower slug c :
  canonical_of slug = Some c -> lower c = c /\ c <> "".
Proof.
  unfold canonical_of. destruct (blank slug); [done|]. cbv zeta.
  destruct (blank (lower (strip slug))) eqn:Hn; [done|].
  intros Hc. apply (inj Some) in Hc.
  destruct (lower_default_fallback (lower (strip slug)) (lower_idemp _) Hn) as [H1 H2].
  cbv zeta in H1, H2. rewrite Hc in H1, H2.
  split; [exact H1|]. intros E. by rewrite E in H2.
Qed.

Lemma map_items_strs l mapped :
  map_items mapped (VStr <$> l) = inr (foldl map_slug mapped l).
Proof.
  revert mapped. induction l as [|s l IH]; intros mapped; [done|].
  rewrite fmap_cons. cbn [map_items truthy].
  destruct (blank s) eqn:Hs; simpl.
  - rewrite IH. unfold map_slug at 3, canonical_of. by rewrite Hs.
  - by rewrite IH.
Qed.

(** X5.  Whatever the slugs, [map_technology_slugs] returns names in
    ascending order without repeats, none of them empty and all of them
    in lower case; and the untyped loop that [_map_job] runs on a list of
    strings returns the same list. *)
Theorem map_technology_slugs_shape (slugs : option (list string)) :
  let names := map_technology_slugs slugs in
  Sorted str_le names /\ NoDup names /\
  Forall (fun name => name <> "" /\ lower name = name) names /\
  map_technology_slugs_dyn (VList (VStr <$> default [] slugs)) = inr names.
Proof.
  intros names. split; [|split; [|split]].
  - destruct slugs as [[|s l]|]; simpl; try constructor. apply sorted_is_sorted.
  - destruct slugs as [[|s l]|]; simpl; try constructor. apply sorted_NoDup.
  - apply Forall_forall. intros c Hc. subst names.
    destruct slugs as [l|]; [|by apply elem_of_nil in Hc].
    rewrite map_technology_slugs_eq in Hc.
    apply elem_of_sorted, elem_of_foldl_map_slug in Hc as [Hc|(x & _ & Hx)];
      [by apply elem_of_empty in Hc|].
    apply canonical_of_lower in Hx as [? ?]. done.
  - subst names. destruct slugs as [[|s l]|]; try done.
    unfold map_technology_slugs_dyn. simpl default.
    rewrite fmap_cons. cbn [truthy negb iter]. rewrite <- fmap_cons.
    by rewrite map_items_strs.
Qed.

(** X6.  The result of [map_technology_slugs] depends on the set of the
    slugs' normal forms only (stripped, in lower case): neither the order
    of the slugs, nor their repetition, their case or the blanks around
    them change it. *)
Theorem map_technology_slugs_set_semantics (slugs slugs' : list string) :
  (forall n, n ∈ (fun slug => lower (strip slug)) <$> slugs <->
             n ∈ (fun slug => lower (strip slug)) <$> slugs') ->
  map_technology_slugs (Some slugs) = map_technology_slugs (Some slugs').
Proof.
  intros Hsame. rewrite !map_technology_slugs_eq. f_equal.
  apply set_eq. intros c. rewrite !elem_of_foldl_map_slug.
  assert (forall l l' : list string,
    (forall n, n ∈ (fun slug => lower (strip slug)) <$> l ->
               n ∈ (fun slug => lower (strip slug)) <$> l') ->
    (exists x, x ∈ l /\ canonical_of x = Some c) ->
    exists x, x ∈ l' /\ canonical_of x = Some c) as Hhalf.
  { intros l l' Hsub (x & Hx & Hc).
    assert (lower (strip x) ∈ (fun slug => lower (strip slug)) <$> l') as Hn.
    { apply Hsub, list_elem_of_fmap. by exists x. }
    apply list_elem_of_fmap in Hn as (y & Hxy & Hy). exists y. split; [done|].
    by rewrite <- canonical_of_normal, <- Hxy, canonical_of_normal. }
  split; (intros [H|H]; [by left|right]).
  - apply (Hhalf slugs slugs'); [|done]. intros n. apply Hsame.
  - apply (Hhalf slugs' slugs); [|done]. intros n. apply Hsame.
Qed.

End SkillNames.

Lemma map_technology_slugs_set_semantics_witness :
  SkillExtractor.map_technology_slugs (Some ["React-JS"; " python "; "react-js"; "PYTHON"])
  = SkillExtractor.map_technology_slugs (Some ["python"; "REACT-JS "]) /\
  SkillExtractor.map_technology_slugs (Some ["python"; "REACT-JS "]) = ["python"; "react"].
Proof.
  split; [|vm_compute; reflexivity].
  apply map_technology_slugs_set_semantics.
  intros n. vm_compute fmap.
  rewrite !elem_of_cons, !elem_of_nil. tauto.
Defined.


(** ** SkillExtractor: categories and the filter *)

Section Categories.
Import SkillExtractor.

Lemma skills_under_append key key' skill c :
  skills_under key (append_under key' skill c)
  = (skills_under key c ++ if decide (key = key') then [skill] else [])%list.
Proof.
  destruct key, key'; simpl; by rewrite ?app_nil_r.
Qed.

Lemma skills_under_foldl key skills c :
  skills_under key
    (foldl (fun c skill => append_under (category_of skill) skill c) c skills)
  = (skills_under key c ++ filter (fun skill => category_of skill = key) skills)%list.
Proof.
  revert c. induction skills as [|s l IH]; intros c; simpl.
  - by rewrite app_nil_r.
  - rewrite IH, skills_under_append, filter_cons.
    generalize (category_of s). intros k.
    destruct (decide (key = k)) as [->|Hne].
    + destruct (decide (k = k)); [|done].
      by rewrite <- app_assoc.
    + destruct (decide (k = key)); [congruence|].
      by rewrite app_nil_r.
Qed.

Lemma all_skills_append key skill c :
  all_skills (append_under key skill c) ≡ₚ skill :: all_skills c.
Proof.
  unfold all_skills.
  destruct key; simpl;
    rewrite <- ?(Permutation_cons_append _ skill); simpl;
    rewrite ?Permutation_middle; try reflexivity.
Qed.

Lemma all_skills_foldl skills c :
  all_skills (foldl (fun c skill => append_under (category_of skill) skill c) c skills)
  ≡ₚ (all_skills c ++ skills)%list.
Proof.
  revert c. induction skills as [|s l IH]; intros c; simpl.
  - by rewrite app_nil_r.
  - rewrite IH, all_skills_append. simpl. apply Permutation_middle.
Qed.

(** The chain of tests finds the first table that holds the name. *)
Lemma first_of_chain (name : string) (t1 t2 t3 t4 t5 t6 : gset string) :
  (if member name t1 then ProgrammingLanguages
   else if member name t2 then FrameworksLibraries
   else if member name t3 then Databases
   else if member name t4 then CloudPlatforms
   else if member name t5 then ToolsTechnologies
   else if member name t6 then SoftSkills
   else Other)
  = match list_find (fun table : category * gset string => member name table.2 = true)
            [(ProgrammingLanguages, t1); (FrameworksLibraries, t2); (Databases, t3);
             (CloudPlatforms, t4); (ToolsTechnologies, t5); (SoftSkills, t6)] with
    | Some (_, (key, _)) => key
    | None => Other
    end.
Proof.
  cbn [list_find snd].
  generalize (member name t1), (member name t2), (member name t3),
    (member name t4), (member name t5), (member name t6).
  intros [] [] [] [] [] []; reflexivity.
Qed.

Lemma category_of_first_table skill : category_of skill = first_table (lower skill).
Proof.
  exact (first_of_chain (lower skill) PROGRAMMING_LANGUAGES FRAMEWORKS_LIBRARIES
           DATABASES CLOUD_PLATFORMS TOOLS_TECHNOLOGIES SOFT_SKILLS).
Qed.

(** X8.  [get_skill_categories] partitions its input by the first table
    that holds the skill in lower case: under each key lie exactly the
    skills whose first table is that of the key, under [other] those no
    table holds, each list in the order of the input.  So the lists
    together are a rearrangement of the input, and every skill of the
    input lies under one key only.  A name that two tables hold goes to
    the earlier one ([Docker] to the cloud platforms, [ci/cd] to the
    tools), and a name with blanks around is in no table. *)
Theorem get_skill_categories_partition (skills : list string) :
  let c := get_skill_categories skills in
  (forall key,
     skills_under key c = filter (fun skill => first_table (lower skill) = key) skills) /\
  all_skills c ≡ₚ skills /\
  (forall skill, skill ∈ skills ->
     skill ∈ skills_under (first_table (lower skill)) c /\
     forall key, skill ∈ skills_under key c -> key = first_table (lower skill)) /\
  get_skill_categories
    ["Azure Storage"; "Docker"; "TypeScript"; "Data Science"; "aws codepipeline";
     "ci/cd"; "Natural Language Processing"; "azure service bus"; "Rust lang";
     "PostgreSQL"; "React"; " python"]
  = mk_categories ["TypeScript"] ["React"] ["PostgreSQL"]
      ["Azure Storage"; "Docker"; "aws codepipeline"; "azure service bus"]
      ["ci/cd"] ["Data Science"; "Natural Language Processing"]
      ["Rust lang"; " python"].
Proof.
  intros c.
  assert (forall key,
    skills_under key c = filter (fun skill => first_table (lower skill) = key) skills) as Hf.
  { intros key. unfold c, get_skill_categories. rewrite skills_under_foldl.
    assert (skills_under key (mk_categories [] [] [] [] [] [] []) = []) as ->
      by (by destruct key).
    rewrite app_nil_l. apply list_filter_iff. intros skill.
    by rewrite category_of_first_table. }
  split; [exact Hf|]. split; [|split].
  - unfold c, get_skill_categories. by rewrite all_skills_foldl.
  - intros skill Hin. split.
    + rewrite Hf. by apply list_elem_of_filter.
    + intros key. rewrite Hf. by intros [-> _]%list_elem_of_filter.
  - vm_compute. reflexivity.
Qed.

(** A name the filter lets through is let through unchanged. *)
Lemma filter_skill_stable skill name :
  filter_skill skill = Some name -> filter_skill name = Some name.
Proof.
  unfold filter_skill at 1. cbv zeta.
  generalize (strip_idemp skill). generalize (strip skill). intros t Ht.
  destruct (blank t || (String.length t <? 2)%nat || member t exclude_words) eqn:E1;
    [done|].
  destruct (negb (has_letter t)) eqn:E2; [done|].
  destruct (50 <? String.length t)%nat eqn:E3; [done|].
  destruct (3 <? count_char " " t)%nat eqn:E4; [done|].
  destruct (SKILL_CANONICAL_MAP !! t) as [v|] eqn:Hv; simpl; intros Hn;
    apply (inj Some) in Hn; subst name.
  - apply (forallb_string_map
      (fun kv => bool_decide (filter_skill kv.2 = Some kv.2))) in Hv;
      [|vm_compute; reflexivity].
    by apply bool_decide_eq_true in Hv.
  - unfold filter_skill. cbv zeta. rewrite Ht, E1, E2, E3, E4, Hv. done.
Qed.

Lemma elem_of_filter_skills (skills : gset string) name :
  name ∈ _filter_skills skills <->
  exists skill, skill ∈ skills /\ filter_skill skill = Some name.
Proof.
  unfold _filter_skills. rewrite elem_of_sorted, elem_of_list_to_set, list_elem_of_omap.
  split; intros (s & Hs & Hn); exists s; (split; [|done]); by apply elem_of_elements.
Qed.

(** X9.  [_filter_skills] returns names in ascending order without
    repeats; each of them passes the filter unchanged, so filtering the
    result again gives the same list. *)
Theorem filter_skills_idempotent (skills : gset string) :
  let names := _filter_skills skills in
  Sorted str_le names /\ NoDup names /\
  Forall (fun name => filter_skill name = Some name) names /\
  _filter_skills (list_to_set names) = names.
Proof.
  intros names. split; [apply sorted_is_sorted|]. split; [apply sorted_NoDup|].
  assert (Forall (fun name => filter_skill name = Some name) names) as Hst.
  { apply Forall_forall. intros name (s & _ & Hs)%elem_of_filter_skills.
    by apply (filter_skill_stable s). }
  split; [exact Hst|].
  subst names. unfold _filter_skills at 1 3. f_equal.
  apply set_eq. intros name.
  rewrite !elem_of_list_to_set, !list_elem_of_omap. split.
  - intros (s & Hs & Hn). apply elem_of_elements, elem_of_list_to_set in Hs.
    rewrite (proj1 (Forall_forall _ _) Hst s Hs) in Hn. injection Hn as <-.
    apply elem_of_filter_skills in Hs as (s0 & Hs0 & Hf0).
    exists s0. split; [by apply elem_of_elements|done].
  - intros (s & Hs & Hn). exists name. split.
    + apply elem_of_elements, elem_of_list_to_set, elem_of_filter_skills.
      exists s. split; [by apply elem_of_elements|done].
    + by apply (filter_skill_stable s).
Qed.

End Categories.

(** ** JobCollectionService: role variations *)

Section Variations.
Import JobCollectionService.

Lemma unique_variations_spec seen variations :
  let result := unique_variations seen variations in
  NoDup (variation_key <$> result) /\
  (forall var, var ∈ result ->
     var ∈ variations /\ variation_key var <> "" /\ variation_key var ∉ seen) /\
  (forall var, var ∈ variations -> variation_key var <> "" ->
     variation_key var ∉ seen ->
     exists var', var' ∈ result /\ variation_key var' = variation_key var) /\
  (forall var rest, variations = var :: rest -> variation_key var <> "" ->
     variation_key var ∉ seen -> head result = Some var).
Proof.
  revert seen. induction variations as [|v l IH]; intros seen; simpl.
  - split; [constructor|]. split; [by intros ? ?%elem_of_nil|].
    split; [by intros ? ?%elem_of_nil|]. by intros ? ? [=].
  - fold (variation_key v).
    destruct (blank (variation_key v)) eqn:Hb; simpl.
    { assert (variation_key v = "") as Hv by (by destruct (variation_key v)).
      destruct (IH seen) as (Hnd & Hin & Hall & _).
      split; [done|]. split; [|split].
      - intros var Hvar. destruct (Hin var Hvar) as (? & ? & ?).
        split; [by right|done].
      - intros var [->|Hvar]%elem_of_cons Hne Hns; [done|]. by apply Hall.
      - intros var rest [= -> ->] Hne. done. }
    assert (variation_key v <> "") as Hv by (intros E; by rewrite E in Hb).
    destruct (decide (variation_key v ∈ seen)) as [Hs|Hs].
    { rewrite bool_decide_eq_true_2 by done. simpl.
      destruct (IH seen) as (Hnd & Hin & Hall & _).
      split; [done|]. split; [|split].
      - intros var Hvar. destruct (Hin var Hvar) as (? & ? & ?).
        split; [by right|done].
      - intros var [->|Hvar]%elem_of_cons Hne Hns; [done|]. by apply Hall.
      - intros var rest [= -> ->] Hne. done. }
    rewrite bool_decide_eq_false_2 by done. simpl.
    destruct (IH ({[variation_key v]} ∪ seen)) as (Hnd & Hin & Hall & _).
    split; [|split; [|split]].
    + rewrite ?fmap_cons. apply NoDup_cons. split; [|done].
      intros (var & Hk & Hvar)%list_elem_of_fmap.
      destruct (Hin var Hvar) as (_ & _ & Hns). apply Hns.
      rewrite <- Hk. apply elem_of_union. left. by apply elem_of_singleton.
    + intros var [->|Hvar]%elem_of_cons.
      * split; [by left|done].
      * destruct (Hin var Hvar) as (? & ? & Hns).
        split; [by right|]. split; [done|].
        intros Hseen. apply Hns, elem_of_union. by right.
    + intros var [->|Hvar]%elem_of_cons Hne Hns.
      * exists v. split; [by left|done].
      * destruct (decide (variation_key var = variation_key v)) as [E|E].
        -- exists v. split; [by left|done].
        -- destruct (Hall var Hvar Hne) as (var' & ? & ?).
           { intros [?%elem_of_singleton|?]%elem_of_union; done. }
           exists var'. split; [by right|done].
    + by intros var rest [= -> ->] _ _.
Qed.

Lemma unique_variations_length seen variations :
  (length (unique_variations seen variations) <= length variations)%nat.
Proof.
  revert seen. induction variations as [|v l IH]; intros seen; simpl; [done|].
  destruct (_ && _); simpl; [|by apply Nat.le_le_succ_r].
  apply le_n_S, IH.
Qed.

Lemma family_variations_length role_lower :
  (length (family_variations role_lower) <= 7)%nat.
Proof.
  unfold family_variations. cbv zeta beta.
  repeat match goal with
         | |- context [if ?b then _ else _] => destruct b; [simpl; lia|]
         end.
  simpl. lia.
Qed.

(** X10.  [_generate_role_variations] returns at most eight titles, no
    two of them equal up to case and surrounding blanks; each is the role
    itself or a title of the role's family and is not blank; every such
    title that is not blank is represented, up to case and blanks; and
    the role itself comes first when it is not blank. *)
Theorem generate_role_variations_distinct (role : string) :
  let result := _generate_role_variations role in
  NoDup (variation_key <$> result) /\
  (forall var, var ∈ result ->
     (var = role \/ var ∈ family_variations (lower role)) /\ variation_key var <> "") /\
  (forall var, var = role \/ var ∈ family_variations (lower role) ->
     variation_key var <> "" ->
     exists var', var' ∈ result /\ variation_key var' = variation_key var) /\
  (variation_key role <> "" -> head result = Some role) /\
  (length result <= 8)%nat.
Proof.
  intros result. unfold result, _generate_role_variations.
  destruct (unique_variations_spec ∅ (role :: family_variations (lower role)))
    as (Hnd & Hin & Hall & Hhead).
  split; [done|]. split; [|split; [|split]].
  - intros var Hvar. destruct (Hin var Hvar) as ([->|?]%elem_of_cons & ? & _); auto.
  - intros var Hvar Hne. apply Hall; [|done|apply not_elem_of_empty].
    destruct Hvar as [->|?]; [by left|by right].
  - intros Hne. by eapply Hhead; [|done|apply not_elem_of_empty].
  - etrans; [apply unique_variations_length|]. simpl.
    pose proof (family_variations_length (lower role)). lia.
Qed.

End Variations.

(** ** JobCollectionService: what a collection run asks of upstream *)

#[global] Instance keeps_posts_preorder : PreOrder keeps_posts.
Proof. split; [done|]. intros w1 w2 w3 ? ?. unfold keeps_posts in *. congruence. Qed.

#[global] Instance posts_grow_by_preorder P : PreOrder (posts_grow_by P).
Proof.
  split.
  - intros w. exists []. by rewrite app_nil_r.
  - intros w1 w2 w3 (l1 & H1 & F1) (l2 & H2 & F2). exists (l1 ++ l2)%list.
    split; [by rewrite H2, H1, app_assoc|]. by apply Forall_app.
Qed.

Lemma keeps_posts_grow P w w' : keeps_posts w w' -> posts_grow_by P w w'.
Proof. intros H. exists []. by rewrite app_nil_r. Qed.

Section Requests.
Import TheirStackClient JobCollectionService.
Context (env : Env).

Lemma utcnow_keeps_posts : always_leaves keeps_posts (utcnow env).
Proof. by intros w r w' [= <- <-]. Qed.

Lemma db_keeps_posts op : always_leaves keeps_posts (db op).
Proof. by intros w r w' [= <- <-]. Qed.

Lemma upsert_job_keeps_posts job_data :
  always_leaves keeps_posts (JobPosting.upsert_job env job_data).
Proof.
  unfold JobPosting.upsert_job, JobPosting.find_one, JobPosting.setattrs,
    JobPosting.save, JobPosting.insert, JobPosting.new,
    JobPosting.with_utcnow_default.
  leaves; try apply utcnow_keeps_posts; try apply db_keeps_posts;
    try (apply leaves_modify; done).
Qed.

Lemma map_job_keeps_posts role label job :
  always_leaves keeps_posts (_map_job env role label job).
Proof.
  unfold _map_job, map_fields, as_dict. leaves. apply utcnow_keeps_posts.
Qed.

Lemma process_job_keeps_posts role label limit job total :
  always_leaves keeps_posts (process_job env role label limit job total).
Proof.
  unfold process_job, as_dict, _should_skip_job. leaves.
  - apply map_job_keeps_posts.
  - apply upsert_job_keeps_posts.
Qed.

Lemma job_loop_keeps_posts role label limit data total :
  always_leaves keeps_posts (job_loop env role label limit data total).
Proof.
  revert total. induction data as [|job rest IH]; intros total; simpl; leaves.
  - apply process_job_keeps_posts.
  - apply IH.
Qed.

Lemma search_jobs_grows P payload :
  P ("/v1/jobs/search", with_defaults env payload) ->
  always_leaves (posts_grow_by P) (search_jobs env payload).
Proof.
  intros HP w r w' (m & Hm)%search_jobs_posts. exists (replicate m ("/v1/jobs/search", with_defaults env payload)).
  split; [done|]. apply Forall_forall. by intros x [-> _]%elem_of_replicate.
Qed.

End Requests.

Section Collection.
Import TheirStackClient JobCollectionService.
Context (env : Env).

Lemma build_payload_lookup role locations age page limit :
  let payload := build_payload role locations age page limit in
  payload !! "limit" = Some (VInt limit) /\
  payload !! "page" = Some (VInt page) /\
  payload !! "posted_at_max_age_days" = Some (VInt age) /\
  payload !! "job_title_or" = Some (strs (_generate_role_variations role)) /\
  payload !! "offset" = None.
Proof.
  unfold build_payload. cbv zeta.
  generalize (strs (_generate_role_variations role)). intros titles.
  destruct locations as [|loc locs]; [by vm_compute|].
  generalize (strs (loc :: locs)). intros pattern.
  destruct (omap country_code (loc :: locs)) as [|code codes].
  - unfold dict_literal. simpl. rewrite !lookup_insert_ne by done.
    repeat split; by vm_compute.
  - generalize (strs (code :: codes)). intros cc.
    unfold dict_literal. simpl. rewrite !lookup_insert_ne by done.
    repeat split; by vm_compute.
Qed.

Lemma with_defaults_build_payload role locations age page limit :
  with_defaults env (build_payload role locations age page limit)
  = build_payload role locations age page limit.
Proof.
  destruct (build_payload_lookup role locations age page limit) as (Hl & Hp & _).
  unfold with_defaults. cbv zeta. rewrite Hp. simpl.
  unfold setdefault. by rewrite Hl.
Qed.

Lemma attempt_inv {A} (m : M A) w r w' :
  attempt m w = Some (r, w') -> exists o, r = inr o /\ m w = Some (o, w').
Proof.
  unfold attempt. destruct (m w) as [[o w1]|]; [|done].
  intros [= <- <-]. by exists o.
Qed.

Lemma process_job_result role label limit job total w t brk w' :
  process_job env role label limit job total w = Some (inr (t, brk), w') ->
  total <= t <= total + 1 /\
  (brk = true -> limit <= t) /\
  (brk = false -> t = total \/ t < limit).
Proof.
  unfold process_job. intros H.
  apply bind_inv in H as [(e & _ & [=])|(fields & w1 & _ & H)].
  apply bind_inv in H as [(e & _ & [=])|(skip & w2 & _ & H)].
  destruct skip.
  { injection H as <- <- <-. split; [lia|]. split; [done|]. by left. }
  apply bind_inv in H as [(e & _ & [=])|([mapped|] & w3 & _ & H)].
  - apply bind_inv in H as [(e & _ & [=])|(outcome & w4 & _ & H)].
    injection H as <- <- <-. destruct outcome; (split; [lia|]); split; lia.
  - injection H as <- <- <-. split; [lia|]. split; [done|]. by left.
Qed.

Lemma job_loop_result role label limit data total w t w' :
  job_loop env role label limit data total w = Some (inr t, w') ->
  total <= t /\ (total < limit -> t <= limit).
Proof.
  revert total w. induction data as [|job rest IH]; intros total w; simpl.
  - intros [= <- <-]. lia.
  - intros H. apply bind_inv in H as [(e & _ & [=])|([t1 brk] & w1 & Hp & H)].
    apply process_job_result in Hp as (Ht & Hb & Hn). simpl in H.
    destruct brk.
    + injection H as <- <-. lia.
    + apply IH in H as (? & ?). specialize (Hn eq_refl). lia.
Qed.

(** The counters after one pass of the page loop. *)
Lemma page_iteration_result role label locations age limit per_page st w st' go w' :
  page_iteration env role label locations age limit per_page st w
    = Some (inr (st', go), w') ->
  total_collected st <= total_collected st' /\
  (total_collected st < limit -> total_collected st' <= limit) /\
  total_pages st <= total_pages st' <= total_pages st + 1 /\
  page st <= page st'.
Proof.
  unfold page_iteration. cbv zeta. intros H.
  apply bind_inv in H as [(e & _ & [=])|(outcome & w1 & _ & H)].
  destruct outcome as [e|response].
  { injection H as <- <- <-. lia. }
  destruct (negb (truthy (data_of response))).
  { injection H as <- <- <-. lia. }
  apply bind_inv in H as [(e & _ & [=])|(md & w2 & _ & H)].
  apply bind_inv in H as [(e & _ & [=])|(credits & w3 & _ & H)].
  apply bind_inv in H as [(e & _ & [=])|(jobs & w4 & _ & H)].
  apply bind_inv in H as [(e & _ & [=])|(collected & w5 & Hj & H)].
  apply job_loop_result in Hj as (? & ?).
  destruct (Z.geb collected limit); [injection H as <- <- <-; simpl; lia|].
  destruct (is_False _); injection H as <- <- <-; simpl; lia.
Qed.

Lemma page_iteration_requests role label locations age limit per_page st :
  1 <= page st -> per_page <= Z.max 1 (max_jobs_per_search (settings env)) ->
  always_leaves (posts_grow_by (collection_request env age))
    (page_iteration env role label locations age limit per_page st).
Proof.
  intros Hpage Hper.
  assert (forall {A} (m : M A), always_leaves keeps_posts m ->
            always_leaves (posts_grow_by (collection_request env age)) m) as Hweak.
  { intros A m. apply leaves_weaken. intros w w'. apply keeps_posts_grow. }
  unfold page_iteration, as_dict, number, iterate. leaves.
  - apply search_jobs_grows. rewrite with_defaults_build_payload.
    match goal with |- collection_request _ _ (_, build_payload ?r ?l ?a ?p ?n) =>
      destruct (build_payload_lookup r l a p n) as (Hl & Hp & Ha & Ht & _)
    end.
    split; [done|]. split; [|split; [|split]].
    + eexists. split; [exact Hl|]. lia.
    + eexists. split; [exact Hp|]. done.
    + exact Ha.
    + eexists. exact Ht.
  - apply Hweak, job_loop_keeps_posts.
Qed.

Lemma page_loop_requests budget role label locations age limit per_page st :
  1 <= page st -> per_page <= Z.max 1 (max_jobs_per_search (settings env)) ->
  always_leaves (posts_grow_by (collection_request env age))
    (page_loop budget env role label locations age limit per_page st).
Proof.
  intros Hpage Hper. revert st Hpage.
  induction budget as [|b IH]; intros st Hpage w r w'; simpl.
  - destruct (negb _); [|done]. intros [= <- <-]. reflexivity.
  - destruct (negb _); [intros [= <- <-]; reflexivity|].
    intros H. apply bind_inv in H as [(e & H & _)|([st' go] & w1 & Hit & H)].
    + by apply (page_iteration_requests _ _ _ _ _ _ _ Hpage Hper) in H.
    + pose proof (page_iteration_result _ _ _ _ _ _ _ _ _ _ _ Hit) as (_ & _ & _ & Hp').
      apply (page_iteration_requests _ _ _ _ _ _ _ Hpage Hper) in Hit.
      simpl in H. destruct go.
      * apply IH in H; [|lia]. by etrans.
      * by injection H as <- <-.
Qed.

(** The counters when the page loop is left. *)
Lemma page_loop_result budget role label locations age limit per_page st w st' w' :
  page_loop budget env role label locations age limit per_page st w
    = Some (inr st', w') ->
  0 <= total_collected st <= Z.max 0 limit -> 0 <= total_pages st ->
  0 <= total_collected st' <= Z.max 0 limit /\ 0 <= total_pages st'.
Proof.
  revert st w. induction budget as [|b IH]; intros st w; simpl.
  - destruct (negb _); [|done]. by intros [= <- <-].
  - destruct (Z.ltb_spec (total_collected st) limit) as [Hlt|Hge]; simpl;
      [|by intros [= <- <-]].
    intros H Hc Hp.
    apply bind_inv in H as [(e & _ & [=])|([st1 go] & w1 & Hit & H)].
    apply page_iteration_result in Hit as (? & Hle & ? & ?).
    specialize (Hle Hlt). simpl in H. destruct go.
    + apply IH in H; [done|lia|lia].
    + injection H as <- <-. lia.
Qed.

End Collection.

Section CollectionRuns.
Import TheirStackClient JobCollectionService.
Context (env : Env).

Lemma collect_role_requests budget label locations age limit summary role :
  always_leaves (posts_grow_by (collection_request env age))
    (collect_role budget env label locations age limit summary role).
Proof.
  unfold collect_role. cbv zeta. destruct (blank (strip role)); [apply leaves_ret; apply _|].
  apply leaves_bind; [apply _| |intros st; apply leaves_ret; apply _].
  apply page_loop_requests; simpl; lia.
Qed.

Lemma role_loop_requests budget label locations age limit summary roles :
  always_leaves (posts_grow_by (collection_request env age))
    (role_loop budget env label locations age limit summary roles).
Proof.
  revert summary. induction roles as [|role rest IH]; intros summary; simpl.
  - apply leaves_ret. apply _.
  - apply leaves_bind; [apply _|apply collect_role_requests|intros s; apply IH].
Qed.

(** X11.  Every request a collection run sends goes to the search
    endpoint and asks for at least one and at most
    [max 1 max_jobs_per_search] postings, no older than [max_age_days],
    from a page numbered from 1, with the title variations of a role:
    whatever the caller's per-role limit, no call asks upstream for more
    than the configured maximum. *)
Theorem collect_jobs_for_roles_requests
    (budget : nat) (roles : list string) (locations : option (list string))
    (max_age_days per_role_limit : Z) (w : world)
    (r : exn + gmap string RoleSummary) (w' : world) :
  collect_jobs_for_roles budget env roles locations max_age_days per_role_limit w
    = Some (r, w') ->
  exists sent,
    posts w' = (posts w ++ sent)%list /\
    Forall (collection_request env max_age_days) sent.
Proof.
  unfold collect_jobs_for_roles. destruct roles as [|role0 roles0].
  - intros [= <- <-]. exists []. by rewrite app_nil_r.
  - intros H. by apply role_loop_requests in H.
Qed.

Lemma collect_role_result budget label locations age limit summary role w summary' w' :
  collect_role budget env label locations age limit summary role w
    = Some (inr summary', w') ->
  (blank (strip role) = true /\ summary' = summary) \/
  (blank (strip role) = false /\
   exists s, within_limit limit s /\ summary' = <[strip role := s]> summary).
Proof.
  unfold collect_role. cbv zeta. destruct (blank (strip role)) eqn:Hb.
  - intros [= <- <-]. by left.
  - intros H. right. split; [done|].
    apply bind_inv in H as [(e & _ & [=])|(st & w1 & Hl & H)].
    injection H as <- <-. eexists. split; [|reflexivity].
    apply page_loop_result in Hl; simpl; [|lia|lia]. done.
Qed.

Lemma role_loop_result budget label locations age limit summary roles w summary' w' :
  role_loop budget env label locations age limit summary roles w
    = Some (inr summary', w') ->
  (forall key s, summary' !! key = Some s ->
     summary !! key = Some s \/
     (within_limit limit s /\ exists role, role ∈ roles /\ key = strip role /\ key <> "")) /\
  (forall key, is_Some (summary !! key) -> is_Some (summary' !! key)) /\
  (forall role, role ∈ roles -> strip role <> "" -> is_Some (summary' !! strip role)).
Proof.
  revert summary w. induction roles as [|role rest IH]; intros summary w; simpl.
  - intros [= <- <-]. split; [by left|]. split; [done|]. by intros ? ?%elem_of_nil.
  - intros H. apply bind_inv in H as [(e & _ & [=])|(s1 & w1 & Hc & H)].
    apply IH in H as (Hin & Hkeep & Hall).
    apply collect_role_result in Hc as [(Hb & ->)|(Hb & s & Hs & ->)].
    + split; [|split].
      * intros key s Hk. destruct (Hin key s Hk) as [?|(? & r & ? & ? & ?)]; [by left|].
        right. split; [done|]. exists r. split; [by right|done].
      * done.
      * intros r [->|Hr]%elem_of_cons Hne; [|by apply Hall].
        by destruct (strip role).
    + assert (strip role <> "") as Hne by (intros E; by rewrite E in Hb).
      split; [|split].
      * intros key s' Hk. destruct (Hin key s' Hk) as [Hk'|(? & r & ? & ? & ?)].
        -- apply lookup_insert_Some in Hk' as [[<- <-]|[_ ?]]; [|by left].
           right. split; [done|]. exists role. split; [by left|done].
        -- right. split; [done|]. exists r. split; [by right|done].
      * intros key Hk. apply Hkeep.
        destruct (decide (strip role = key)) as [<-|?].
        -- rewrite lookup_insert_eq. by eexists.
        -- by rewrite lookup_insert_ne.
      * intros r [->|Hr]%elem_of_cons Hr'; [|by apply Hall].
        apply Hkeep. rewrite lookup_insert_eq. by eexists.
Qed.

(** X12.  The summary a collection run returns has one entry for each
    role that is not blank once stripped, under the stripped role, and
    none else; in each entry the number of postings collected lies
    between 0 and the per-role limit (0 when the limit is negative), and
    the number of pages is not negative. *)
Theorem collect_jobs_for_roles_summary
    (budget : nat) (roles : list string) (locations : option (list string))
    (max_age_days per_role_limit : Z) (w : world)
    (summary : gmap string RoleSummary) (w' : world) :
  collect_jobs_for_roles budget env roles locations max_age_days per_role_limit w
    = Some (inr summary, w') ->
  (forall key, is_Some (summary !! key) <->
     key <> "" /\ exists role, role ∈ roles /\ key = strip role) /\
  (forall key s, summary !! key = Some s ->
     0 <= jobs_collected s <= Z.max 0 per_role_limit /\ 0 <= pages_fetched s).
Proof.
  unfold collect_jobs_for_roles. destruct roles as [|role0 roles0].
  - intros [= <- <-]. split.
    + intros key. rewrite lookup_empty. split; [by intros [? ?]|].
      by intros (_ & ? & ?%elem_of_nil & _).
    + intros key s. by rewrite lookup_empty.
  - intros H. apply role_loop_result in H as (Hin & _ & Hall). split.
    + intros key. split.
      * intros [s Hs]. destruct (Hin key s Hs) as [Hk|(_ & r & ? & ? & ?)].
        -- by rewrite lookup_empty in Hk.
        -- split; [done|]. by exists r.
      * intros (Hne & r & Hr & ->). by apply Hall.
    + intros key s Hs. destruct (Hin key s Hs) as [Hk|(Hw & _)]; [|done].
      by rewrite lookup_empty in Hk.
Qed.

End CollectionRuns.

Section FailingUpstream.
Import TheirStackClient JobCollectionService.
Context (env : Env).
Context (Hfail : forall i endpoint body, exists err,
           check_status (transport env i endpoint body) = inl err).

Lemma retrying_fails budget n endpoint body k w :
  (n < k + budget)%nat -> (1 <= budget)%nat ->
  exists err w',
    retrying budget n (post_attempt env endpoint body) k w = Some (inl err, w').
Proof.
  revert k w. induction budget as [|b IH]; intros k w Hb H1; [lia|]. simpl.
  unfold mbind, M_bind, bind, attempt. rewrite post_attempt_eq.
  destruct (Hfail (length (posts w)) endpoint body) as [err ->].
  destruct (is_retryable err); simpl; [|munfold; by eauto].
  unfold stop_after_attempt. destruct (Nat.leb_spec n k); simpl; [munfold; by eauto|].
  unfold sleep. munfold. apply IH; lia.
Qed.

Lemma search_jobs_fails payload w :
  has_temporal_filter payload ->
  exists err w', search_jobs env payload w = Some (inl err, w') /\ keeps_store w w'.
Proof.
  intros Hf.
  destruct (retrying_fails (Nat.max 1 (their_stack_max_retries (settings env)))
              (their_stack_max_retries (settings env)) "/v1/jobs/search"
              (with_defaults env payload) 1 w) as (err & w' & Hr); [lia|lia|].
  assert (exists err', search_jobs env payload w = Some (inl err', w')) as [err' Hs].
  { unfold search_jobs. unfold mbind at 1. unfold M_bind, bind.
    rewrite (validate_payload_accepts _ _ Hf).
    unfold _post_with_retry, mbind, M_bind, bind, try_except. rewrite Hr.
    destruct err; munfold; by eexists. }
  exists err', w'. split; [done|]. by apply search_jobs_keeps_store in Hs.
Qed.

Lemma build_payload_has_temporal_filter role locations age page limit :
  has_temporal_filter (build_payload role locations age page limit).
Proof.
  destruct (build_payload_lookup role locations age page limit) as (_ & _ & Ha & _).
  exists "posted_at_max_age_days", (VInt age). split; [|done].
  unfold date_filter_keys. apply elem_of_cons. by left.
Qed.

Lemma page_loop_fails budget role label locations age limit per_page st w :
  (1 <= budget)%nat ->
  exists w', page_loop budget env role label locations age limit per_page st w
             = Some (inr st, w') /\ keeps_store w w'.
Proof.
  intros Hb. destruct budget as [|b]; [lia|]. simpl.
  destruct (negb _); [exists w; split; [done|reflexivity]|].
  unfold page_iteration. cbv zeta.
  match goal with |- context [search_jobs env ?p] =>
    destruct (search_jobs_fails p w) as (err & w' & Hs & Hk);
      [apply build_payload_has_temporal_filter|]
  end.
  exists w'. split; [|done].
  unfold mbind, M_bind, bind, attempt. by rewrite Hs.
Qed.

Lemma role_loop_fails budget label locations age limit summary roles w :
  (1 <= budget)%nat ->
  exists w',
    role_loop budget env label locations age limit summary roles w
    = Some (inr (foldl (fun s role =>
                   if blank (strip role) then s
                   else <[strip role := mk_summary 0 0 0]> s) summary roles), w') /\
    keeps_store w w'.
Proof.
  intros Hb. revert summary w. induction roles as [|role rest IH]; intros summary w; simpl.
  - exists w. split; [done|reflexivity].
  - unfold collect_role. cbv zeta. destruct (blank (strip role)).
    + rewrite bind_ret_l. apply IH.
    + match goal with |- context [page_loop budget env ?r ?l ?ls ?a ?lim ?pp ?st] =>
        destruct (page_loop_fails budget r l ls a lim pp st w Hb) as (w1 & Hl & Hk)
      end.
      destruct (IH (<[strip role := mk_summary 0 0 0]> summary) w1) as (w' & Hr & Hk').
      exists w'. split; [|by etrans].
      unfold mbind, M_bind, bind in *. rewrite Hl. simpl. exact Hr.
Qed.

Lemma lookup_foldl_zero (roles : list string) (summary : gmap string RoleSummary) key :
  foldl (fun s role =>
           if blank (strip role) then s
           else <[strip role := mk_summary 0 0 0]> s) summary roles !! key
  = if bool_decide (key <> "" /\ key ∈ strip <$> roles)
    then Some (mk_summary 0 0 0) else summary !! key.
Proof.
  revert summary. induction roles as [|role rest IH]; intros summary; simpl.
  - rewrite bool_decide_eq_false_2; [done|]. by intros [_ ?%elem_of_nil].
  - rewrite IH. destruct (decide (key <> "" /\ key ∈ strip <$> rest)) as [Hk|Hk].
    + rewrite !bool_decide_eq_true_2; [done| |done].
      destruct Hk. split; [done|]. by right.
    + rewrite (bool_decide_eq_false_2 _ Hk).
      destruct (blank (strip role)) eqn:Hb.
      * rewrite bool_decide_eq_false_2; [done|].
        intros [Hne [->|?]%elem_of_cons]; [by destruct (strip role)|]. by apply Hk.
      * destruct (decide (strip role = key)) as [<-|Hne].
        -- rewrite lookup_insert_eq, bool_decide_eq_true_2; [done|].
           split; [intros E; by rewrite E in Hb|by left].
        -- rewrite lookup_insert_ne by done. rewrite bool_decide_eq_false_2; [done|].
           intros [? [?|?]%elem_of_cons]; [done|]. by apply Hk.
Qed.

End FailingUpstream.

Section FailingUpstreamRuns.
Import TheirStackClient JobCollectionService.
Context (env : Env).

(** X13.  Errors of upstream stay within their role.  When upstream
    answers no request successfully (failed requests, 401, 403, 429, 4xx,
    5xx), a collection run still returns normally: every role that is
    not blank has its entry, with nothing collected, no page and no
    credit; nothing is handed to [upsert_job] and the store is left as
    it was. *)
Theorem collect_jobs_for_roles_survives_failures
    (budget : nat) (roles : list string) (locations : option (list string))
    (max_age_days per_role_limit : Z) (w : world) :
  (forall i endpoint body, exists err,
      check_status (transport env i endpoint body) = inl err) ->
  (1 <= budget)%nat ->
  exists summary w',
    collect_jobs_for_roles budget env roles locations max_age_days per_role_limit w
      = Some (inr summary, w') /\
    store w' = store w /\ upserts w' = upserts w /\
    forall key,
      summary !! key
      = if bool_decide (key <> "" /\ key ∈ strip <$> roles)
        then Some (mk_summary 0 0 0) else None.
Proof.
  intros Hfail Hb. unfold collect_jobs_for_roles. destruct roles as [|role0 roles0].
  - exists ∅, w. split; [done|]. split; [done|]. split; [done|].
    intros key. rewrite lookup_empty, bool_decide_eq_false_2; [done|].
    by intros [_ ?%elem_of_nil].
  - edestruct (role_loop_fails env Hfail budget) as (w' & Hr & Hs & Hu & _); [done|].
    eexists _, w'. split; [exact Hr|]. split; [done|]. split; [done|].
    intros key. by rewrite lookup_foldl_zero, lookup_empty.
Qed.

End FailingUpstreamRuns.

(** ** JobCollectionService: what is handed to upsert_job *)

Section Mapped.
Import TheirStackClient JobCollectionService.
Context (env : Env).

Lemma lookup_foldl_insert_is_Some {V} (kvs : list (string * V)) (m : gmap string V) k :
  is_Some (foldl (fun m kv => <[kv.1 := kv.2]> m) m kvs !! k)
  <-> is_Some (m !! k) \/ k ∈ kvs.*1.
Proof.
  revert m. induction kvs as [|[k0 v0] rest IH]; intros m; simpl.
  - rewrite elem_of_nil. tauto.
  - rewrite IH, elem_of_cons. destruct (decide (k0 = k)) as [->|Hne].
    + rewrite lookup_insert_eq. split; [auto|]. intros _. left. by eexists.
    + rewrite lookup_insert_ne by done. split; [tauto|].
      intros [?|[?|?]]; [tauto|congruence|tauto].
Qed.

(** What [map_fields] returns when it returns. *)
Lemma map_fields_inv role label job w mapped w' :
  map_fields env role label job w = Some (inr mapped, w') ->
  exists job_id company company_domain location description skills url date_posted
         min_salary max_salary remote technology_slugs coordinates,
    mapped = dict_literal [
      ("job_id", job_id);
      ("title", or_else (or_else (get job "job_title") (get job "title")) (VStr role));
      ("company", company); ("company_domain", company_domain);
      ("location", location); ("description", description);
      ("skills", strs skills); ("url", url); ("date_posted", date_posted);
      ("min_annual_salary_usd", min_salary); ("max_annual_salary_usd", max_salary);
      ("remote", remote); ("technology_slugs", technology_slugs);
      ("search_keywords", VStr role); ("search_location", VStr label);
      ("coordinates", coordinates); ("scraped_at", VTime (clock env (ticks w)))] /\
    (job_id = VNone \/ exists s, job_id = VStr s) /\
    SkillExtractor.map_technology_slugs_dyn technology_slugs = inr skills /\
    w' = set_ticks S w.
Proof.
  unfold map_fields. cbv zeta. intros H.
  apply bind_inv in H as [(e & _ & [=])|(skills & w1 & Hsk & H)].
  apply bind_inv in H as [(e & _ & [=])|(company & w2 & Hco & H)].
  apply bind_inv in H as [(e & _ & [=])|(now & w3 & Hnow & H)].
  assert (w1 = w /\ SkillExtractor.map_technology_slugs_dyn
            (or_else (get job "technology_slugs") (VList [])) = inr skills) as [-> Hdyn].
  { revert Hsk. unfold lift. destruct (SkillExtractor.map_technology_slugs_dyn _);
      munfold; intros [=]; by subst. }
  assert (w2 = w) as ->.
  { revert Hco. unfold as_dict.
    destruct (or_else (get job "company_object") (VDict [])); munfold;
      intros [=]; by subst. }
  injection Hnow as <- <-. injection H as <- <-.
  do 13 eexists. split; [reflexivity|]. split; [|split; [exact Hdyn|done]].
  destruct (is_none _); [by left|right; by eexists].
Qed.

Lemma map_technology_slugs_dyn_sorted slugs names :
  SkillExtractor.map_technology_slugs_dyn slugs = inr names ->
  Sorted str_le names /\ NoDup names.
Proof.
  unfold SkillExtractor.map_technology_slugs_dyn.
  destruct (negb (truthy slugs)); [intros [= <-]; split; constructor|].
  destruct (iter slugs) as [items|]; [|done].
  destruct (SkillExtractor.map_items ∅ items) as [e|mapped]; [done|].
  intros [= <-]. split; [apply sorted_is_sorted|apply sorted_NoDup].
Qed.

Lemma mapped_keys_are_fields k : k ∈ mapped_keys -> JobPosting.is_field k = true.
Proof.
  unfold mapped_keys. intros Hk.
  repeat (apply elem_of_cons in Hk as [->|Hk]; [reflexivity|]).
  by apply elem_of_nil in Hk.
Qed.

Lemma map_job_inv role label job w mapped w' :
  _map_job env role label job w = Some (inr (Some mapped), w') ->
  exists fields,
    job = VDict fields /\
    map_fields env role label fields w = Some (inr mapped, w') /\
    identifiable mapped = true.
Proof.
  intros H. pose proof (map_job_identifiable env _ _ _ _ _ _ H) as Hid.
  unfold _map_job in H. destruct job; try (by injection H).
  exists fields. split; [done|]. split; [|done].
  apply bind_inv in H as [(e & _ & [=])|(m & w1 & Hm & H)].
  destruct (_ && _); [by injection H|]. injection H as <- <-. done.
Qed.

(** X14.  A posting that [_map_job] lets through has exactly the
    seventeen keys of the mapping, all of them fields of [JobPosting];
    it carries the role and the location label it was searched with and
    the time of the mapping as [scraped_at]; its [job_id] is [None] or a
    string, its [skills] a sorted list without repeats, and it has an
    identifier.  Mapping reads the clock once and does nothing else.  So
    [upsert_job] never fails on such a posting for an unknown field: if
    pydantic accepts it, it is stored. *)
Theorem map_job_shape (role label : string) (job : value) (w : world)
    (mapped : gmap string value) (w' : world) :
  _map_job env role label job w = Some (inr (Some mapped), w') ->
  (forall k, is_Some (mapped !! k) <-> k ∈ mapped_keys) /\
  (forall k v, mapped !! k = Some v -> JobPosting.is_field k = true) /\
  mapped !! "search_keywords" = Some (VStr role) /\
  mapped !! "search_location" = Some (VStr label) /\
  mapped !! "scraped_at" = Some (VTime (clock env (ticks w))) /\
  (mapped !! "job_id" = Some VNone \/ exists s, mapped !! "job_id" = Some (VStr s)) /\
  (exists names,
     mapped !! "skills" = Some (strs names) /\ Sorted str_le names /\ NoDup names) /\
  identifiable mapped = true /\
  w' = set_ticks S w /\
  ((forall t, validates env (<["updated_at" := VTime t]> mapped) = true) ->
   exists i d w2, JobPosting.upsert_job env mapped w' = Some (inr (i, d), w2)).
Proof.
  intros H. apply map_job_inv in H as (fields & -> & Hm & Hid).
  apply map_fields_inv in Hm
    as (job_id & company & domain & location & description & skills & url & posted
        & smin & smax & remote & slugs & coordinates & -> & Hjob & Hdyn & ->).
  assert (forall k, is_Some (dict_literal [
      ("job_id", job_id);
      ("title", or_else (or_else (get fields "job_title") (get fields "title")) (VStr role));
      ("company", company); ("company_domain", domain);
      ("location", location); ("description", description);
      ("skills", strs skills); ("url", url); ("date_posted", posted);
      ("min_annual_salary_usd", smin); ("max_annual_salary_usd", smax);
      ("remote", remote); ("technology_slugs", slugs);
      ("search_keywords", VStr role); ("search_location", VStr label);
      ("coordinates", coordinates); ("scraped_at", VTime (clock env (ticks w)))] !! k)
    <-> k ∈ mapped_keys) as Hkeys.
  { intros k. unfold dict_literal. rewrite lookup_foldl_insert_is_Some, lookup_empty.
    split; [intros [[? [=]]|?]; done|by right]. }
  assert (forall k v, dict_literal [
      ("job_id", job_id);
      ("title", or_else (or_else (get fields "job_title") (get fields "title")) (VStr role));
      ("company", company); ("company_domain", domain);
      ("location", location); ("description", description);
      ("skills", strs skills); ("url", url); ("date_posted", posted);
      ("min_annual_salary_usd", smin); ("max_annual_salary_usd", smax);
      ("remote", remote); ("technology_slugs", slugs);
      ("search_keywords", VStr role); ("search_location", VStr label);
      ("coordinates", coordinates); ("scraped_at", VTime (clock env (ticks w)))] !! k
      = Some v -> JobPosting.is_field k = true) as Hfields.
  { intros k v Hk. apply mapped_keys_are_fields, Hkeys. by eexists. }
  split; [exact Hkeys|]. split; [exact Hfields|].
  split; [reflexivity|]. split; [reflexivity|]. split; [reflexivity|]. split.
  { destruct Hjob as [->|[s ->]]; [by left|right; by exists s]. }
  split.
  { exists skills. split; [reflexivity|]. by apply map_technology_slugs_dyn_sorted in Hdyn. }
  split; [exact Hid|]. split; [done|].
  intros Hval.
  destruct (upsert_job_acts env _ (set_ticks S w) Hfields Hval) as (i & d & w2 & Hrun & _).
  by exists i, d, w2.
Qed.

End Mapped.

Section ReactNative.
Import TheirStackClient JobCollectionService.
Context (env : Env).

Lemma contains_unfold sub s :
  contains sub s =
  starts_with sub s || match s with EmptyString => false | String _ r => contains sub r end.
Proof. by destruct s. Qed.

Lemma starts_with_contains a b s :
  starts_with (a ++ b) s = true -> contains b s = true.
Proof.
  revert s. induction a as [|c a IH]; intros s.
  - change ("" ++ b) with b. intros H. by rewrite contains_unfold, H.
  - change (String c a ++ b) with (String c (a ++ b)).
    destruct s as [|c' s]; [done|]. cbn [starts_with]. intros [_ H]%andb_prop.
    apply IH in H. rewrite contains_unfold, H. by rewrite orb_true_r.
Qed.

Lemma contains_suffix a b s :
  contains (a ++ b) s = true -> contains b s = true.
Proof.
  induction s as [|c s IH]; rewrite (contains_unfold (a ++ b)).
  - rewrite orb_false_r. apply starts_with_contains.
  - intros [H|H]%orb_prop.
    + by apply starts_with_contains in H.
    + apply IH in H. rewrite contains_unfold, H. by rewrite orb_true_r.
Qed.

Lemma react_native_for_web_same role : react_native_for_web role role = false.
Proof.
  unfold react_native_for_web.
  destruct (contains "react native" (lower role)) eqn:E; [|by rewrite andb_false_r].
  apply (contains_suffix "react " "native") in E. rewrite E. simpl.
  by rewrite andb_false_r.
Qed.

Lemma should_skip_job_false role title w w' :
  _should_skip_job role title w = Some (inr false, w') ->
  truthy title = false \/
  exists t, title = VStr t /\ react_native_for_web role t = false.
Proof.
  unfold _should_skip_job. destruct (truthy title) eqn:Ht; simpl; [|by left].
  destruct title; try done. right. exists s. split; [done|].
  unfold react_native_for_web. destruct (_ && _); [done|done].
Qed.

Lemma filed_under_mono roles roles' p :
  (forall role, role ∈ roles -> role ∈ roles') ->
  filed_under roles p -> filed_under roles' p.
Proof. intros Hsub (role & ? & ?). exists role. split; [by apply Hsub|done]. Qed.

Lemma keeps_store_filed roles {A} (m : M A) :
  always_leaves keeps_store m -> always_leaves (upserts_grow_by (filed_under roles)) m.
Proof.
  apply leaves_weaken. intros w w' H.
  by apply keeps_upserts_grow, keeps_store_upserts.
Qed.

Lemma process_job_files role label limit job total :
  strip role <> "" ->
  always_leaves (upserts_grow_by (filed_under [role]))
    (process_job env (strip role) label limit job total).
Proof.
  intros Hne w r w' H. unfold process_job in H.
  apply bind_inv in H as [(e & H & _)|(fields & w1 & Hd & H)].
  { revert H. unfold as_dict. munfold. destruct job; intros [=]; subst; reflexivity. }
  assert (w1 = w /\ job = VDict fields) as [-> ->].
  { revert Hd. unfold as_dict. munfold. destruct job; intros [=]; by subst. }
  apply bind_inv in H as [(e & [-> _]%should_skip_job_pure & _)
                          |(skip & w2 & Hskip & H)];
    [reflexivity|].
  pose proof (should_skip_job_pure _ _ _ _ _ Hskip) as [-> _].
  destruct skip; [by injection H as <- <-|].
  apply should_skip_job_false in Hskip.
  apply bind_inv in H as [(e & H & _)|([mapped|] & w1 & Hmap & H)].
  - by apply (keeps_store_filed [role] _ (map_job_keeps env (strip role) label _)) in H.
  - assert (filed_under [role] mapped) as Hfiled.
    { apply map_job_inv in Hmap as (fields' & [= <-] & Hm & _).
      apply map_fields_inv in Hm
        as (job_id & company & domain & location & description & skills & url & posted
            & smin & smax & remote & slugs & coordinates & -> & _).
      exists role. split; [by left|]. split; [done|]. split; [reflexivity|].
      intros title Ht.
      assert (or_else (or_else (get fields "job_title") (get fields "title"))
                (VStr (strip role)) = VStr title) as Htitle.
      { revert Ht. generalize (or_else (or_else (get fields "job_title")
                                 (get fields "title")) (VStr (strip role))).
        intros v Hv. vm_compute in Hv. by injection Hv. }
      unfold or_else at 1 in Htitle.
      destruct Hskip as [Hf|(t & Ht' & Hrn)].
      - rewrite Hf in Htitle. injection Htitle as <-. apply react_native_for_web_same.
      - rewrite Ht' in Htitle. destruct (truthy (VStr t)).
        + by injection Htitle as <-.
        + injection Htitle as <-. apply react_native_for_web_same. }
    apply (keeps_store_filed [role] _ (map_job_keeps env (strip role) label _)) in Hmap.
    etrans; [exact Hmap|].
    pose proof (leaves_attempt _ _
      (upsert_job_grows env (filed_under [role]) mapped Hfiled)) as Hup'.
    apply bind_inv in H as [(e & H & _)|(outcome & w2 & Hup & H)].
    + by apply Hup' in H.
    + apply Hup' in Hup. by injection H as <- <-.
  - apply (keeps_store_filed [role] _ (map_job_keeps env (strip role) label _)) in Hmap.
    by injection H as <- <-.
Qed.

Lemma job_loop_files role label limit data total :
  strip role <> "" ->
  always_leaves (upserts_grow_by (filed_under [role]))
    (job_loop env (strip role) label limit data total).
Proof.
  intros Hne. revert total.
  induction data as [|job rest IH]; intros total; simpl; leaves.
  - by apply process_job_files.
  - apply IH.
Qed.

Lemma page_loop_files budget role label locations age limit per_page st :
  strip role <> "" ->
  always_leaves (upserts_grow_by (filed_under [role]))
    (page_loop budget env (strip role) label locations age limit per_page st).
Proof.
  intros Hne. revert st. induction budget as [|b IH]; intros st; simpl; leaves.
  - unfold page_iteration, as_dict, number, iterate. leaves.
    + apply keeps_store_filed, search_jobs_keeps_store.
    + by apply job_loop_files.
  - apply IH.
Qed.

Lemma role_loop_files budget label locations age limit summary roles :
  always_leaves (upserts_grow_by (filed_under roles))
    (role_loop budget env label locations age limit summary roles).
Proof.
  revert summary. induction roles as [|role rest IH]; intros summary; simpl.
  - apply leaves_ret. apply _.
  - apply leaves_bind; [apply _| |intros s].
    + unfold collect_role. cbv zeta. destruct (blank (strip role)) eqn:Hb.
      * apply leaves_ret. apply _.
      * apply leaves_bind; [apply _| |intros st; apply leaves_ret; apply _].
        apply (leaves_weaken (upserts_grow_by (filed_under [role]))).
        { intros w w' (l & Hl & Hf). exists l. split; [done|].
          eapply Forall_impl; [exact Hf|]. intros p. apply filed_under_mono.
          intros r ->%list_elem_of_singleton. by left. }
        apply page_loop_files. intros E. by rewrite E in Hb.
    + apply (leaves_weaken (upserts_grow_by (filed_under rest))); [|apply IH].
      intros w w' (l & Hl & Hf). exists l. split; [done|].
      eapply Forall_impl; [exact Hf|]. intros p. apply filed_under_mono.
      intros r Hr. by right.
Qed.

(** X15.  Every posting a collection run hands to [upsert_job] is filed
    under one of the roles asked for, stripped, as its
    [search_keywords]; and when that role mentions React but not Native,
    the posting's title, if it is a string, does not mention React
    Native. *)
Theorem collect_jobs_for_roles_files_under_role
    (budget : nat) (roles : list string) (locations : option (list string))
    (max_age_days per_role_limit : Z) (w : world)
    (r : exn + gmap string RoleSummary) (w' : world) :
  collect_jobs_for_roles budget env roles locations max_age_days per_role_limit w
    = Some (r, w') ->
  exists handed,
    upserts w' = (upserts w ++ handed)%list /\
    Forall (filed_under roles) handed.
Proof.
  unfold collect_jobs_for_roles. destruct roles as [|role0 roles0].
  - intros [= <- <-]. exists []. by rewrite app_nil_r.
  - intros H. by apply role_loop_files in H.
Qed.

End ReactNative.

(** A run against an upstream with one page of one posting. *)
Lemma one_page_run :
  outcome_of
    (JobCollectionService.collect_jobs_for_roles 5 Fixtures.env_has_more_false
       Fixtures.some_roles (Some [" Pune, India "; ""]) 7 5 Fixtures.w0)
  = Some (inr (<["QA Engineer" := JobCollectionService.mk_summary 1 1 0]>
                 (<["Backend Developer" := JobCollectionService.mk_summary 1 1 0]> ∅))).
Proof. vm_compute. reflexivity. Qed.

Lemma collect_jobs_for_roles_requests_witness :
  exists r w' sent,
    JobCollectionService.collect_jobs_for_roles 5 Fixtures.env_has_more_false
      Fixtures.some_roles (Some [" Pune, India "; ""]) 7 5 Fixtures.w0 = Some (r, w') /\
    posts w' = sent /\
    Forall (JobCollectionService.collection_request Fixtures.env_has_more_false 7) sent.
Proof.
  pose proof one_page_run as Hrun.
  destruct (JobCollectionService.collect_jobs_for_roles _ _ _ _ _ _ _)
    as [[r w']|] eqn:E; [|discriminate Hrun].
  destruct (collect_jobs_for_roles_requests _ _ _ _ _ _ _ _ _ E) as (sent & Hp & Hs).
  exists r, w', sent. split; [reflexivity|]. by split.
Defined.

Lemma collect_jobs_for_roles_summary_witness :
  exists summary w',
    JobCollectionService.collect_jobs_for_roles 5 Fixtures.env_has_more_false
      Fixtures.some_roles (Some [" Pune, India "; ""]) 7 5 Fixtures.w0
      = Some (inr summary, w') /\
    is_Some (summary !! "QA Engineer") /\
    forall key s, summary !! key = Some s ->
      0 <= JobCollectionService.jobs_collected s <= 5.
Proof.
  pose proof one_page_run as Hrun.
  destruct (JobCollectionService.collect_jobs_for_roles _ _ _ _ _ _ _)
    as [[[e|summary] w']|] eqn:E; try discriminate Hrun.
  destruct (collect_jobs_for_roles_summary _ _ _ _ _ _ _ _ _ E) as (Hkeys & Hbounds).
  exists summary, w'. split; [reflexivity|]. split.
  - apply Hkeys. split; [done|]. exists " QA Engineer ".
    split; [|vm_compute; reflexivity].
    unfold Fixtures.some_roles. rewrite !elem_of_cons. auto.
  - intros key s Hs. destruct (Hbounds key s Hs) as [H _]. lia.
Defined.

Lemma collect_jobs_for_roles_survives_failures_witness :
  exists summary w',
    JobCollectionService.collect_jobs_for_roles 1 Fixtures.env_503
      Fixtures.some_roles None 7 5 Fixtures.w0 = Some (inr summary, w') /\
    store w' = [] /\ upserts w' = [] /\
    summary !! "QA Engineer" = Some (JobCollectionService.mk_summary 0 0 0) /\
    summary !! "  " = None.
Proof.
  destruct (collect_jobs_for_roles_survives_failures Fixtures.env_503 1
              Fixtures.some_roles None 7 5 Fixtures.w0)
    as (summary & w' & Hrun & Hs & Hu & Hsum).
  - intros i endpoint body. by eexists.
  - lia.
  - exists summary, w'. split; [exact Hrun|]. split; [exact Hs|]. split; [exact Hu|].
    rewrite !Hsum. split.
    + rewrite bool_decide_eq_true_2; [done|]. split; [done|].
      vm_compute fmap. rewrite !elem_of_cons. auto.
    + rewrite bool_decide_eq_false_2; [done|]. vm_compute fmap.
      rewrite !elem_of_cons, elem_of_nil. intros [_ [?|[?|[?|?]]]]; done.
Defined.

Lemma map_job_shape_witness :
  exists mapped w',
    JobCollectionService._map_job Fixtures.env_200 "Backend Developer" "Pune"
      Fixtures.a_job Fixtures.w0 = Some (inr (Some mapped), w') /\
    mapped !! "search_keywords" = Some (VStr "Backend Developer") /\
    mapped !! "job_id" = Some (VStr "17") /\
    mapped !! "skills" = Some (VList [VStr "python"; VStr "react"]) /\
    exists i d w2, JobPosting.upsert_job Fixtures.env_200 mapped w' = Some (inr (i, d), w2).
Proof.
  assert (match JobCollectionService._map_job Fixtures.env_200 "Backend Developer" "Pune"
                  Fixtures.a_job Fixtures.w0 with
          | Some (inr (Some m), _) => Some (m !! "job_id", m !! "skills")
          | _ => None
          end = Some (Some (VStr "17"), Some (VList [VStr "python"; VStr "react"])))
    as Hobs by (vm_compute; reflexivity).
  destruct (JobCollectionService._map_job _ _ _ _ _) as [[[e|[m|]] w']|] eqn:E;
    try discriminate Hobs.
  injection Hobs as Hid Hsk.
  destruct (map_job_shape Fixtures.env_200 _ _ _ _ _ _ E)
    as (_ & _ & Hkw & _ & _ & _ & _ & _ & _ & Hup).
  exists m, w'. split; [reflexivity|]. split; [exact Hkw|]. split; [exact Hid|].
  split; [exact Hsk|]. apply Hup. reflexivity.
Defined.

Lemma collect_jobs_for_roles_files_under_role_witness :
  exists r w' handed,
    JobCollectionService.collect_jobs_for_roles 5 Fixtures.env_has_more_false
      Fixtures.some_roles (Some [" Pune, India "; ""]) 7 5 Fixtures.w0 = Some (r, w') /\
    upserts w' = handed /\
    Forall (JobCollectionService.filed_under Fixtures.some_roles) handed.
Proof.
  pose proof one_page_run as Hrun.
  destruct (JobCollectionService.collect_jobs_for_roles _ _ _ _ _ _ _)
    as [[r w']|] eqn:E; [|discriminate Hrun].
  destruct (collect_jobs_for_roles_files_under_role _ _ _ _ _ _ _ _ _ E)
    as (handed & Hp & Hs).
  exists r, w', handed. split; [reflexivity|]. by split.
Defined.

(** ** JobPosting.upsert_job: one document at a time *)

Section UpsertMore.
Import JobPosting.
Context (env : Env).

Lemma existing_for_lookup p docs i existing :
  existing_for p docs = Some (i, existing) -> docs !! i = Some existing.
Proof.
  unfold existing_for.
  destruct (truthy (mget p "job_id")).
  - destruct (list_find _ docs) as [[i0 e0]|] eqn:E.
    + intros [= <- <-]. by apply list_find_Some in E as (? & _).
    + destruct (truthy (mget p "url")); [|done].
      intros E'. by apply list_find_Some in E' as (? & _).
  - destruct (truthy (mget p "url")); [|done].
    intros E'. by apply list_find_Some in E' as (? & _).
Qed.

Lemma mget_with_defaults (x p : gmap string value) :
  x !! "job_id" = p !! "job_id" ->
  mget (x ∪ static_defaults) "job_id" = mget p "job_id".
Proof.
  intros Hx. unfold mget. destruct (p !! "job_id") as [v|] eqn:Hp.
  - by rewrite (lookup_union_Some_l _ _ _ _ Hx).
  - rewrite lookup_union_r by done. reflexivity.
Qed.

(** What a call that ends has done to the store, whatever the payload. *)
Lemma upsert_job_inv (p : gmap string value) (w : world)
    (r : exn + nat * gmap string value) (w' : world) :
  upsert_job env p w = Some (r, w') ->
  match r with
  | inl _ => store w' = store w
  | inr (i, d) =>
      store w' !! i = Some (bson_doc d) /\
      (forall j, j <> i -> store w' !! j = store w !! j) /\
      match existing_for p (store w) with
      | Some (i0, existing) =>
          i = i0 /\ length (store w') = length (store w) /\
          d = delete "scraped_at" (<["updated_at" := VTime (clock env (ticks w))]> p)
                ∪ existing
      | None =>
          i = length (store w) /\ length (store w') = S (length (store w)) /\
          mget d "job_id" = mget p "job_id"
      end
  end.
Proof.
  intros Hrun.
  destruct (upsert_job_unfold env p w) as (w2 & Hs & Ht & Heq).
  rewrite Heq in Hrun. clear Heq.
  set (job_data := <["updated_at" := VTime (clock env (ticks w))]> p) in *.
  destruct (existing_for p (store w)) as [[i0 existing]|] eqn:Hex.
  - apply existing_for_lookup in Hex.
    pose proof (lookup_lt_Some _ _ _ Hex) as Hlt.
    unfold setattrs in Hrun.
    destruct (forallb _ _).
    + rewrite bind_ret_l in Hrun. unfold save in Hrun. munfold.
      injection Hrun as <- <-. cbn [store set_store set_db_log]. rewrite Hs.
      split; [by apply list_lookup_insert_eq|]. split.
      * intros j Hj. by apply list_lookup_insert_ne.
      * split; [done|]. split; [by rewrite length_insert|done].
    + munfold. injection Hrun as <- <-. done.
  - unfold new in Hrun. destruct (validates env job_data).
    + assert (filter (fun kv : string * value => is_field kv.1 = true) job_data !! "job_id"
              = p !! "job_id") as Hgiven.
      { assert (job_data !! "job_id" = p !! "job_id") as Hjd
          by (subst job_data; by rewrite lookup_insert_ne).
        destruct (p !! "job_id") as [v|] eqn:Hp.
        - by apply map_lookup_filter_Some_2.
        - apply map_lookup_filter_None_2. by left. }
      unfold with_utcnow_default, insert in Hrun. munfold.
      destruct (filter _ job_data !! "scraped_at");
        [destruct (filter _ job_data !! "updated_at")
        |destruct (<["scraped_at" := _]> (filter _ job_data) !! "updated_at")];
        injection Hrun as <- <-; cbn [store set_store set_db_log set_ticks];
        rewrite Hs;
        (split; [by apply list_lookup_middle|]);
        (split;
           [|split; [done|split; [rewrite length_app; simpl; lia|];
                     apply mget_with_defaults;
                     by rewrite ?lookup_insert_ne by done]]);
        intros j Hj;
        (destruct (decide (j < length (store w))%nat);
          [by rewrite lookup_app_l
          |rewrite lookup_ge_None_2 by (rewrite length_app; simpl; lia);
           by rewrite lookup_ge_None_2 by lia]).
    + munfold. injection Hrun as <- <-. done.
Qed.

(** X16.  [JobPosting.upsert_job] writes at most one document.  When it
    raises, the collection is as it was.  When it returns a document,
    the collection holds that document, with its dates to the
    millisecond, at the place returned; every other place is as it was;
    and the collection has the same size when a stored posting was
    found for the payload (by [job_id], else by [url]) and is one
    longer, the new document last, when none was. *)
Theorem upsert_job_touches_one_document (p : gmap string value) (w : world)
    (r : exn + nat * gmap string value) (w' : world) :
  upsert_job env p w = Some (r, w') ->
  match r with
  | inl _ => store w' = store w
  | inr (i, d) =>
      store w' !! i = Some (bson_doc d) /\
      (forall j, j <> i -> store w' !! j = store w !! j) /\
      (match existing_for p (store w) with
       | Some (i0, _) => i = i0 /\ length (store w') = length (store w)
       | None => i = length (store w) /\ length (store w') = S (length (store w))
       end)
  end.
Proof.
  intros Hrun. apply upsert_job_inv in Hrun.
  destruct r as [e|[i d]]; [done|].
  destruct Hrun as (Hi & Hother & Hcase). split; [done|]. split; [done|].
  destruct (existing_for p (store w)) as [[i0 existing]|].
  - by destruct Hcase as (? & ? & _).
  - by destruct Hcase as (? & ? & _).
Qed.

Lemma bson_VStr v s : bson v = VStr s -> v = VStr s.
Proof. by destruct v. Qed.

Lemma truthy_VStr s : s <> "" -> truthy (VStr s) = true.
Proof. intros Hs. simpl. by destruct s. Qed.

Lemma truthy_mget_lookup (p : gmap string value) k :
  truthy (mget p k) = true -> p !! k = Some (mget p k).
Proof. unfold mget. by destruct (p !! k). Qed.

(** The [job_id] of the document an update leaves. *)
Lemma mget_updated (p existing : gmap string value) (now : Z) :
  mget (delete "scraped_at" (<["updated_at" := VTime now]> p) ∪ existing) "job_id"
  = match p !! "job_id" with
    | Some v => v
    | None => mget existing "job_id"
    end.
Proof.
  unfold mget. destruct (p !! "job_id") as [v|] eqn:Hp.
  - erewrite lookup_union_Some_l; [done|].
    rewrite lookup_delete_ne by done. by rewrite lookup_insert_ne.
  - rewrite lookup_union_r; [done|].
    rewrite lookup_delete_ne by done. by rewrite lookup_insert_ne.
Qed.

(** The document a call has written has a [job_id] string only if the
    payload asked for it or the document it updates had it, and then no
    other document has it. *)
Lemma upsert_job_id_is_new (p : gmap string value) (w : world) i d w' s :
  upsert_job env p w = Some (inr (i, d), w') ->
  unique_job_ids (store w) ->
  s <> "" ->
  mget (bson_doc d) "job_id" = VStr s ->
  forall b db, store w !! b = Some db -> b <> i -> mget db "job_id" <> VStr s.
Proof.
  intros Hrun Huniq Hs Hd b db Hb Hne Hdb.
  pose proof (upsert_job_inv p w _ w' Hrun) as Hinv. lazy beta iota in Hinv.
  destruct Hinv as (_ & _ & Hcase).
  rewrite mget_bson_doc in Hd. apply bson_VStr in Hd.
  assert (forall pid docs,
            Forall (fun d0 : gmap string value =>
                      ~ value_eqb (mget d0 "job_id") (bson pid) = true) docs ->
            pid = VStr s -> docs !! b = Some db -> False) as Hmissing.
  { intros pid docs Hfind -> Hdocs.
    apply (proj1 (Forall_lookup _ _) Hfind b db Hdocs). simpl.
    rewrite Hdb. apply value_eqb_refl. }
  unfold existing_for in Hcase.
  destruct (truthy (mget p "job_id")) eqn:Hid.
  - pose proof (truthy_mget_lookup p "job_id" Hid) as Hp.
    destruct (list_find _ (store w)) as [[i0 ex]|] eqn:Hfind.
    + (* updated, found by job_id *)
      destruct Hcase as (-> & _ & ->). rewrite mget_updated, Hp in Hd.
      apply list_find_Some in Hfind as (Hi0 & Hmatch & _).
      rewrite Hd in Hmatch. simpl in Hmatch. apply value_eqb_eq in Hmatch.
      apply Hne. symmetry. by apply (Huniq i0 b ex db s).
    + apply list_find_None in Hfind.
      destruct (truthy (mget p "url")).
      * destruct (list_find _ (store w)) as [[i0 ex]|] eqn:Hurl.
        -- destruct Hcase as (-> & _ & ->). rewrite mget_updated, Hp in Hd.
           by apply (Hmissing _ _ Hfind Hd).
        -- destruct Hcase as (-> & _ & Hjid). rewrite Hd in Hjid.
           by apply (Hmissing _ _ Hfind (eq_sym Hjid)).
      * destruct Hcase as (-> & _ & Hjid). rewrite Hd in Hjid.
        by apply (Hmissing _ _ Hfind (eq_sym Hjid)).
  - assert (mget p "job_id" <> VStr s) as Hnot.
    { intros E. rewrite E, truthy_VStr in Hid by done. done. }
    destruct (truthy (mget p "url")).
    + destruct (list_find _ (store w)) as [[i0 ex]|] eqn:Hurl.
      * destruct Hcase as (-> & _ & ->). rewrite mget_updated in Hd.
        destruct (p !! "job_id") as [v|] eqn:Hp.
        -- apply Hnot. unfold mget. by rewrite Hp, Hd.
        -- apply list_find_Some in Hurl as (Hi0 & _ & _).
           apply Hne. symmetry. by apply (Huniq i0 b ex db s).
      * destruct Hcase as (_ & _ & Hjid). apply Hnot. by rewrite <- Hjid.
    + destruct Hcase as (_ & _ & Hjid). apply Hnot. by rewrite <- Hjid.
Qed.

(** X17.  [upsert_job] never makes two documents share a [job_id]: when
    no two stored documents have the same non-empty [job_id] string
    before a call, none have after it, whatever the payload and
    whether the call updates, inserts or raises.  And when the call
    returns for a payload with such a [job_id], the document written is
    the only one stored with it, so [find_one] by that [job_id] finds it,
    as stored, at the place returned. *)
Theorem upsert_job_keeps_job_ids_unique (p : gmap string value) (w : world)
    (r : exn + nat * gmap string value) (w' : world) :
  upsert_job env p w = Some (r, w') ->
  unique_job_ids (store w) ->
  unique_job_ids (store w') /\
  forall i d s,
    r = inr (i, d) -> mget p "job_id" = VStr s -> s <> "" ->
    (forall j dj, store w' !! j = Some dj -> mget dj "job_id" = VStr s -> j = i) /\
    exists w2,
      find_one "job_id" (VStr s) w' = Some (inr (Some (i, bson_doc d)), w2) /\
      store w2 = store w'.
Proof.
  intros Hrun Huniq.
  assert (unique_job_ids (store w')) as Huniq'.
  { pose proof (upsert_job_inv p w r w' Hrun) as Hinv.
    destruct r as [e|[i d]]; [by rewrite Hinv|].
    destruct Hinv as (Hi & Hother & _).
    intros a b da db s Ha Hb Hs Hda Hdb.
    destruct (decide (a = i)) as [->|Hai], (decide (b = i)) as [->|Hbi]; [done| | |].
    - exfalso. rewrite Hi in Ha. injection Ha as <-.
      rewrite Hother in Hb by done.
      by apply (upsert_job_id_is_new p w i d w' s Hrun Huniq Hs Hda b db Hb Hbi).
    - exfalso. rewrite Hi in Hb. injection Hb as <-.
      rewrite Hother in Ha by done.
      by apply (upsert_job_id_is_new p w i d w' s Hrun Huniq Hs Hdb a da Ha Hai).
    - rewrite Hother in Ha, Hb by done. by apply (Huniq a b da db s). }
  split; [exact Huniq'|].
  intros i d s -> Hp Hs.
  pose proof (upsert_job_inv p w _ w' Hrun) as (Hi & Hother & Hcase).
  assert (mget (bson_doc d) "job_id" = VStr s) as Hd.
  { rewrite mget_bson_doc.
    assert (mget d "job_id" = VStr s) as ->; [|done].
    pose proof (truthy_VStr s Hs) as Hid. rewrite <- Hp in Hid.
    pose proof (truthy_mget_lookup p "job_id" Hid) as Hlook.
    destruct (existing_for p (store w)) as [[i0 ex]|].
    - destruct Hcase as (_ & _ & ->). by rewrite mget_updated, Hlook.
    - destruct Hcase as (_ & _ & ->). done. }
  assert (forall j dj, store w' !! j = Some dj -> mget dj "job_id" = VStr s -> j = i)
    as Honly.
  { intros j dj Hj Hdj. by apply (Huniq' j i dj (bson_doc d) s). }
  split; [exact Honly|].
  rewrite find_one_eq.
  assert (list_find (fun d0 : gmap string value =>
                       value_eqb (mget d0 "job_id") (bson (VStr s)) = true) (store w')
          = Some (i, bson_doc d)) as ->.
  { apply list_find_Some. split; [done|]. split.
    - simpl. rewrite Hd. apply value_eqb_refl.
    - intros j dj Hj Hlt Hmatch. simpl in Hmatch. apply value_eqb_eq in Hmatch.
      pose proof (Honly j dj Hj Hmatch). lia. }
  eexists. split; reflexivity.
Qed.

End UpsertMore.

Lemma upsert_job_touches_one_document_witness :
  exists i d w1 i2 d2 w2,
    JobPosting.upsert_job Fixtures.env_wall_clock Fixtures.a_mapped_job
      (Fixtures.with_store Fixtures.store_A80_B20) = Some (inr (i, d), w1) /\
    i = 5%nat /\ length (store w1) = 6%nat /\
    (forall j, j <> 5%nat -> store w1 !! j = Fixtures.store_A80_B20 !! j) /\
    JobPosting.upsert_job Fixtures.env_wall_clock Fixtures.a_mapped_job w1
      = Some (inr (i2, d2), w2) /\
    i2 = 5%nat /\ length (store w2) = 6%nat /\
    store w2 !! 5%nat = Some (bson_doc d2).
Proof.
  assert (match JobPosting.upsert_job Fixtures.env_wall_clock Fixtures.a_mapped_job
                  (Fixtures.with_store Fixtures.store_A80_B20) with
          | Some (inr (i, _), _) => Some i
          | _ => None
          end = Some 5%nat) as Hobs1 by (vm_compute; reflexivity).
  assert (match JobPosting.upsert_job Fixtures.env_wall_clock Fixtures.a_mapped_job
                  (Fixtures.with_store Fixtures.store_A80_B20) with
          | Some (inr _, w1) =>
              match JobPosting.upsert_job Fixtures.env_wall_clock
                      Fixtures.a_mapped_job w1 with
              | Some (inr (i2, _), _) => Some i2
              | _ => None
              end
          | _ => None
          end = Some 5%nat) as Hobs2 by (vm_compute; reflexivity).
  destruct (JobPosting.upsert_job _ _ (Fixtures.with_store _)) as [[[e|[i d]] w1]|] eqn:E1;
    try discriminate Hobs1.
  injection Hobs1 as ->.
  destruct (JobPosting.upsert_job _ _ w1) as [[[e|[i2 d2]] w2]|] eqn:E2;
    try discriminate Hobs2.
  injection Hobs2 as ->.
  pose proof (upsert_job_touches_one_document Fixtures.env_wall_clock _ _ _ _ E1)
    as (_ & Hother1 & Hcase1).
  pose proof (upsert_job_touches_one_document Fixtures.env_wall_clock _ _ _ _ E2)
    as (Hi2 & _ & Hcase2).
  assert (JobPosting.existing_for Fixtures.a_mapped_job
            (store (Fixtures.with_store Fixtures.store_A80_B20)) = None) as Hnone
    by (vm_compute; reflexivity).
  rewrite Hnone in Hcase1. destruct Hcase1 as [_ Hlen1].
  exists 5%nat, d, w1, 5%nat, d2, w2.
  split; [reflexivity|]. split; [reflexivity|]. split; [exact Hlen1|].
  split; [exact Hother1|]. split; [exact E2|]. split; [reflexivity|].
  split; [|exact Hi2].
  destruct (JobPosting.existing_for Fixtures.a_mapped_job (store w1)) as [[i0 ex]|].
  - destruct Hcase2 as [_ ->]. exact Hlen1.
  - destruct Hcase2 as [Hi _]. rewrite Hlen1 in Hi. discriminate Hi.
Defined.

Lemma upsert_job_keeps_job_ids_unique_witness :
  exists i d w1 i2 d2 w2,
    JobPosting.upsert_job Fixtures.env_wall_clock Fixtures.a_mapped_job
      (Fixtures.with_store Fixtures.store_A80_B20) = Some (inr (i, d), w1) /\
    JobPosting.upsert_job Fixtures.env_wall_clock Fixtures.a_mapped_job w1
      = Some (inr (i2, d2), w2) /\
    JobPosting.unique_job_ids (store w2) /\
    exists w3,
      JobPosting.find_one "job_id" (VStr "17") w2
        = Some (inr (Some (i2, bson_doc d2)), w3).
Proof.
  assert (JobPosting.unique_job_ids (store (Fixtures.with_store Fixtures.store_A80_B20)))
    as Huniq.
  { intros a b da db s Ha Hb Hs Hda Hdb. exfalso.
    assert (Forall (fun d => d !! "job_id" = None) Fixtures.store_A80_B20) as Hall
      by (repeat constructor).
    pose proof (proj1 (Forall_lookup _ _) Hall a da Ha) as Hnone. simpl in Hnone.
    unfold mget in Hda. rewrite Hnone in Hda. discriminate Hda. }
  assert (match JobPosting.upsert_job Fixtures.env_wall_clock Fixtures.a_mapped_job
                  (Fixtures.with_store Fixtures.store_A80_B20) with
          | Some (inr _, w1) =>
              match JobPosting.upsert_job Fixtures.env_wall_clock
                      Fixtures.a_mapped_job w1 with
              | Some (inr _, _) => true
              | _ => false
              end
          | _ => false
          end = true) as Hobs by (vm_compute; reflexivity).
  destruct (JobPosting.upsert_job _ _ (Fixtures.with_store _)) as [[[e|[i d]] w1]|] eqn:E1;
    try discriminate Hobs.
  destruct (JobPosting.upsert_job _ _ w1) as [[[e|[i2 d2]] w2]|] eqn:E2;
    try discriminate Hobs.
  destruct (upsert_job_keeps_job_ids_unique Fixtures.env_wall_clock _ _ _ _ E1 Huniq)
    as (Huniq1 & _).
  destruct (upsert_job_keeps_job_ids_unique Fixtures.env_wall_clock _ _ _ _ E2 Huniq1)
    as (Huniq2 & Hfind).
  destruct (Hfind i2 d2 "17" eq_refl eq_refl) as (_ & w3 & Hrun & _); [done|].
  exists i, d, w1, i2, d2, w2. split; [reflexivity|]. split; [exact E2|].
  split; [exact Huniq2|]. exists w3. exact Hrun.
Defined.

(** ** Retention: cleanup_old_jobs *)

Section Cleanup.
Import GapService JobMaintenance.
Context (env : Env).

(** The subtraction of days, in arithmetic. *)
Lemma days_before_spec (now d : Z) :
  (Z.abs d <= 999999999 ->
   -62135596800000000 <= now - d * 86400000000 <= 253402300799999999 ->
   days_before now d = inr (now - d * 86400000000)) /\
  (999999999 < Z.abs d \/ now - d * 86400000000 < -62135596800000000
   \/ 253402300799999999 < now - d * 86400000000 ->
   days_before now d = inl OverflowError) /\
  (forall cutoff, days_before now d = inr cutoff -> cutoff = now - d * 86400000000) /\
  (forall e, days_before now d = inl e -> e = OverflowError).
Proof.
  unfold days_before, timedelta, datetime_sub, timedelta_days, datetime_min, datetime_max.
  destruct (Z.leb_spec (Z.abs d) 999999999) as [Hd|Hd];
    [destruct (Z.leb_spec (-62135596800000000) (now - d * 86400000000)) as [Hlo|Hlo];
     [destruct (Z.leb_spec (now - d * 86400000000) 253402300799999999) as [Hhi|Hhi]|]|];
    simpl; (split; [|split; [|split]]);
    try (intros; lia); try (intros; reflexivity); try (intros; congruence);
    try (by intros ? [= <-]); try (by intros ? [= <-]).
Qed.

Lemma cleanup_old_jobs_eq days_to_keep w cutoff :
  days_before (clock env (ticks w)) days_to_keep = inr cutoff ->
  cleanup_old_jobs env days_to_keep w =
  Some (inr (Z.of_nat (length (filter (fun d => scraped_before cutoff d = true) (store w)))),
        set_store (fun st => filter (fun d => scraped_before cutoff d = false) st)
          (set_ticks S w)).
Proof.
  intros Hcutoff. unfold cleanup_old_jobs. munfold. cbn [ticks set_ticks].
  by rewrite Hcutoff.
Qed.

Lemma cleanup_old_jobs_overflow days_to_keep w e :
  days_before (clock env (ticks w)) days_to_keep = inl e ->
  cleanup_old_jobs env days_to_keep w = Some (inl e, set_ticks S w).
Proof.
  intros Hcutoff. unfold cleanup_old_jobs. munfold. cbn [ticks set_ticks].
  by rewrite Hcutoff.
Qed.

Lemma filter_split_length {A} (p : A -> bool) (l : list A) :
  (length (filter (fun x => p x = true) l) + length (filter (fun x => p x = false) l)
   = length l)%nat.
Proof.
  induction l as [|x l IH]; [done|]. rewrite !filter_cons.
  destruct (p x); simpl;
    repeat (destruct (decide _) as [?|?]; try done); simpl; lia.
Qed.

Lemma scraped_before_spec cutoff d :
  scraped_before cutoff d = true <->
  exists t, d !! "scraped_at" = Some (VTime t) /\ t < cutoff / 1000 * 1000.
Proof.
  unfold scraped_before, bson_datetime. split.
  - destruct (d !! "scraped_at") as [[| | | |t| |]|]; try done.
    intros H%Z.ltb_lt. by exists t.
  - intros (t & -> & Ht). by apply Z.ltb_lt.
Qed.

(** X18.  [cleanup_old_jobs(days_to_keep)] always ends.  When
    [utcnow() - timedelta(days=days_to_keep)] is a date (at most
    999999999 days, and a result from year 1 to year 9999), it removes
    exactly the postings whose [scraped_at] is a date before that
    cutoff, taken to the millisecond, and keeps the others, in their
    order (a posting without such a date is kept); the number it
    returns is the number of documents removed; no request is sent,
    the cache is untouched, and when no posting is that old nothing
    is removed.  Otherwise it raises [OverflowError] after reading the
    clock and removes nothing: on 3 November 2025 that is so from
    739558 days on. *)
Theorem cleanup_old_jobs_removes_the_old (days_to_keep : Z) (w : world) :
  let cutoff := clock env (ticks w) - days_to_keep * 86400000000 in
  let old := fun d : gmap string value =>
    exists t, d !! "scraped_at" = Some (VTime t) /\ t < cutoff / 1000 * 1000 in
  (Z.abs days_to_keep <= 999999999 ->
   -62135596800000000 <= cutoff <= 253402300799999999 ->
   exists deleted w',
     cleanup_old_jobs env days_to_keep w = Some (inr deleted, w') /\
     store w' `sublist_of` store w /\
     (forall d, d ∈ store w' <-> d ∈ store w /\ ~ old d) /\
     deleted = Z.of_nat (length (store w)) - Z.of_nat (length (store w')) /\
     0 <= deleted /\
     posts w' = posts w /\ cache w' = cache w /\
     (Forall (fun d => ~ old d) (store w) -> deleted = 0 /\ store w' = store w)) /\
  (999999999 < Z.abs days_to_keep \/ cutoff < -62135596800000000
   \/ 253402300799999999 < cutoff ->
   cleanup_old_jobs env days_to_keep w = Some (inl OverflowError, set_ticks S w)) /\
  outcome_of (cleanup_old_jobs Fixtures.env_wall_clock 739557
                (Fixtures.with_store Fixtures.store_old_and_new)) = Some (inr 0) /\
  outcome_of (cleanup_old_jobs Fixtures.env_wall_clock 739558
                (Fixtures.with_store Fixtures.store_old_and_new))
    = Some (inl OverflowError) /\
  outcome_of (cleanup_old_jobs Fixtures.env_wall_clock 90
                (Fixtures.with_store Fixtures.store_old_and_new)) = Some (inr 2).
Proof.
  intros cutoff old.
  destruct (days_before_spec (clock env (ticks w)) days_to_keep) as (Hin & Hout & _).
  fold cutoff in Hin, Hout.
  split; [|split; [|repeat split; vm_compute; reflexivity]].
  - intros Hdays Hrange. specialize (Hin Hdays Hrange).
    rewrite (cleanup_old_jobs_eq _ _ _ Hin).
    eexists _, _. split; [reflexivity|]. cbn [store set_store set_ticks posts cache].
    assert (forall d, scraped_before cutoff d = false <-> ~ old d) as Hold.
    { intros d. pose proof (scraped_before_spec cutoff d) as Hs. fold (old d) in Hs.
      destruct (scraped_before cutoff d).
      - split; [done|]. intros Hn. exfalso. apply Hn. by apply Hs.
      - split; [|done]. intros _ Ho. apply Hs in Ho. done. }
    split; [apply sublist_filter|]. split.
    { intros d. rewrite list_elem_of_filter, Hold. tauto. }
    split.
    { pose proof (filter_split_length (scraped_before cutoff) (store w)). lia. }
    split; [lia|]. split; [done|]. split; [done|].
    intros Hall.
    assert (filter (fun d => scraped_before cutoff d = false) (store w) = store w) as Hid.
    { induction Hall as [|d l Hd _ IH]; [done|].
      rewrite filter_cons. apply Hold in Hd.
      destruct (decide _); [by rewrite IH|done]. }
    split; [|done].
    pose proof (filter_split_length (scraped_before cutoff) (store w)) as Hlen.
    rewrite Hid in Hlen. lia.
  - intros Hover. by rewrite (cleanup_old_jobs_overflow _ _ _ (Hout Hover)).
Qed.

Lemma scraped_before_since c1 c2 d :
  c1 <= c2 -> scraped_since c2 d = true -> scraped_before c1 d = false.
Proof.
  intros Hc. pose proof (bson_datetime_mono c1 c2 Hc).
  unfold scraped_since, scraped_before.
  destruct (d !! "scraped_at") as [[]|]; try done. lia.
Qed.

Lemma filter_after_cleanup (p : gmap string value -> bool) c1 c2
    (docs : list (gmap string value)) :
  c1 <= c2 ->
  (forall d, p d = true -> scraped_since c2 d = true) ->
  filter (fun d => p d = true) (filter (fun d => scraped_before c1 d = false) docs)
  = filter (fun d => p d = true) docs.
Proof.
  intros Hc Hp. induction docs as [|d l IH]; [done|].
  rewrite !filter_cons.
  destruct (decide (p d = true)) as [Hd|Hd].
  - rewrite (scraped_before_since c1 c2 d Hc (Hp d Hd)).
    destruct (decide (false = false)); [|done].
    rewrite filter_cons. destruct (decide (p d = true)); [|done]. by rewrite IH.
  - destruct (decide (scraped_before c1 d = false)); [|done].
    rewrite filter_cons. destruct (decide (p d = true)); [done|]. done.
Qed.

Lemma matched_postings_after_cleanup c1 c2 role docs :
  c1 <= c2 ->
  matched_postings c2 role (filter (fun d => scraped_before c1 d = false) docs)
  = matched_postings c2 role docs.
Proof.
  intros Hc. rewrite !matched_postings_eq.
  rewrite !(filter_after_cleanup _ c1 c2 docs Hc);
    [done| |]; intros d Hd; unfold matches in Hd; by apply andb_prop in Hd as [? _].
Qed.

(** X19.  Cleanup does not change the analysis.  When the window of the
    analysis is no longer than the retention ([days <= days_to_keep])
    and the clock does not go back between two reads, a computation of
    [get_role_required_skills] that is not answered from the cache
    gives the same result after [cleanup_old_jobs] as it gives on the
    collection before the cleanup at that moment. *)
Theorem cleanup_old_jobs_keeps_the_analysis
    (days_to_keep : Z) (role : string) (days : Z) (threshold : float)
    (w : world) (deleted : Z) (w1 : world) :
  cleanup_old_jobs env days_to_keep w = Some (inr deleted, w1) ->
  days <= days_to_keep ->
  clock env (ticks w) <= clock env (S (ticks w)) ->
  cache w !! cache_key env role days threshold = None ->
  outcome_of (get_role_required_skills env role days threshold w1)
  = outcome_of (get_role_required_skills env role days threshold (set_ticks S w)).
Proof.
  intros Hrun Hdays Hclock Hmiss.
  destruct (days_before (clock env (ticks w)) days_to_keep) as [e|c1] eqn:Hc1.
  { by rewrite (cleanup_old_jobs_overflow _ _ _ Hc1) in Hrun. }
  rewrite (cleanup_old_jobs_eq _ _ _ Hc1) in Hrun. injection Hrun as <- <-.
  rewrite !get_role_required_skills_miss by done.
  cbn [ticks set_store set_ticks].
  destruct (days_before (clock env (S (ticks w))) days) as [e|c2] eqn:Hc2; [done|].
  match goal with |- outcome_of (_ ?wa) = outcome_of (_ ?wb) =>
    destruct (compute_role_required_skills_eq env role days threshold wa c2 Hc2)
      as (wa' & opsa & -> & _);
    destruct (compute_role_required_skills_eq env role days threshold wb c2 Hc2)
      as (wb' & opsb & -> & _)
  end.
  cbn [store set_store set_ticks ticks outcome_of fmap option_fmap option_map fst].
  rewrite matched_postings_after_cleanup; [done|].
  apply (days_before_spec _ _) in Hc1. apply (days_before_spec _ _) in Hc2. nia.
Qed.

End Cleanup.

Lemma cleanup_old_jobs_keeps_the_analysis_witness :
  exists w1,
    JobMaintenance.cleanup_old_jobs Fixtures.env_wall_clock 90
      (Fixtures.with_store Fixtures.store_old_and_new) = Some (inr 2, w1) /\
    length (store w1) = 3%nat /\
    GapService.skills_of
      (outcome_of (GapService.get_role_required_skills Fixtures.env_wall_clock
                     "Backend Developer" 30 0.25%float w1))
    = Some [VStr "A"; VStr "B"].
Proof.
  assert (outcome_of (JobMaintenance.cleanup_old_jobs Fixtures.env_wall_clock 90
                        (Fixtures.with_store Fixtures.store_old_and_new))
          = Some (inr 2)) as Hout by (vm_compute; reflexivity).
  assert (observe (fun w => length (store w))
            (JobMaintenance.cleanup_old_jobs Fixtures.env_wall_clock 90
               (Fixtures.with_store Fixtures.store_old_and_new))
          = Some 3%nat) as Hlen by (vm_compute; reflexivity).
  destruct (JobMaintenance.cleanup_old_jobs _ _ _) as [[[e|deleted] w1]|] eqn:Hrun;
    try discriminate Hout.
  injection Hout as ->. injection Hlen as Hlen.
  exists w1. split; [reflexivity|]. split; [exact Hlen|].
  rewrite (cleanup_old_jobs_keeps_the_analysis Fixtures.env_wall_clock 90
             "Backend Developer" 30 0.25%float _ _ _ Hrun).
  - vm_compute. reflexivity.
  - lia.
  - vm_compute. discriminate.
  - vm_compute. reflexivity.
Defined.

(** ** Statistics: get_collection_statistics *)

Section Statistics.
Import GapService JobMaintenance.
Context (env : Env).

Lemma count_desc_total : Total count_desc.
Proof. intros a b. unfold count_desc. lia. Qed.

#[local] Existing Instance count_desc_total.

Lemma Sorted_take {A} (R : relation A) n (l : list A) :
  Sorted R l -> Sorted R (take n l).
Proof.
  intros Hs. revert n. induction Hs as [|x l Hs IH Hhd]; intros [|n]; simpl;
    try constructor.
  - apply IH.
  - destruct Hhd as [|y l' Hxy]; [destruct n; constructor|].
    destruct n; simpl; by constructor.
Qed.

Lemma group_count_NoDup keys : NoDup (group_count keys).*1.
Proof.
  unfold group_count.
  by destruct (foldl_add_well [] keys) as [? _]; [split; constructor|].
Qed.

Lemma top_ten_eq field p w :
  top_ten field p w =
  Some (inr (take 10 (merge_sort count_desc
               (group_count ((fun d => mget d field)
                  <$> filter (fun d => p d = true) (store w))))),
        set_db_log (fun l => (l ++ [DbAggregate])%list) w).
Proof. reflexivity. Qed.

(** What a top-ten list holds. *)
Lemma top_ten_spec field p (docs : list (gmap string value)) :
  let keys := (fun d => mget d field) <$> filter (fun d => p d = true) docs in
  let top := take 10 (merge_sort count_desc (group_count keys)) in
  (length top <= 10)%nat /\
  Sorted count_desc top /\
  NoDup top.*1 /\
  (forall name n, (name, n) ∈ top ->
     0 < n /\
     n = Z.of_nat (length (filter (fun d => p d = true /\ mget d field = name) docs))).
Proof.
  intros keys top. split; [|split; [|split]].
  - subst top. rewrite length_take. lia.
  - apply Sorted_take, Sorted_merge_sort, _.
  - subst top. rewrite fmap_take.
    eapply sublist_NoDup; [|apply sublist_take].
    rewrite merge_sort_Permutation. apply group_count_NoDup.
  - intros name n Hin.
    apply (fun H => elem_of_sublist _ _ _ H (sublist_take _ 10)) in Hin.
    rewrite merge_sort_Permutation in Hin.
    apply elem_of_group_count in Hin as [Hk ->].
    split; [by apply occurrences_pos|].
    subst keys. unfold occurrences. f_equal.
    generalize docs. clear. intros docs.
    induction docs as [|d l IH]; [done|].
    rewrite !filter_cons.
    destruct (decide (p d = true)) as [Hd|Hd].
    + rewrite fmap_cons, filter_cons.
      destruct (decide (value_eqb (mget d field) name = true)) as [He|He].
      * apply value_eqb_eq in He.
        destruct (decide (p d = true /\ mget d field = name)); [|tauto].
        simpl. by rewrite IH.
      * destruct (decide (p d = true /\ mget d field = name)) as [[_ He']|]; [|done].
        exfalso. apply He. by apply value_eqb_eq.
    + destruct (decide (p d = true /\ mget d field = name)); [tauto|done].
Qed.

Lemma filter_length_mono {A} (p q : A -> bool) (l : list A) :
  (forall x, p x = true -> q x = true) ->
  (length (filter (fun x => p x = true) l) <= length (filter (fun x => q x = true) l))%nat.
Proof.
  intros Hpq. induction l as [|x l IH]; [done|]. rewrite !filter_cons.
  destruct (decide (p x = true)) as [Hp|Hp].
  - destruct (decide (q x = true)) as [|Hq]; [simpl; lia|]. by apply Hpq in Hp.
  - destruct (decide (q x = true)); simpl; lia.
Qed.

Lemma filter_length_le {A} (p : A -> bool) (l : list A) :
  (length (filter (fun x => p x = true) l) <= length l)%nat.
Proof.
  induction l as [|x l IH]; [done|]. rewrite filter_cons.
  destruct (decide _); simpl; lia.
Qed.

Lemma scraped_since_mono c1 c2 d :
  c2 <= c1 -> scraped_since c1 d = true -> scraped_since c2 d = true.
Proof.
  intros Hc. pose proof (bson_datetime_mono c2 c1 Hc).
  unfold scraped_since. destruct (d !! "scraped_at") as [[]|]; try done. lia.
Qed.

(** X20.  [get_collection_statistics()] always returns and leaves the
    collection as it is.  [total_jobs] is the size of the collection,
    and, when the two reads of the clock are less than six days apart,
    [0 <= jobs_last_24h <= jobs_last_7d <= total_jobs].  [top_roles]
    and [top_locations] have at most ten items each, most frequent
    first; no role occurs twice, the count of a role is the number of
    postings stored with that [search_keywords], every count is
    positive, and no location listed is null. *)
Theorem get_collection_statistics_consistent (w : world) :
  clock env (S (ticks w)) - clock env (ticks w) <= timedelta_days 6 ->
  exists s w',
    get_collection_statistics env w = Some (inr s, w') /\
    store w' = store w /\
    stat_total_jobs s = Z.of_nat (length (store w)) /\
    0 <= jobs_last_24h s <= jobs_last_7d s /\
    jobs_last_7d s <= stat_total_jobs s /\
    (length (top_roles s) <= 10)%nat /\
    Sorted count_desc (top_roles s) /\
    NoDup (top_roles s).*1 /\
    (forall role n, (role, n) ∈ top_roles s ->
       0 < n /\
       n = Z.of_nat (length (filter (fun d => mget d "search_keywords" = role) (store w)))) /\
    (length (top_locations s) <= 10)%nat /\
    Sorted count_desc (top_locations s) /\
    (forall location n, (location, n) ∈ top_locations s ->
       location <> VNone /\ 0 < n).
Proof.
  intros Hclock. unfold get_collection_statistics. munfold.
  unfold count_where, top_ten. munfold.
  cbn [store ticks set_ticks set_db_log].
  eexists _, _. split; [reflexivity|].
  cbn [store ticks set_db_log set_ticks stat_total_jobs jobs_last_24h jobs_last_7d
       top_roles top_locations].
  destruct (top_ten_spec "search_keywords" (fun _ => true) (store w))
    as (Hlen & Hsort & Hnd & Hcount).
  destruct (top_ten_spec "location" location_not_null (store w))
    as (Hlen' & Hsort' & _ & Hcount').
  split; [done|]. split.
  { do 2 f_equal. clear. induction (store w) as [|d l IH]; [done|].
    rewrite filter_cons. destruct (decide (true = true)); [|done]. by rewrite IH. }
  split.
  { split; [lia|]. apply inj_le, filter_length_mono. intros d.
    apply scraped_since_mono. unfold timedelta_days in *. lia. }
  split.
  { apply inj_le. etrans; [apply filter_length_le|].
    clear. induction (store w) as [|d l IH]; [done|].
    rewrite filter_cons. destruct (decide (true = true)); [|done]. simpl. lia. }
  split; [exact Hlen|]. split; [exact Hsort|]. split; [exact Hnd|]. split.
  { intros role n Hin. destruct (Hcount role n Hin) as [Hpos ->]. split; [done|].
    do 2 f_equal. apply list_filter_iff. intros d. tauto. }
  split; [exact Hlen'|]. split; [exact Hsort'|].
  intros location n Hin. destruct (Hcount' location n Hin) as [Hpos Hn].
  split; [|done]. intros ->.
  assert (filter (fun d => location_not_null d = true /\ mget d "location" = VNone)
            (store w) = []) as Hnil.
  { clear. induction (store w) as [|d l IH]; [done|].
    rewrite filter_cons. destruct (decide _) as [[Hl Hm]|]; [|done].
    exfalso. revert Hl Hm. unfold location_not_null, mget.
    destruct (d !! "location") as [[]|]; simpl; congruence. }
  rewrite Hnil in Hn. simpl in Hn. lia.
Qed.

End Statistics.

Lemma get_collection_statistics_consistent_witness :
  exists s w',
    JobMaintenance.get_collection_statistics Fixtures.env_200
      (Fixtures.with_store Fixtures.store_A80_B20) = Some (inr s, w') /\
    JobMaintenance.stat_total_jobs s = 5 /\
    0 <= JobMaintenance.jobs_last_24h s <= JobMaintenance.jobs_last_7d s /\
    (length (JobMaintenance.top_roles s) <= 10)%nat.
Proof.
  destruct (get_collection_statistics_consistent Fixtures.env_200
              (Fixtures.with_store Fixtures.store_A80_B20))
    as (s & w' & Hrun & _ & Htotal & Hday & _ & Hlen & _).
  - vm_compute. discriminate.
  - exists s, w'. split; [exact Hrun|]. split; [exact Htotal|]. by split.
Defined.

(** ** Freshness: _filter_roles_needing_update *)

Section Freshness.
Import GapService JobPosting UserJobCollectionService.
Context (env : Env).

Lemma find_recent_eq role cutoff w :
  find_recent role cutoff w =
  Some (inr (snd <$> list_find (fun d => fresh_for role cutoff d = true) (store w)),
        set_db_log (fun l => (l ++ [DbFindOne "search_keywords" (VStr role)])%list) w).
Proof. reflexivity. Qed.

Lemma list_find_existsb (p : gmap string value -> bool) docs :
  is_Some (list_find (fun d => p d = true) docs) <-> existsb p docs = true.
Proof.
  rewrite existsb_exists. split.
  - intros [[i d] (Hi & Hd & _)%list_find_Some]. exists d. split; [|done].
    apply list_elem_of_In. by eapply list_elem_of_lookup_2.
  - intros (d & Hin%list_elem_of_In & Hd).
    destruct (list_find (fun d => p d = true) docs) eqn:E; [by eexists|].
    apply list_find_None in E. exfalso.
    by apply (proj1 (Forall_forall _ _) E d Hin).
Qed.

Lemma roles_loop_eq cutoff roles acc w :
  exists w',
    roles_loop cutoff roles acc w
    = Some (inr (acc ++ filter (fun role => has_fresh role cutoff (store w) = false) roles)%list,
            w') /\
    store w' = store w /\ posts w' = posts w /\ ticks w' = ticks w.
Proof.
  revert acc w. induction roles as [|role rest IH]; intros acc w; simpl.
  - exists w. by rewrite app_nil_r.
  - unfold mbind, M_bind, bind. rewrite find_recent_eq.
    rewrite filter_cons.
    destruct (list_find _ (store w)) as [found|] eqn:E; simpl.
    + assert (has_fresh role cutoff (store w) = true) as Hf
        by (apply list_find_existsb; by eexists).
      destruct (decide (has_fresh role cutoff (store w) = false)); [congruence|].
      edestruct (IH acc) as (w' & -> & Hs & Hp & Ht). exists w'. by repeat split.
    + assert (has_fresh role cutoff (store w) = false) as Hf.
      { apply not_true_is_false. intros H%list_find_existsb.
        rewrite E in H. by destruct H. }
      destruct (decide (has_fresh role cutoff (store w) = false)); [|done].
      edestruct (IH (acc ++ [role])%list) as (w' & -> & Hs & Hp & Ht).
      exists w'. rewrite <- app_assoc. by repeat split.
Qed.

Lemma filter_roles_needing_update_eq roles freshness_days w cutoff :
  days_before (clock env (ticks w)) freshness_days = inr cutoff ->
  exists w',
    _filter_roles_needing_update env roles freshness_days w
    = Some (inr (filter (fun role => has_fresh role cutoff (store w) = false) roles), w') /\
    store w' = store w /\ posts w' = posts w.
Proof.
  intros Hcutoff. unfold _filter_roles_needing_update. munfold. cbn [ticks set_ticks].
  rewrite Hcutoff.
  destruct (roles_loop_eq cutoff roles [] (set_ticks S w)) as (w' & Hrun & Hs & Hp & _).
  exists w'. split; [exact Hrun|]. by split.
Qed.

Lemma filter_roles_needing_update_overflow roles freshness_days w e :
  days_before (clock env (ticks w)) freshness_days = inl e ->
  _filter_roles_needing_update env roles freshness_days w = Some (inl e, set_ticks S w).
Proof.
  intros Hcutoff. unfold _filter_roles_needing_update. munfold. cbn [ticks set_ticks].
  by rewrite Hcutoff.
Qed.

Lemma has_fresh_spec role cutoff (docs : list (gmap string value)) :
  has_fresh role cutoff docs = true <->
  exists d t, d ∈ docs /\ d !! "search_keywords" = Some (VStr role) /\
              d !! "scraped_at" = Some (VTime t) /\ cutoff / 1000 * 1000 <= t.
Proof.
  unfold has_fresh. rewrite existsb_exists. split.
  - intros (d & Hin%list_elem_of_In & Hd). unfold fresh_for in Hd.
    apply andb_prop in Hd as [Hk Ht]. apply value_eqb_eq in Hk.
    unfold scraped_since, bson_datetime in Ht.
    destruct (d !! "scraped_at") as [[| | | |t| |]|] eqn:Hsc; try done.
    exists d, t. split; [done|]. split; [|split; [done|lia]].
    unfold mget in Hk. destruct (d !! "search_keywords"); simpl in Hk; congruence.
  - intros (d & t & Hin & Hk & Hsc & Ht). exists d. split; [by apply list_elem_of_In|].
    unfold fresh_for, mget, scraped_since, bson_datetime. rewrite Hk, Hsc. simpl.
    rewrite String.eqb_refl. simpl. lia.
Qed.

(** X21.  [_filter_roles_needing_update(roles, freshness_days)] always
    ends, sends no request and leaves the collection as it is.  When
    [utcnow() - timedelta(days=freshness_days)] is a date it returns, in
    the order given and with repetitions kept, the roles that have no
    fresh posting; a role has one exactly when some stored posting has
    [search_keywords] equal to the role, letter for letter, and a
    [scraped_at] date on or after that cutoff, taken to the
    millisecond.  Otherwise it raises [OverflowError] after reading the
    clock. *)
Theorem filter_roles_needing_update_keeps_the_stale
    (roles : list string) (freshness_days : Z) (w : world) :
  let cutoff := clock env (ticks w) - freshness_days * 86400000000 in
  let fresh := fun role =>
    exists d t, d ∈ store w /\ d !! "search_keywords" = Some (VStr role) /\
                d !! "scraped_at" = Some (VTime t) /\ cutoff / 1000 * 1000 <= t in
  (Z.abs freshness_days <= 999999999 ->
   -62135596800000000 <= cutoff <= 253402300799999999 ->
   exists result w',
     _filter_roles_needing_update env roles freshness_days w = Some (inr result, w') /\
     store w' = store w /\ posts w' = posts w /\
     result = filter (fun role => has_fresh role cutoff (store w) = false) roles /\
     (forall role, has_fresh role cutoff (store w) = true <-> fresh role) /\
     (forall role, role ∈ result <-> role ∈ roles /\ ~ fresh role)) /\
  (999999999 < Z.abs freshness_days \/ cutoff < -62135596800000000
   \/ 253402300799999999 < cutoff ->
   _filter_roles_needing_update env roles freshness_days w
   = Some (inl OverflowError, set_ticks S w)) /\
  outcome_of (_filter_roles_needing_update Fixtures.env_wall_clock
                ["Backend Developer"; "QA Engineer"; "backend developer"; "QA Engineer"]
                30 (Fixtures.with_store Fixtures.store_old_and_new))
    = Some (inr ["QA Engineer"; "backend developer"; "QA Engineer"]) /\
  outcome_of (_filter_roles_needing_update Fixtures.env_wall_clock
                ["Backend Developer"] 1
                (Fixtures.with_store Fixtures.store_old_and_new))
    = Some (inr ["Backend Developer"]) /\
  outcome_of (_filter_roles_needing_update Fixtures.env_wall_clock
                ["Backend Developer"] 739558
                (Fixtures.with_store Fixtures.store_old_and_new))
    = Some (inl OverflowError).
Proof.
  intros cutoff fresh.
  destruct (days_before_spec (clock env (ticks w)) freshness_days) as (Hin & Hout & _).
  fold cutoff in Hin, Hout.
  split; [|split; [|repeat split; vm_compute; reflexivity]].
  - intros Hdays Hrange. specialize (Hin Hdays Hrange).
    destruct (filter_roles_needing_update_eq roles freshness_days w cutoff Hin)
      as (w' & Hrun & Hs & Hp).
    eexists _, w'. split; [exact Hrun|]. split; [exact Hs|]. split; [exact Hp|].
    split; [reflexivity|].
    assert (forall role, has_fresh role cutoff (store w) = true <-> fresh role) as Hfresh
      by (intros role; apply has_fresh_spec).
    split; [exact Hfresh|].
    intros role. rewrite list_elem_of_filter, <- Hfresh.
    destruct (has_fresh role cutoff (store w)); split; intros [? ?]; split; done.
  - intros Hover. by rewrite (filter_roles_needing_update_overflow _ _ _ _ (Hout Hover)).
Qed.

Lemma scraped_since_bson_doc cutoff d :
  scraped_since cutoff d = false -> scraped_since cutoff (bson_doc d) = false.
Proof.
  unfold scraped_since. rewrite lookup_bson_doc.
  destruct (d !! "scraped_at") as [[| | | |t| |]|]; simpl; try done.
  intros Ht. pose proof (bson_datetime_le t). lia.
Qed.

(** X22.  Only an insertion refreshes a role.  For a payload of model
    fields that validates, filed under [role] and scraped at [t], and
    a freshness window that starts at a date: when [upsert_job] inserts
    the payload (no stored posting was found for it) and [t] is within
    the window, the role is no longer returned by
    [_filter_roles_needing_update]; when [upsert_job] updates a stored
    posting instead, and every stored posting was scraped before the
    window, the role is still returned, since an update never moves
    [scraped_at]. *)
Theorem upsert_job_refreshes_only_by_insert
    (p : gmap string value) (w : world) (role : string) (t : Z)
    (freshness_days : Z) (i : nat) (d : gmap string value) (w1 : world) (cutoff : Z) :
  (forall k v, p !! k = Some v -> is_field k = true) ->
  (forall t', validates env (<["updated_at" := VTime t']> p) = true) ->
  p !! "search_keywords" = Some (VStr role) ->
  p !! "scraped_at" = Some (VTime t) ->
  upsert_job env p w = Some (inr (i, d), w1) ->
  days_before (clock env (ticks w1)) freshness_days = inr cutoff ->
  (existing_for p (store w) = None -> cutoff <= t ->
   outcome_of (_filter_roles_needing_update env [role] freshness_days w1)
   = Some (inr [])) /\
  (is_Some (existing_for p (store w)) ->
   Forall (fun d0 => scraped_since cutoff d0 = false) (store w) ->
   outcome_of (_filter_roles_needing_update env [role] freshness_days w1)
   = Some (inr [role])).
Proof.
  intros Hfields Hval Hkw Hsc Hrun Hcutoff.
  destruct (upsert_job_acts env p w Hfields Hval)
    as (i' & d' & w1' & Hrun' & Hcase & Hup & Hkeys).
  rewrite Hrun in Hrun'. injection Hrun' as <- <- <-.
  destruct (filter_roles_needing_update_eq [role] freshness_days w1 cutoff Hcutoff)
    as (w2 & Hf & _).
  rewrite Hf. cbn [outcome_of fmap option_fmap option_map fst].
  rewrite filter_cons, filter_nil.
  split.
  - intros Hnone Hfresh. rewrite Hnone in Hcase. destruct Hcase as (-> & Hs & Hd).
    assert (has_fresh role cutoff (store w1) = true) as ->.
    { apply has_fresh_spec. exists (bson_doc d), (bson_datetime t).
      split; [rewrite Hs; apply elem_of_app; right; by left|].
      rewrite !lookup_bson_doc.
      rewrite (Hkeys "search_keywords" (VStr role)) by done.
      rewrite Hd, Hsc. simpl. split; [done|]. split; [done|].
      by apply bson_datetime_mono. }
    by destruct (decide (true = false)).
  - intros [[i0 ex] Hex] Hold. rewrite Hex in Hcase. destruct Hcase as (-> & Hs & Hd).
    assert (has_fresh role cutoff (store w1) = false) as ->.
    { unfold has_fresh. apply not_true_is_false.
      intros (d0 & Hin%list_elem_of_In & Hd0)%existsb_exists.
      rewrite Hs in Hin. apply list_elem_of_lookup in Hin as [j Hj].
      pose proof (existing_for_lookup _ _ _ _ Hex) as Hi.
      assert (scraped_since cutoff d0 = false) as Hno.
      { destruct (decide (j = i0)) as [->|Hne].
        - rewrite list_lookup_insert_eq in Hj by (by eapply lookup_lt_Some).
          injection Hj as <-. apply scraped_since_bson_doc.
          unfold scraped_since. rewrite Hd.
          exact (proj1 (Forall_forall _ _) Hold ex (list_elem_of_lookup_2 _ _ _ Hi)).
        - rewrite list_lookup_insert_ne in Hj by done.
          apply (proj1 (Forall_forall _ _) Hold).
          by eapply list_elem_of_lookup_2. }
      unfold fresh_for in Hd0. rewrite Hno in Hd0. by rewrite andb_false_r in Hd0. }
    by destruct (decide (false = false)).
Qed.

End Freshness.

Lemma upsert_job_refreshes_only_by_insert_witness :
  (exists i d w1,
     JobPosting.upsert_job Fixtures.env_wall_clock Fixtures.a_mapped_job_now Fixtures.w0
       = Some (inr (i, d), w1) /\
     outcome_of (UserJobCollectionService._filter_roles_needing_update
                   Fixtures.env_wall_clock ["Backend Developer"] 30 w1)
     = Some (inr [])) /\
  (exists i d w1,
     JobPosting.upsert_job Fixtures.env_wall_clock Fixtures.a_mapped_job_now
       (Fixtures.with_store Fixtures.store_with_old_job) = Some (inr (i, d), w1) /\
     length (store w1) = 1%nat /\
     outcome_of (UserJobCollectionService._filter_roles_needing_update
                   Fixtures.env_wall_clock ["Backend Developer"] 30 w1)
     = Some (inr ["Backend Developer"])).
Proof.
  assert (forall k v, Fixtures.a_mapped_job_now !! k = Some v ->
                      JobPosting.is_field k = true) as Hfields.
  { assert (forallb (fun kv => JobPosting.is_field kv.1)
              (map_to_list Fixtures.a_mapped_job_now) = true) as Hall
      by (vm_compute; reflexivity).
    intros k v Hk.
    exact (proj1 (forallb_map_to_list (fun kv => JobPosting.is_field kv.1)
                    Fixtures.a_mapped_job_now) Hall k v Hk). }
  assert (forall t, validates Fixtures.env_wall_clock
                      (<["updated_at" := VTime t]> Fixtures.a_mapped_job_now) = true)
    as Hval by reflexivity.
  assert (Fixtures.a_mapped_job_now !! "search_keywords" = Some (VStr "Backend Developer"))
    as Hkw by (vm_compute; reflexivity).
  assert (Fixtures.a_mapped_job_now !! "scraped_at" = Some (VTime 1762128000000123))
    as Hsc by (vm_compute; reflexivity).
  split.
  - assert (observe ticks
              (JobPosting.upsert_job Fixtures.env_wall_clock Fixtures.a_mapped_job_now
                 Fixtures.w0) = Some 1%nat) as Hobs by (vm_compute; reflexivity).
    destruct (upsert_job_acts Fixtures.env_wall_clock Fixtures.a_mapped_job_now Fixtures.w0
                Hfields Hval) as (i & d & w1 & E & _).
    rewrite E in Hobs. injection Hobs as Hticks.
    exists i, d, w1. split; [exact E|].
    apply (proj1 (upsert_job_refreshes_only_by_insert Fixtures.env_wall_clock
                    Fixtures.a_mapped_job_now Fixtures.w0 "Backend Developer"
                    1762128000000123 30 i d w1
                    (clock Fixtures.env_wall_clock 1 - timedelta_days 30)
                    Hfields Hval Hkw Hsc E
                    ltac:(rewrite Hticks; vm_compute; reflexivity))).
    + vm_compute. reflexivity.
    + vm_compute. discriminate.
  - assert (observe (fun w => (ticks w, length (store w)))
              (JobPosting.upsert_job Fixtures.env_wall_clock Fixtures.a_mapped_job_now
                 (Fixtures.with_store Fixtures.store_with_old_job))
            = Some (1%nat, 1%nat)) as Hobs by (vm_compute; reflexivity).
    destruct (upsert_job_acts Fixtures.env_wall_clock Fixtures.a_mapped_job_now
                (Fixtures.with_store Fixtures.store_with_old_job)
                Hfields Hval) as (i & d & w1 & E & _).
    rewrite E in Hobs. injection Hobs as Hticks Hlen.
    exists i, d, w1. split; [exact E|]. split; [exact Hlen|].
    apply (proj2 (upsert_job_refreshes_only_by_insert Fixtures.env_wall_clock
                    Fixtures.a_mapped_job_now
                    (Fixtures.with_store Fixtures.store_with_old_job)
                    "Backend Developer"
                    1762128000000123 30 i d w1
                    (clock Fixtures.env_wall_clock 1 - timedelta_days 30)
                    Hfields Hval Hkw Hsc E
                    ltac:(rewrite Hticks; vm_compute; reflexivity))).
    + assert (match JobPosting.existing_for Fixtures.a_mapped_job_now
                      (store (Fixtures.with_store Fixtures.store_with_old_job)) with
              | Some _ => true
              | None => false
              end = true) as Hex by (vm_compute; reflexivity).
      destruct (JobPosting.existing_for _ _); [by eexists|discriminate Hex].
    + repeat constructor.
Defined.

(** ** get_role_required_skills: order, and the cache *)

Section Ranked.
Import GapService.
Context (env : Env).

Lemma count_desc_trans : Transitive count_desc.
Proof. intros a b c. unfold count_desc. lia. Qed.

#[local] Existing Instance count_desc_total.
#[local] Existing Instance count_desc_trans.

Lemma required_of_sorted total threshold results :
  StronglySorted count_desc results ->
  StronglySorted ranked (required_of env total threshold results).
Proof.
  induction 1 as [|[tag n] rest Hs IH Hall]; simpl; [constructor|].
  destruct (Z.eqb total 0); [done|].
  destruct (meets_threshold _ _); [|done].
  constructor; [done|].
  apply Forall_forall. intros entry (_ & t & c & Hin & _ & ->)%elem_of_required_of.
  unfold ranked. simpl. by apply (proj1 (Forall_forall _ _) Hall (t, c)).
Qed.

Lemma required_of_skills total threshold results :
  skill <$> required_of env total threshold results `sublist_of` results.*1.
Proof.
  induction results as [|[tag n] rest IH]; simpl; [done|].
  destruct (Z.eqb total 0); [by apply sublist_cons|].
  destruct (meets_threshold _ _); [by apply sublist_skip|by apply sublist_cons].
Qed.

Lemma compute_role_required_skills_cache role days threshold w result w' :
  compute_role_required_skills env role days threshold w = Some (inr result, w') ->
  result <> [] ->
  cache w' = <[cache_key env role days threshold := result]> (cache w).
Proof.
  unfold compute_role_required_skills. munfold.
  destruct (days_before _ _) as [e|cutoff]; [done|].
  unfold count_where, aggregate, first_or_none. munfold. simpl.
  repeat match goal with
         | |- context [if ?b then _ else _] => destruct b; simpl
         end;
    try (by intros [= <- <-]);
    match goal with
    | |- context [match ?l with [] => _ | _ => _ end] => destruct l eqn:E
    end; by intros [= <- <-].
Qed.

(** X23.  A result of [get_role_required_skills] that is not taken from
    the cache lists the most frequent skill first and no skill twice.
    Every entry has as its [count] the number of times its skill occurs
    among the tags of the matched postings, which is positive, the
    number of matched postings as its [total_jobs], and its [skill] as
    its [technology_slug].  When the window does not start at a date
    (more than 999999999 days, or a start outside the years 1 to 9999)
    the result is empty. *)
Theorem get_role_required_skills_ranked
    (role : string) (days : Z) (threshold : float) (w : world)
    (result : list RequiredSkill) (w' : world) :
  cache w !! cache_key env role days threshold = None ->
  get_role_required_skills env role days threshold w = Some (inr result, w') ->
  let cutoff := clock env (ticks w) - days * 86400000000 in
  let matched := matched_postings cutoff (strip role) (store w) in
  Sorted ranked result /\
  NoDup (skill <$> result) /\
  Forall (fun entry =>
            count entry = occurrences (skill entry) (matched ≫= unwind) /\
            0 < count entry /\
            total_jobs entry = Z.of_nat (length matched) /\
            technology_slug entry = skill entry)
         result /\
  (999999999 < Z.abs days \/ cutoff < -62135596800000000
   \/ 253402300799999999 < cutoff -> result = []).
Proof.
  intros Hmiss Hrun cutoff matched.
  rewrite (get_role_required_skills_miss env _ _ _ _ Hmiss) in Hrun.
  destruct (days_before_spec (clock env (ticks w)) days) as (_ & Hout & Hcut & _).
  fold cutoff in Hout, Hcut.
  destruct (days_before (clock env (ticks w)) days) as [e|c] eqn:Hc.
  { injection Hrun as <- <-.
    split; [constructor|]. split; [constructor|]. split; [constructor|done]. }
  pose proof (Hcut c eq_refl) as ->.
  destruct (compute_role_required_skills_eq env role days threshold w cutoff Hc)
    as (w0 & ops & Hcomp & _).
  rewrite Hcomp in Hrun. injection Hrun as <- <-. fold matched.
  split; [|split; [|split]].
  - apply StronglySorted_Sorted, required_of_sorted, StronglySorted_merge_sort; apply _.
  - eapply sublist_NoDup; [|apply required_of_skills].
    rewrite merge_sort_Permutation. apply group_count_NoDup.
  - apply Forall_forall. intros entry (Hne & tag & n & Hin & Hm & ->)%elem_of_required_of.
    rewrite merge_sort_Permutation in Hin. apply elem_of_group_count in Hin as [Hin ->].
    cbn [count total_jobs technology_slug skill percentage].
    split; [done|]. split; [by apply occurrences_pos|done].
  - intros Hover. specialize (Hout Hover). congruence.
Qed.

(** X24.  The cache round trip.  After [get_role_required_skills]
    returned a list that is not empty, the list is in the cache under
    the key of its arguments, and as long as that entry is there a
    call with the same [days] and [threshold] and the same role up to
    letter case returns the very same list and changes nothing: it
    neither reads the clock nor queries the collection, whatever the
    collection holds by then.  (That entries leave the cache after
    half an hour is outside the model.) *)
Theorem get_role_required_skills_is_cached
    (role : string) (days : Z) (threshold : float) (w : world)
    (result : list RequiredSkill) (w1 : world) :
  get_role_required_skills env role days threshold w = Some (inr result, w1) ->
  result <> [] ->
  cache w1 !! cache_key env role days threshold = Some result /\
  forall role' w2,
    lower role' = lower role ->
    cache w2 !! cache_key env role days threshold
      = cache w1 !! cache_key env role days threshold ->
    get_role_required_skills env role' days threshold w2 = Some (inr result, w2).
Proof.
  intros Hrun Hne.
  assert (cache w1 !! cache_key env role days threshold = Some result) as Hhit.
  { destruct (cache w !! cache_key env role days threshold) as [cached|] eqn:Hc.
    - revert Hrun. unfold get_role_required_skills. munfold. rewrite Hc.
      by intros [= <- <-].
    - rewrite (get_role_required_skills_miss env _ _ _ _ Hc) in Hrun.
      destruct (days_before (clock env (ticks w)) days) as [e|c];
        [by injection Hrun as <- _|].
      rewrite (compute_role_required_skills_cache _ _ _ _ _ _ Hrun Hne).
      apply lookup_insert_eq. }
  split; [done|]. intros role' w2 Hrole Hcache.
  assert (cache_key env role' days threshold = cache_key env role days threshold) as Hkey
    by (unfold cache_key; by rewrite Hrole).
  unfold get_role_required_skills. munfold. by rewrite Hkey, Hcache, Hhit.
Qed.

End Ranked.

Lemma get_role_required_skills_ranked_witness :
  exists result w',
    GapService.get_role_required_skills Fixtures.env_wall_clock "Backend Developer" 30
      0.25%float (Fixtures.with_store Fixtures.store_old_and_new)
      = Some (inr result, w') /\
    skill <$> result = [VStr "A"; VStr "B"] /\
    count <$> result = [3; 1] /\
    Sorted GapService.ranked result /\
    NoDup (skill <$> result) /\
    Forall (fun entry => total_jobs entry = 3) result.
Proof.
  assert (match GapService.get_role_required_skills Fixtures.env_wall_clock
                  "Backend Developer" 30 0.25%float
                  (Fixtures.with_store Fixtures.store_old_and_new) with
          | Some (inr l, _) => Some (skill <$> l, count <$> l)
          | _ => None
          end = Some ([VStr "A"; VStr "B"], [3; 1])) as Hobs
    by (vm_compute; reflexivity).
  assert (cache (Fixtures.with_store Fixtures.store_old_and_new)
            !! GapService.cache_key Fixtures.env_wall_clock "Backend Developer" 30
                 0.25%float = None)
    as Hmiss by (vm_compute; reflexivity).
  destruct (GapService.get_role_required_skills _ _ _ _ _)
    as [[[e|result] w']|] eqn:E; try discriminate Hobs.
  injection Hobs as Hskills Hcounts.
  destruct (get_role_required_skills_ranked Fixtures.env_wall_clock _ _ _ _ _ _ Hmiss E)
    as (Hsorted & Hnd & Hall & _).
  exists result, w'. split; [reflexivity|]. split; [exact Hskills|].
  split; [exact Hcounts|]. split; [exact Hsorted|]. split; [exact Hnd|].
  eapply Forall_impl; [exact Hall|]. intros entry (_ & _ & -> & _).
  vm_compute. reflexivity.
Defined.

Lemma get_role_required_skills_is_cached_witness :
  exists result w1,
    GapService.get_role_required_skills Fixtures.env_200 "Backend Developer" 30 0.25%float
      (Fixtures.with_store Fixtures.store_A80_B20) = Some (inr result, w1) /\
    GapService.get_role_required_skills Fixtures.env_200 "BACKEND developer" 30 0.25%float
      (set_store (fun _ => []) w1) = Some (inr result, set_store (fun _ => []) w1).
Proof.
  assert (skills_of_run :
    GapService.skills_of (outcome_of
      (GapService.get_role_required_skills Fixtures.env_200 "Backend Developer" 30 0.25%float
         (Fixtures.with_store Fixtures.store_A80_B20))) = Some [VStr "A"])
    by (vm_compute; reflexivity).
  destruct (GapService.get_role_required_skills _ _ _ _ _)
    as [[[e|result] w1]|] eqn:E; try discriminate skills_of_run.
  exists result, w1. split; [reflexivity|].
  assert (result <> []) as Hne by (intros ->; discriminate skills_of_run).
  apply (proj2 (get_role_required_skills_is_cached Fixtures.env_200 _ _ _ _ _ _ E Hne)).
  - vm_compute. reflexivity.
  - reflexivity.
Defined.

(** ** analyze_skill_gap *)

Section Analysis.
Import GapService.
Context (env : Env).

Lemma get_role_required_skills_returns role days threshold w :
  exists result w',
    get_role_required_skills env role days threshold w = Some (inr result, w') /\
    store w' = store w.
Proof.
  destruct (cache w !! cache_key env role days threshold) as [cached|] eqn:Hc.
  - exists cached, w. split; [|done].
    unfold get_role_required_skills. munfold. by rewrite Hc.
  - rewrite (get_role_required_skills_miss env _ _ _ _ Hc).
    destruct (days_before (clock env (ticks w)) days) as [e|cutoff] eqn:Hcutoff.
    + by eexists _, _.
    + destruct (compute_role_required_skills_eq env role days threshold w cutoff Hcutoff)
        as (w' & ops & -> & Hst & _).
      by eexists _, w'.
Qed.

Lemma filter_fmap_bool {A B} (f : A -> B) (p : B -> bool) (b : bool) (l : list A) :
  filter (fun y => p y = b) (f <$> l) = f <$> filter (fun x => p (f x) = b) l.
Proof.
  induction l as [|x l IH]; [done|].
  rewrite fmap_cons, !filter_cons, IH.
  by destruct (decide (p (f x) = b)).
Qed.

(** X25.  [analyze_skill_gap] always returns an analysis, it never
    raises, and it leaves the collection as it is.  The analysis is for
    the role asked; [total_required_skills] is the number of its
    [required_skills], [skill_match_count] is the number of those the
    user has, [missing_skills] are the names of those the user has not,
    in order; and an analysis without required skills is the all-zero
    one, with no postings analysed. *)
Theorem analyze_skill_gap_accounts
    (user : User) (target_role : string) (days : Z) (threshold : float) (w : world) :
  exists a w',
    analyze_skill_gap env user target_role days threshold w = Some (inr a, w') /\
    store w' = store w /\
    analysis_role a = target_role /\
    total_required_skills a = Z.of_nat (length (analysis_required_skills a)) /\
    skill_match_count a
      = Z.of_nat (length (filter (fun item => user_has item = true)
                            (analysis_required_skills a))) /\
    analysis_missing_skills a
      = item_skill <$> filter (fun item => user_has item = false)
                         (analysis_required_skills a) /\
    (analysis_required_skills a = [] -> a = empty_analysis target_role).
Proof.
  destruct (get_role_required_skills_returns target_role days threshold w)
    as (required & w' & Hrun & Hst).
  unfold analyze_skill_gap, try_except. munfold. rewrite Hrun.
  destruct required as [|first rest].
  - eexists _, w'. split; [reflexivity|]. by repeat split.
  - unfold compute_user_coverage. rewrite coverage_loop.
    cbn [skill_gap_items missing_skills skills_have]. rewrite !app_nil_l, Z.add_0_l.
    eexists _, w'. split; [reflexivity|].
    cbn [analysis_role total_required_skills analysis_required_skills
         skill_match_count analysis_missing_skills].
    split; [done|]. split; [done|].
    split; [by rewrite length_fmap|].
    rewrite !filter_fmap_bool, !length_fmap, <- list_fmap_compose.
    split; [done|]. split; [done|]. by rewrite fmap_cons.
Qed.

End Analysis.
